(** * Strawberry: the Spotify catalogue crawl, its transport layer,
      the token lifecycle and the favourites requests

    A shallow embedding of [src/spotify/spotifybaserequest.cpp],
    [spotifyrequest.cpp], [spotifyfavoriterequest.cpp] and the
    authentication part of [spotifyservice.cpp].

    Conventions.
    - C++ [int] counters are [Z]; where the source converts between integer
      types the wrap-around is written out.
    - A [QNetworkReply*] is a natural number (the identity of the reply
      object) together with what the code reads from the reply when it has
      finished.
    - Signals are appended to a log held in the state of the emitting object.
    - [QMap<QString,_>] is a [gmap string _]; where the source iterates over
      a map the keys are visited in ascending order, as [QMap] does. *)

From stdpp Require Import gmap strings list fin_maps pretty sorting.
From Stdlib Require Import ZArith Lia.
From Stdlib Require Ascii.

Local Open Scope Z_scope.

#[global] Set Warnings "-clear-no-such-hyp".
#[global] Set Warnings "-notation-for-abbreviation".

(* ===================================================================== *)
(** ** The parts of Qt the code relies on *)
(* ===================================================================== *)

Module Qt.

Import Stdlib.Strings.Ascii.

(** [QJsonValue].  A JSON number is a double; the code only ever converts
    numbers with [toInt()], which yields the default 0 unless the number is
    whole and fits an [int], so whole numbers carry their value and all
    other numbers are [JReal]. *)
#[warnings="-register-all"]
Inductive QJsonValue : Type :=
| JNull
| JBool (b : bool)
| JInt (z : Z)
| JReal
| JString (s : string)
| JArray (a : list QJsonValue)
| JObject (o : list (string * QJsonValue))
| JUndefined.

Abbreviation QJsonObject := (list (string * QJsonValue)).
Abbreviation QJsonArray := (list QJsonValue).

Fixpoint find (o : QJsonObject) (key : string) : option QJsonValue :=
  match o with
  | [] => None
  | (k, v) :: o' => if String.eqb k key then Some v else find o' key
  end.

(** [QJsonObject::contains] and [QJsonObject::operator[]] (which yields an
    undefined value for an absent key). *)
Definition contains (o : QJsonObject) (key : string) : bool :=
  match find o key with Some _ => true | None => false end.

Definition value (o : QJsonObject) (key : string) : QJsonValue :=
  default JUndefined (find o key).

Definition objIsEmpty (o : QJsonObject) : bool :=
  match o with [] => true | _ => false end.

Definition isObject (v : QJsonValue) : bool :=
  match v with JObject _ => true | _ => false end.

Definition isArray (v : QJsonValue) : bool :=
  match v with JArray _ => true | _ => false end.

Definition isString (v : QJsonValue) : bool :=
  match v with JString _ => true | _ => false end.

Definition toObject (v : QJsonValue) : QJsonObject :=
  match v with JObject o => o | _ => [] end.

Definition toArray (v : QJsonValue) : QJsonArray :=
  match v with JArray a => a | _ => [] end.

Definition toString (v : QJsonValue) : string :=
  match v with JString s => s | _ => "" end.

Definition int_min : Z := - 2 ^ 31.
Definition int_max : Z := 2 ^ 31 - 1.

Definition toInt (v : QJsonValue) : Z :=
  match v with
  | JInt z => if bool_decide (int_min ≤ z ≤ int_max) then z else 0
  | _ => 0
  end.

(** [QString::toLower] on the letters [A] to [Z], the only ones whose lower
    case is one of the letters of [false]. *)
Definition lowerChar (c : ascii) : ascii :=
  let n := nat_of_ascii c in
  if (65 <=? n)%nat && (n <=? 90)%nat then ascii_of_nat (n + 32) else c.

Fixpoint toLower (s : string) : string :=
  match s with
  | "" => ""
  | String c s' => String (lowerChar c) (toLower s')
  end.

(** [toVariant().toBool()]: a boolean is itself, a number is true when it
    is not zero, a string is false when its lower case is empty, "0" or
    "false". *)
Definition toVariantBool (v : QJsonValue) : bool :=
  match v with
  | JBool b => b
  | JInt z => negb (z =? 0)
  | JReal => true
  | JString s =>
      let str := toLower s in
      negb (String.eqb str "" || String.eqb str "0" || String.eqb str "false")
  | _ => false
  end.

(** [QJsonDocument] and the outcome of [QJsonDocument::fromJson]. *)
Inductive QJsonDocument : Type :=
| DocEmpty
| DocArray (a : QJsonArray)
| DocObject (o : QJsonObject).

Inductive JsonParse : Type :=
| ParseError (errorString : string)
| Parsed (doc : QJsonDocument).

Definition docIsEmpty (d : QJsonDocument) : bool :=
  match d with DocEmpty => true | _ => false end.

Definition docIsObject (d : QJsonDocument) : bool :=
  match d with DocObject _ => true | _ => false end.

Definition object (d : QJsonDocument) : QJsonObject :=
  match d with DocObject o => o | _ => [] end.

(** A [QByteArray] received from the network.  The code asks two things of
    it: whether it is empty, and what [QJsonDocument::fromJson] makes of
    it; the parser itself is Qt's. *)
Record QByteArray : Type := ByteArray {
  isEmpty : bool;
  fromJson : JsonParse
}.

(** [QByteArray()], the empty array; parsing it fails. *)
Definition noData : QByteArray :=
  ByteArray true (ParseError "illegal value").

(** A finished [QNetworkReply]: its identity and what the handlers read
    from it.  [error] is the numeric [QNetworkReply::NetworkError]
    ([NoError] is 0, codes below 200 are transport errors); [httpStatus]
    is [attribute(HttpStatusCodeAttribute).toInt()].  The last four fields
    are read only from image downloads: the declared content type up to its
    first semicolon, whether it is in the lists of supported image types,
    whether [QImage::loadFromData] accepts the data and whether
    [QImage::save] succeeds. *)
Record QNetworkReply : Type := NetworkReply {
  ptr : nat;
  error : Z;
  errorString : string;
  httpStatus : Z;
  readAll : QByteArray;
  mimetype : string;
  mimeSupported : bool;
  imageLoads : bool;
  imageSaves : bool
}.

Definition NoError : Z := 0.

(** [QString::number]. *)
Definition number (z : Z) : string := pretty z.

(** [QString::arg].  A place marker is [%], an optional [L] and one or two
    digits.  [arg] replaces every marker of the lowest number in the string
    by its argument, and leaves a string without markers as it is; a call
    chained to another therefore substitutes also in the text the earlier
    call inserted.  The digits are the ASCII digits, and a number is written
    as [QString::number] writes it also at a marker with [L]. *)
Inductive Piece : Type :=
| Text (c : ascii)
| Marker (n : nat) (text : string).

(** Where the scan of [findArgEscapes] stands: outside a marker, after [%],
    after [%L], or after the first digit of the marker [text]. *)
Inductive Scan : Type :=
| Plain
| Percent
| PercentL
| Digit (n : nat) (text : string).

Definition digitValue (c : ascii) : option nat :=
  let n := nat_of_ascii c in
  if (48 <=? n)%nat && (n <=? 57)%nat then Some (n - 48)%nat else None.

(** What is left of a marker that the string ends in. *)
Definition pending (st : Scan) : list Piece :=
  match st with
  | Plain => []
  | Percent => [Text "%"]
  | PercentL => [Text "%"; Text "L"]
  | Digit n text => [Marker n text]
  end.

Definition scan (st : Scan) (c : ascii) : list Piece * Scan :=
  let plain :=
    if Ascii.eqb c "%" then (pending st, Percent)
    else (pending st ++ [Text c], Plain) in
  match st with
  | Plain => plain
  | Percent =>
      if Ascii.eqb c "L" then ([], PercentL)
      else match digitValue c with
           | Some d => ([], Digit d (String "%" (String c "")))
           | None => plain
           end
  | PercentL =>
      match digitValue c with
      | Some d => ([], Digit d (String "%" (String "L" (String c ""))))
      | None => plain
      end
  | Digit n text =>
      match digitValue c with
      | Some d => ([Marker (10 * n + d) (text +:+ String c "")], Plain)
      | None => plain
      end
  end.

Fixpoint pieces (st : Scan) (s : string) : list Piece :=
  match s with
  | "" => pending st
  | String c s' => let '(ps, st') := scan st c in ps ++ pieces st' s'
  end.

(** The lowest number of a marker, if there is a marker. *)
Definition lowest (ps : list Piece) : option nat :=
  fold_right
    (λ p m,
       match p with
       | Marker n _ => Some (match m with Some k => Nat.min n k | None => n end)
       | Text _ => m
       end)
    None ps.

Definition replaced (m : nat) (a : string) (ps : list Piece) : string :=
  fold_right
    (λ p out,
       match p with
       | Text c => String c out
       | Marker n text => (if Nat.eqb n m then a else text) +:+ out
       end)
    "" ps.

Definition arg (s a : string) : string :=
  match lowest (pieces Plain s) with
  | Some m => replaced m a (pieces Plain s)
  | None => s
  end.

(** [QString("%1 (%2)").arg(a).arg(b)] and
    [QString("%1 (%2) (%3)").arg(a).arg(b).arg(c)]. *)
Definition arg2 (a b : string) : string := arg (arg "%1 (%2)" a) b.

Definition arg3 (a b c : string) : string :=
  arg (arg (arg "%1 (%2) (%3)" a) b) c.

(** [QString("%1 (%2)").arg(a, b)], which substitutes both arguments in one
    pass over the pattern. *)
Definition args2 (a b : string) : string := a +:+ " (" +:+ b +:+ ")".

(** Keys of a [QMap] in the order of iteration. *)
Definition string_le (a b : string) : Prop := String.leb a b = true.

Global Instance string_le_dec : RelDecision string_le :=
  λ a b, decide (String.leb a b = true).

Definition sortedKeys {V} (m : gmap string V) : list string :=
  merge_sort string_le (map fst (map_to_list m)).

(** [QMap::values()]: the values in ascending order of their keys. *)
Definition values {V} (m : gmap string V) : list V :=
  omap (λ k, m !! k) (sortedKeys m).

Definition mapIsEmpty {V} (m : gmap string V) : bool :=
  bool_decide (m = ∅).

Definition mapContains {V} (m : gmap string V) (k : string) : bool :=
  bool_decide (is_Some (m !! k)).

Definition strIsEmpty (s : string) : bool := String.eqb s "".

End Qt.

Import Qt.

(* ===================================================================== *)
(** ** SpotifyService: the token state and its lifecycle *)
(* ===================================================================== *)

Module Service.

(** A value stored with [QSettings::setValue]. *)
Inductive QVariant : Type :=
| VString (s : string)
| VULongLong (z : Z).

(** The single-shot [refresh_login_timer_]. *)
Record QTimer : Type := {
  active : bool;
  interval : Z
}.

Inductive Signal : Type :=
| LoginFailure (error_html : string)
| LoginComplete (success : bool)
| LoginSuccess
| BaseError (error : string).

(** The members of [SpotifyService] that the requests and the login code
    read or write; [settings] is the settings group of the service. *)
Record SpotifyService : Type := {
  enabled_ : bool;
  artistssearchlimit_ : Z;
  albumssearchlimit_ : Z;
  songssearchlimit_ : Z;
  fetchalbums_ : bool;
  download_album_covers_ : bool;
  access_token_ : string;
  refresh_token_ : string;
  expires_in_ : Z;
  login_time_ : Z;
  settings : gmap string QVariant;
  refresh_login_timer_ : QTimer;
  login_errors_ : list string;
  replies_ : list nat;
  emitted : list Signal
}.

Definition set_access_token_ (v : string) (s : SpotifyService) :
SpotifyService :=
{| enabled_ := enabled_ s; artistssearchlimit_ := artistssearchlimit_ s;
     albumssearchlimit_ := albumssearchlimit_ s; songssearchlimit_ :=
     songssearchlimit_ s; fetchalbums_ := fetchalbums_ s;
     download_album_covers_ := download_album_covers_ s; access_token_ := v;
     refresh_token_ := refresh_token_ s; expires_in_ := expires_in_ s;
     login_time_ := login_time_ s; settings := settings s;
     refresh_login_timer_ := refresh_login_timer_ s; login_errors_ :=
     login_errors_ s; replies_ := replies_ s; emitted := emitted s |}.

Definition set_refresh_token_ (v : string) (s : SpotifyService) :
SpotifyService :=
{| enabled_ := enabled_ s; artistssearchlimit_ := artistssearchlimit_ s;
     albumssearchlimit_ := albumssearchlimit_ s; songssearchlimit_ :=
     songssearchlimit_ s; fetchalbums_ := fetchalbums_ s;
     download_album_covers_ := download_album_covers_ s; access_token_ :=
     access_token_ s; refresh_token_ := v; expires_in_ := expires_in_ s;
     login_time_ := login_time_ s; settings := settings s;
     refresh_login_timer_ := refresh_login_timer_ s; login_errors_ :=
     login_errors_ s; replies_ := replies_ s; emitted := emitted s |}.

Definition set_expires_in_ (v : Z) (s : SpotifyService) : SpotifyService :=
{| enabled_ := enabled_ s; artistssearchlimit_ := artistssearchlimit_ s;
     albumssearchlimit_ := albumssearchlimit_ s; songssearchlimit_ :=
     songssearchlimit_ s; fetchalbums_ := fetchalbums_ s;
     download_album_covers_ := download_album_covers_ s; access_token_ :=
     access_token_ s; refresh_token_ := refresh_token_ s; expires_in_ := v;
     login_time_ := login_time_ s; settings := settings s;
     refresh_login_timer_ := refresh_login_timer_ s; login_errors_ :=
     login_errors_ s; replies_ := replies_ s; emitted := emitted s |}.

Definition set_login_time_ (v : Z) (s : SpotifyService) : SpotifyService :=
{| enabled_ := enabled_ s; artistssearchlimit_ := artistssearchlimit_ s;
     albumssearchlimit_ := albumssearchlimit_ s; songssearchlimit_ :=
     songssearchlimit_ s; fetchalbums_ := fetchalbums_ s;
     download_album_covers_ := download_album_covers_ s; access_token_ :=
     access_token_ s; refresh_token_ := refresh_token_ s; expires_in_ :=
     expires_in_ s; login_time_ := v; settings := settings s;
     refresh_login_timer_ := refresh_login_timer_ s; login_errors_ :=
     login_errors_ s; replies_ := replies_ s; emitted := emitted s |}.

Definition set_settings (v : gmap string QVariant) (s : SpotifyService) :
SpotifyService :=
{| enabled_ := enabled_ s; artistssearchlimit_ := artistssearchlimit_ s;
     albumssearchlimit_ := albumssearchlimit_ s; songssearchlimit_ :=
     songssearchlimit_ s; fetchalbums_ := fetchalbums_ s;
     download_album_covers_ := download_album_covers_ s; access_token_ :=
     access_token_ s; refresh_token_ := refresh_token_ s; expires_in_ :=
     expires_in_ s; login_time_ := login_time_ s; settings := v;
     refresh_login_timer_ := refresh_login_timer_ s; login_errors_ :=
     login_errors_ s; replies_ := replies_ s; emitted := emitted s |}.

Definition set_refresh_login_timer_ (v : QTimer) (s : SpotifyService) :
SpotifyService :=
{| enabled_ := enabled_ s; artistssearchlimit_ := artistssearchlimit_ s;
     albumssearchlimit_ := albumssearchlimit_ s; songssearchlimit_ :=
     songssearchlimit_ s; fetchalbums_ := fetchalbums_ s;
     download_album_covers_ := download_album_covers_ s; access_token_ :=
     access_token_ s; refresh_token_ := refresh_token_ s; expires_in_ :=
     expires_in_ s; login_time_ := login_time_ s; settings := settings s;
     refresh_login_timer_ := v; login_errors_ := login_errors_ s; replies_ :=
     replies_ s; emitted := emitted s |}.

Definition set_login_errors_ (v : list string) (s : SpotifyService) :
SpotifyService :=
{| enabled_ := enabled_ s; artistssearchlimit_ := artistssearchlimit_ s;
     albumssearchlimit_ := albumssearchlimit_ s; songssearchlimit_ :=
     songssearchlimit_ s; fetchalbums_ := fetchalbums_ s;
     download_album_covers_ := download_album_covers_ s; access_token_ :=
     access_token_ s; refresh_token_ := refresh_token_ s; expires_in_ :=
     expires_in_ s; login_time_ := login_time_ s; settings := settings s;
     refresh_login_timer_ := refresh_login_timer_ s; login_errors_ := v;
     replies_ := replies_ s; emitted := emitted s |}.

Definition set_replies_ (v : list nat) (s : SpotifyService) : SpotifyService :=
{| enabled_ := enabled_ s; artistssearchlimit_ := artistssearchlimit_ s;
     albumssearchlimit_ := albumssearchlimit_ s; songssearchlimit_ :=
     songssearchlimit_ s; fetchalbums_ := fetchalbums_ s;
     download_album_covers_ := download_album_covers_ s; access_token_ :=
     access_token_ s; refresh_token_ := refresh_token_ s; expires_in_ :=
     expires_in_ s; login_time_ := login_time_ s; settings := settings s;
     refresh_login_timer_ := refresh_login_timer_ s; login_errors_ :=
     login_errors_ s; replies_ := v; emitted := emitted s |}.

Definition set_emitted (v : list Signal) (s : SpotifyService) : SpotifyService :=
{| enabled_ := enabled_ s; artistssearchlimit_ := artistssearchlimit_ s;
     albumssearchlimit_ := albumssearchlimit_ s; songssearchlimit_ :=
     songssearchlimit_ s; fetchalbums_ := fetchalbums_ s;
     download_album_covers_ := download_album_covers_ s; access_token_ :=
     access_token_ s; refresh_token_ := refresh_token_ s; expires_in_ :=
     expires_in_ s; login_time_ := login_time_ s; settings := settings s;
     refresh_login_timer_ := refresh_login_timer_ s; login_errors_ :=
     login_errors_ s; replies_ := replies_ s; emitted := v |}.

Definition authenticated (s : SpotifyService) : bool :=
  negb (strIsEmpty (access_token_ s)).

Definition emit (sig : Signal) (s : SpotifyService) : SpotifyService :=
  set_emitted (emitted s ++ [sig]) s.

Definition stop (t : QTimer) : QTimer :=
  {| active := false; interval := interval t |}.

Definition Deauthenticate (s : SpotifyService) : SpotifyService :=
  let s := set_access_token_ "" s in
  let s := set_refresh_token_ "" s in
  let s := set_expires_in_ 0 s in
  let s := set_login_time_ 0 s in
  let s := set_settings (delete "access_token" (settings s)) s in
  let s := set_settings (delete "refresh_token" (settings s)) s in
  let s := set_settings (delete "expires_in" (settings s)) s in
  let s := set_settings (delete "login_time" (settings s)) s in
  set_refresh_login_timer_ (stop (refresh_login_timer_ s)) s.

(** [error_html] of [LoginError]: every message followed by a line break. *)
Definition errors_html (errors : list string) : string :=
  fold_left (λ html e, html +:+ e +:+ "<br />") errors "".

Definition LoginError (error : string) (s : SpotifyService) : SpotifyService :=
  let s := if negb (strIsEmpty error)
           then set_login_errors_ (login_errors_ s ++ [error]) s else s in
  let s := emit (LoginFailure (errors_html (login_errors_ s))) s in
  let s := emit (LoginComplete false) s in
  set_login_errors_ [] s.

(** Conversions to [quint64] and to [int]. *)
Definition to_quint64 (z : Z) : Z := z mod 2 ^ 64.

Definition to_int (z : Z) : Z := (z + 2 ^ 31) mod 2 ^ 32 - 2 ^ 31.

Section TimeConstants.

(** [kMsecPerSec] comes from [core/timeconstants.h]. *)
Variable kMsecPerSec : Z.

(** [now] is [QDateTime::currentDateTime().toSecsSinceEpoch()]. *)
Definition AccessTokenRequestFinished (now : Z) (reply : QNetworkReply)
    (s : SpotifyService) : SpotifyService :=
  if negb (bool_decide (ptr reply ∈ replies_ s)) then s else
  let s := set_replies_ (filter (λ r, r ≠ ptr reply) (replies_ s)) s in
  if negb (error reply =? NoError) || negb (httpStatus reply =? 200) then
    if negb (error reply =? NoError) && (error reply <? 200) then
      LoginError (arg2 (errorString reply) (number (error reply))) s
    else
      let data := readAll reply in
      let s :=
        match fromJson data with
        | Parsed json_doc =>
            if negb (docIsEmpty json_doc) && docIsObject json_doc then
              let json_obj := object json_doc in
              if negb (objIsEmpty json_obj) && contains json_obj "error"
                 && contains json_obj "error_description" then
                let error := toString (value json_obj "error") in
                let error_description :=
                  toString (value json_obj "error_description") in
                set_login_errors_
                  (login_errors_ s ++
                   ["Authentication failure: " +:+ args2 error error_description])
                  s
              else s
            else s
        | ParseError _ => s
        end in
      let s :=
        match login_errors_ s with
        | [] =>
            if negb (error reply =? NoError) then
              set_login_errors_
                [arg2 (errorString reply) (number (error reply))] s
            else
              set_login_errors_
                ["Received HTTP code " +:+ number (httpStatus reply)] s
        | _ => s
        end in
      LoginError "" s
  else
  let data := readAll reply in
  match fromJson data with
  | ParseError errorString =>
      emit (BaseError ("Failed to parse Json data in authentication reply: "
                       +:+ errorString)) s
  | Parsed json_doc =>
      if docIsEmpty json_doc then
        LoginError "Authentication reply from server has empty Json document." s
      else if negb (docIsObject json_doc) then
        LoginError "Authentication reply from server has Json document that is not an object." s
      else
      let json_obj := object json_doc in
      if objIsEmpty json_obj then
        LoginError "Authentication reply from server has empty Json object." s
      else if negb (contains json_obj "access_token")
              || negb (contains json_obj "expires_in") then
        LoginError "Authentication reply from server is missing access token or expires in." s
      else
      let s := set_access_token_ (toString (value json_obj "access_token")) s in
      let s := if contains json_obj "refresh_token"
               then set_refresh_token_
                      (toString (value json_obj "refresh_token")) s
               else s in
      let s := set_expires_in_ (to_quint64 (toInt (value json_obj "expires_in"))) s in
      let s := set_login_time_ (to_quint64 now) s in
      let s := set_settings
                 (<["access_token" := VString (access_token_ s)]> (settings s)) s in
      let s := set_settings
                 (<["refresh_token" := VString (refresh_token_ s)]> (settings s)) s in
      let s := set_settings
                 (<["expires_in" := VULongLong (expires_in_ s)]> (settings s)) s in
      let s := set_settings
                 (<["login_time" := VULongLong (login_time_ s)]> (settings s)) s in
      let s := if 0 <? expires_in_ s
               then set_refresh_login_timer_
                      {| active := true;
                         interval := to_int (to_quint64 (expires_in_ s * to_quint64 kMsecPerSec)) |} s
               else s in
      let s := emit (LoginComplete true) s in
      emit LoginSuccess s
  end.

End TimeConstants.

End Service.

(* ===================================================================== *)
(** ** Songs and the network access manager *)
(* ===================================================================== *)

Module Song.

(** Modelled from the spec: the implementation of class [Song]
    ([core/song.cpp]) is not among the sources, only its declaration in
    [core/song.h] is.  The record holds the members that
    [SpotifyRequest::ParseSong] sets and that the requests read; a getter or
    setter of the class reads or writes the member of the same name.
    [is_compilation] reports the compilation flags, of which the crawl
    touches only [compilation_detected]. *)
Record Song : Type := {
  song_id : string;
  album_id : string;
  artist_id : string;
  albumartist : string;
  album : string;
  artist : string;
  title : string;
  track : Z;
  disc : Z;
  url : string;
  art_automatic : string;
  compilation_detected : bool;
  valid : bool
}.

(** [Song(Song::Source_Spotify)]: an invalid song with nothing set. *)
Definition newSong : Song :=
  {| song_id := ""; album_id := ""; artist_id := ""; albumartist := "";
     album := ""; artist := ""; title := ""; track := -1; disc := -1;
     url := ""; art_automatic := ""; compilation_detected := false;
     valid := false |}.

Definition is_valid (song : Song) : bool := valid song.

Definition is_compilation (song : Song) : bool := compilation_detected song.

Definition set_disc (v : Z) (s : Song) : Song :=
  {| song_id := song_id s; album_id := album_id s; artist_id := artist_id s;
     albumartist := albumartist s; album := album s; artist := artist s;
     title := title s; track := track s; disc := v; url := url s;
     art_automatic := art_automatic s;
     compilation_detected := compilation_detected s; valid := valid s |}.

Definition set_compilation_detected (v : bool) (s : Song) : Song :=
  {| song_id := song_id s; album_id := album_id s; artist_id := artist_id s;
     albumartist := albumartist s; album := album s; artist := artist s;
     title := title s; track := track s; disc := disc s; url := url s;
     art_automatic := art_automatic s;
     compilation_detected := v; valid := valid s |}.

Definition set_art_automatic (v : string) (s : Song) : Song :=
  {| song_id := song_id s; album_id := album_id s; artist_id := artist_id s;
     albumartist := albumartist s; album := album s; artist := artist s;
     title := title s; track := track s; disc := disc s; url := url s;
     art_automatic := v;
     compilation_detected := compilation_detected s; valid := valid s |}.

End Song.

Abbreviation SongList := (list Song.Song).
Abbreviation SongMap := (gmap string Song.Song).

Module Core.

(** A request handed to [NetworkAccessManager]: the verb, the URL without
    its query, the query items before percent-encoding, and the bearer token
    of the [authorization] header when one is attached. *)
Inductive Verb : Type := GET | POST | DELETE.

Record QNetworkRequest : Type := {
  verb : Verb;
  target : string;
  query : list (string * string);
  bearer : option string
}.

(** The network access manager: the requests sent so far, and the identity
    the next reply object will have. *)
Record NetworkAccessManager : Type := {
  next_reply : nat;
  sent : list QNetworkRequest
}.

Definition send (req : QNetworkRequest) (n : NetworkAccessManager)
    : nat * NetworkAccessManager :=
  (next_reply n,
   {| next_reply := S (next_reply n); sent := sent n ++ [req] |}).

End Core.

Import Core.

(* ===================================================================== *)
(** ** SpotifyBaseRequest *)
(* ===================================================================== *)

Module Base.

Inductive QueryType : Type :=
| QueryType_None
| QueryType_Artists
| QueryType_Albums
| QueryType_Songs
| QueryType_SearchArtists
| QueryType_SearchAlbums
| QueryType_SearchSongs
| QueryType_StreamURL.

Global Instance QueryType_eq_dec : EqDecision QueryType.
Proof. solve_decision. Defined.

Definition kApiUrl : string := "https://api.spotify.com/v1".

Definition bearer_of (access_token : string) : option string :=
  if negb (strIsEmpty access_token) then Some access_token else None.

Definition CreateRequest (access_token : string) (ressource_name : string)
    (params : list (string * string)) (network : NetworkAccessManager)
    : nat * NetworkAccessManager :=
  send {| verb := GET; target := kApiUrl +:+ "/" +:+ ressource_name;
          query := params; bearer := bearer_of access_token |} network.

(** [Error] is pure virtual in the base class and [Deauthenticate] belongs
    to the service, so the functions of the base class return, next to their
    result, the calls they make, in order; the derived class runs them. *)
Inductive Call : Type :=
| CallError (error : string)
| CallDeauthenticate.

Definition GetReplyData (reply : QNetworkReply) : QByteArray * list Call :=
  if (error reply =? NoError) && (httpStatus reply =? 200) then
    (readAll reply, [])
  else if negb (error reply =? NoError) && (error reply <? 200) then
    (noData, [CallError (arg2 (errorString reply) (number (error reply)))])
  else
    let data := readAll reply in
    let sub_status := 0 in
    let '(error_text, status) :=
      match fromJson data with
      | Parsed json_doc =>
          if negb (docIsEmpty json_doc) && docIsObject json_doc then
            let json_obj := object json_doc in
            if negb (objIsEmpty json_obj) && contains json_obj "error"
               && isObject (value json_obj "error") then
              let obj_error := toObject (value json_obj "error") in
              if negb (objIsEmpty obj_error) && contains obj_error "status"
                 && contains obj_error "message" then
                let status := toInt (value json_obj "status") in
                let user_message := toString (value json_obj "message") in
                (arg3 user_message (number status) (number sub_status), status)
              else ("", 0)
            else ("", 0)
          else ("", 0)
      | ParseError _ => ("", 0)
      end in
    let error_text :=
      if strIsEmpty error_text then
        if negb (error reply =? NoError) then
          arg2 (errorString reply) (number (error reply))
        else "Received HTTP code " +:+ number (httpStatus reply)
      else error_text in
    if (status =? 401) && (sub_status =? 6001) then
      (noData, [CallDeauthenticate; CallError error_text])
    else
      (noData, [CallError error_text]).

Definition ExtractJsonObj (data : QByteArray) : QJsonObject * list Call :=
  match fromJson data with
  | ParseError _ => ([], [CallError "Reply from server missing Json data."])
  | Parsed json_doc =>
      if docIsEmpty json_doc then
        ([], [CallError "Received empty Json document."])
      else if negb (docIsObject json_doc) then
        ([], [CallError "Json document is not an object."])
      else
        let json_obj := object json_doc in
        if objIsEmpty json_obj then
          ([], [CallError "Received empty Json object."])
        else (json_obj, [])
  end.

Definition ExtractItems (json_obj : QJsonObject) : QJsonValue * list Call :=
  if negb (contains json_obj "items") then
    (JArray [], [CallError "Json reply is missing items."])
  else (value json_obj "items", []).

Definition ErrorsToHTML (errors : list string) : string :=
  fold_left (λ error_html error, error_html +:+ error +:+ "<br />") errors "".

End Base.

Import Base.

(* ===================================================================== *)
(** ** SpotifyFavoriteRequest *)
(* ===================================================================== *)

Module Favorite.

Inductive FavoriteType : Type :=
| FavoriteType_Artists
| FavoriteType_Albums
| FavoriteType_Songs.

Inductive Signal : Type :=
| ArtistsAdded (songs : SongList)
| AlbumsAdded (songs : SongList)
| SongsAdded (songs : SongList)
| ArtistsRemoved (songs : SongList)
| AlbumsRemoved (songs : SongList)
| SongsRemoved (songs : SongList).

(** The lambdas connected to [QNetworkReply::finished]. *)
Inductive Slot : Type :=
| AddFavoritesReplySlot (type : FavoriteType) (songs : SongList)
| RemoveFavoritesReplySlot (type : FavoriteType) (songs : SongList).

Record FavoriteRequest : Type := {
  service_ : Service.SpotifyService;
  network_ : NetworkAccessManager;
  replies_ : list nat;
  connections : list (nat * Slot);
  emitted : list Signal
}.

Definition set_service_ (v : Service.SpotifyService) (s : FavoriteRequest)
    : FavoriteRequest :=
  {| service_ := v; network_ := network_ s; replies_ := replies_ s;
     connections := connections s; emitted := emitted s |}.

Definition set_network_ (v : NetworkAccessManager) (s : FavoriteRequest)
    : FavoriteRequest :=
  {| service_ := service_ s; network_ := v; replies_ := replies_ s;
     connections := connections s; emitted := emitted s |}.

Definition set_replies_ (v : list nat) (s : FavoriteRequest)
    : FavoriteRequest :=
  {| service_ := service_ s; network_ := network_ s; replies_ := v;
     connections := connections s; emitted := emitted s |}.

Definition set_connections (v : list (nat * Slot)) (s : FavoriteRequest)
    : FavoriteRequest :=
  {| service_ := service_ s; network_ := network_ s; replies_ := replies_ s;
     connections := v; emitted := emitted s |}.

Definition emit (sig : Signal) (s : FavoriteRequest) : FavoriteRequest :=
  {| service_ := service_ s; network_ := network_ s; replies_ := replies_ s;
     connections := connections s; emitted := emitted s ++ [sig] |}.

Definition access_token (s : FavoriteRequest) : string :=
  Service.access_token_ (service_ s).

Definition FavoriteText (type : FavoriteType) : string :=
  match type with
  | FavoriteType_Artists => "artists"
  | FavoriteType_Albums => "albums"
  | FavoriteType_Songs => "tracks"
  end.

Definition FavoriteMethod (type : FavoriteType) : string :=
  match type with
  | FavoriteType_Artists => "artistIds"
  | FavoriteType_Albums => "albumIds"
  | FavoriteType_Songs => "trackIds"
  end.

(** [SpotifyFavoriteRequest::Error] only writes to the log. *)
Definition Error (error : string) (s : FavoriteRequest) : FavoriteRequest := s.

Definition call (c : Call) (s : FavoriteRequest) : FavoriteRequest :=
  match c with
  | CallError error => Error error s
  | CallDeauthenticate => set_service_ (Service.Deauthenticate (service_ s)) s
  end.

Definition calls (cs : list Call) (s : FavoriteRequest) : FavoriteRequest :=
  fold_left (λ s c, call c s) cs s.

(** [QObject::connect(reply, &QNetworkReply::finished, this, lambda)] and
    [QObject::disconnect(reply, nullptr, this, nullptr)]. *)
Definition connect (reply : nat) (slot : Slot) (s : FavoriteRequest)
    : FavoriteRequest :=
  set_connections (connections s ++ [(reply, slot)]) s.

Definition disconnect (reply : nat) (s : FavoriteRequest) : FavoriteRequest :=
  set_connections (filter (λ c, c.1 ≠ reply) (connections s)) s.

(** The id of a song for the category of the request, as the [switch] of
    [AddFavorites] and [RemoveFavorites] selects it. *)
Definition id_of (type : FavoriteType) (song : Song.Song) : string :=
  match type with
  | FavoriteType_Artists => Song.artist_id song
  | FavoriteType_Albums => Song.album_id song
  | FavoriteType_Songs => Song.song_id song
  end.

Definition join (sep : string) (l : list string) : string :=
  match l with
  | [] => ""
  | x :: l' => fold_left (λ acc y, acc +:+ sep +:+ y) l' x
  end.

Definition AddFavoritesRequest (type : FavoriteType) (id_list : list string)
    (songs : SongList) (s : FavoriteRequest) : FavoriteRequest :=
  let params := [(FavoriteMethod type, join "," id_list)] in
  let url := kApiUrl +:+ "/" +:+ "users/" +:+ "" +:+ "/favorites/"
             +:+ FavoriteText type in
  let '(reply, network) :=
    send {| verb := POST; target := url; query := params;
            bearer := bearer_of (access_token s) |} (network_ s) in
  let s := set_network_ network s in
  let s := connect reply (AddFavoritesReplySlot type songs) s in
  set_replies_ (replies_ s ++ [reply]) s.

Definition AddFavorites (type : FavoriteType) (songs : SongList)
    (s : FavoriteRequest) : FavoriteRequest :=
  let id_list :=
    fold_left
      (λ (id_list : list string) (song : Song.Song),
         if strIsEmpty (id_of type song) then id_list
         else
           let id := id_of type song in
           if negb (strIsEmpty id) && negb (bool_decide (id ∈ id_list))
           then id_list ++ [id] else id_list)
      songs [] in
  match id_list with
  | [] => s
  | _ => AddFavoritesRequest type id_list songs s
  end.

Definition AddArtists (songs : SongList) := AddFavorites FavoriteType_Artists songs.

Definition AddAlbums (songs : SongList) := AddFavorites FavoriteType_Albums songs.

Definition AddSongs (songs : SongMap) :=
  AddFavoritesRequest FavoriteType_Songs (sortedKeys songs) (values songs).

Definition AddFavoritesReply (reply : QNetworkReply) (type : FavoriteType)
    (songs : SongList) (s : FavoriteRequest) : FavoriteRequest :=
  if bool_decide (ptr reply ∈ replies_ s) then
    let s := set_replies_ (filter (λ r, r ≠ ptr reply) (replies_ s)) s in
    let s := disconnect (ptr reply) s in
    let s := calls (GetReplyData reply).2 s in
    if negb (error reply =? NoError) then s
    else
      match type with
      | FavoriteType_Artists => emit (ArtistsAdded songs) s
      | FavoriteType_Albums => emit (AlbumsAdded songs) s
      | FavoriteType_Songs => emit (SongsAdded songs) s
      end
  else s.

Definition RemoveFavoritesRequest (type : FavoriteType) (id : string)
    (songs : SongList) (s : FavoriteRequest) : FavoriteRequest :=
  let url := kApiUrl +:+ "/" +:+ "users/" +:+ "" +:+ "/favorites/"
             +:+ FavoriteText type +:+ "/" +:+ id in
  let '(reply, network) :=
    send {| verb := DELETE; target := url; query := [];
            bearer := bearer_of (access_token s) |} (network_ s) in
  let s := set_network_ network s in
  let s := connect reply (RemoveFavoritesReplySlot type songs) s in
  set_replies_ (replies_ s ++ [reply]) s.

(** [QMultiMap<QString, Song>]: for every key the values, the most recently
    inserted first. *)
Definition multiInsert {V} (k : string) (v : V) (m : gmap string (list V))
    : gmap string (list V) :=
  <[k := v :: default [] (m !! k)]> m.

Definition multiValues {V} (m : gmap string (list V)) (k : string) : list V :=
  default [] (m !! k).

Definition uniqueKeys {V} (m : gmap string (list V)) : list string :=
  sortedKeys m.

Definition RemoveFavorites (type : FavoriteType) (songs : SongList)
    (s : FavoriteRequest) : FavoriteRequest :=
  let songs_map :=
    fold_left
      (λ (songs_map : gmap string (list Song.Song)) (song : Song.Song),
         if strIsEmpty (id_of type song) then songs_map
         else
           let id := id_of type song in
           if negb (strIsEmpty id) then multiInsert id song songs_map
           else songs_map)
      songs ∅ in
  let ids := uniqueKeys songs_map in
  fold_left
    (λ s id, RemoveFavoritesRequest type id (multiValues songs_map id) s)
    ids s.

Definition RemoveArtists (songs : SongList) :=
  RemoveFavorites FavoriteType_Artists songs.

Definition RemoveAlbums (songs : SongList) :=
  RemoveFavorites FavoriteType_Albums songs.

Definition RemoveSongs (songs : SongList) :=
  RemoveFavorites FavoriteType_Songs songs.

Definition RemoveSongsMap (songs : SongMap) (s : FavoriteRequest)
    : FavoriteRequest :=
  fold_left
    (λ s song, RemoveFavoritesRequest FavoriteType_Songs (Song.song_id song) [song] s)
    (values songs) s.

Definition RemoveFavoritesReply (reply : QNetworkReply) (type : FavoriteType)
    (songs : SongList) (s : FavoriteRequest) : FavoriteRequest :=
  if bool_decide (ptr reply ∈ replies_ s) then
    let s := set_replies_ (filter (λ r, r ≠ ptr reply) (replies_ s)) s in
    let s := disconnect (ptr reply) s in
    let s := calls (GetReplyData reply).2 s in
    if negb (error reply =? NoError) then s
    else
      match type with
      | FavoriteType_Artists => emit (ArtistsRemoved songs) s
      | FavoriteType_Albums => emit (AlbumsRemoved songs) s
      | FavoriteType_Songs => emit (SongsRemoved songs) s
      end
  else s.

(** A reply finishes: the slot connected to it, if any, runs. *)
Fixpoint lookup_slot (reply : nat) (cs : list (nat * Slot)) : option Slot :=
  match cs with
  | [] => None
  | (r, slot) :: cs' =>
      if decide (r = reply) then Some slot else lookup_slot reply cs'
  end.

Definition finished (reply : QNetworkReply) (s : FavoriteRequest)
    : FavoriteRequest :=
  match lookup_slot (ptr reply) (connections s) with
  | Some (AddFavoritesReplySlot type songs) => AddFavoritesReply reply type songs s
  | Some (RemoveFavoritesReplySlot type songs) =>
      RemoveFavoritesReply reply type songs s
  | None => s
  end.

(** The requests sent by an operation: those in the log of the network
    access manager after it that were not there before. *)
Definition issued (before after : FavoriteRequest) : list QNetworkRequest :=
  drop (length (sent (network_ before))) (sent (network_ after)).

End Favorite.

(* ===================================================================== *)
(** ** SpotifyRequest: the crawl *)
(* ===================================================================== *)

Module Request.

Definition kMaxConcurrentArtistsRequests : Z := 3.
Definition kMaxConcurrentAlbumsRequests : Z := 3.
Definition kMaxConcurrentSongsRequests : Z := 3.
Definition kMaxConcurrentArtistAlbumsRequests : Z := 3.
Definition kMaxConcurrentAlbumSongsRequests : Z := 3.
Definition kMaxConcurrentAlbumCoverRequests : Z := 1.

Record Artist : Type := {
  artist_id : string;
  artist : string
}.

Record Album : Type := {
  album_id : string;
  album : string;
  cover_url : string;
  album_explicit : bool
}.

Record Request : Type := {
  offset : Z;
  limit : Z
}.

Record ArtistAlbumsRequest : Type := {
  aa_artist : Artist;
  aa_offset : Z;
  aa_limit : Z
}.

Record AlbumSongsRequest : Type := {
  as_artist : Artist;
  as_album : Album;
  as_offset : Z;
  as_limit : Z
}.

Record AlbumCoverRequest : Type := {
  ac_artist_id : string;
  ac_album_id : string;
  ac_url : string;
  ac_filename : string
}.

(** [Artist()] and [Album()]. *)
Definition noArtist : Artist := {| artist_id := ""; artist := "" |}.

Definition noAlbum : Album :=
  {| album_id := ""; album := ""; cover_url := ""; album_explicit := false |}.

Inductive Signal : Type :=
| Results (id : Z) (songs : SongMap) (error : string)
| UpdateStatus (id : Z) (text : string)
| ProgressSetMaximum (id : Z) (max : Z)
| UpdateProgress (id : Z) (progress : Z).

(** The lambdas connected to [QNetworkReply::finished], with what they
    capture. *)
Inductive Slot : Type :=
| ArtistsReplySlot (limit offset : Z)
| AlbumsReplySlot (limit offset : Z)
| SongsReplySlot (limit offset : Z)
| ArtistAlbumsReplySlot (artist : Artist) (offset : Z)
| AlbumSongsReplySlot (artist : Artist) (album : Album) (offset : Z)
| AlbumCoverSlot (album_id url filename : string).

(** What the crawl uses of the rest of the application:
    [app_->album_cover_loader()->CoverFilePath] for a song, and the removal
    of the matches of [Song::kTitleRemoveMisc] from a title. *)
Record Application : Type := {
  CoverFilePath : Song.Song → string;
  removeTitleMisc : string → string
}.

(** The members of [SpotifyRequest].  [connections] are the connections from
    the replies in flight to this object. *)
Record SpotifyRequest : Type := {
  service_ : Service.SpotifyService;
  app_ : Application;
  network_ : NetworkAccessManager;
  connections : list (nat * Slot);
  type_ : QueryType;
  fetchalbums_ : bool;
  query_id_ : Z;
  search_text_ : string;
  finished_ : bool;
  artists_requests_queue_ : list Request;
  albums_requests_queue_ : list Request;
  songs_requests_queue_ : list Request;
  artist_albums_requests_queue_ : list ArtistAlbumsRequest;
  album_songs_requests_queue_ : list AlbumSongsRequest;
  album_cover_requests_queue_ : list AlbumCoverRequest;
  artist_albums_requests_pending_ : gmap string ArtistAlbumsRequest;
  album_songs_requests_pending_ : gmap string AlbumSongsRequest;
  album_covers_requests_sent_ : gmap string (list string);
  artists_requests_active_ : Z;
  artists_total_ : Z;
  artists_received_ : Z;
  albums_requests_active_ : Z;
  songs_requests_active_ : Z;
  artist_albums_requests_active_ : Z;
  artist_albums_requested_ : Z;
  artist_albums_received_ : Z;
  album_songs_requests_active_ : Z;
  album_songs_requested_ : Z;
  album_songs_received_ : Z;
  album_covers_requests_active_ : Z;
  album_covers_requested_ : Z;
  album_covers_received_ : Z;
  songs_ : SongMap;
  errors_ : list string;
  no_results_ : bool;
  replies_ : list nat;
  album_cover_replies_ : list nat;
  emitted : list Signal
}.

Definition set_service_ (v : Service.SpotifyService) (s : SpotifyRequest) :
SpotifyRequest :=
{| service_ := v; app_ := app_ s; network_ := network_ s; connections :=
     connections s; type_ := type_ s; fetchalbums_ := fetchalbums_ s;
     query_id_ := query_id_ s; search_text_ := search_text_ s; finished_ :=
     finished_ s; artists_requests_queue_ := artists_requests_queue_ s;
     albums_requests_queue_ := albums_requests_queue_ s; songs_requests_queue_
     := songs_requests_queue_ s; artist_albums_requests_queue_ :=
     artist_albums_requests_queue_ s; album_songs_requests_queue_ :=
     album_songs_requests_queue_ s; album_cover_requests_queue_ :=
     album_cover_requests_queue_ s; artist_albums_requests_pending_ :=
     artist_albums_requests_pending_ s; album_songs_requests_pending_ :=
     album_songs_requests_pending_ s; album_covers_requests_sent_ :=
     album_covers_requests_sent_ s; artists_requests_active_ :=
     artists_requests_active_ s; artists_total_ := artists_total_ s;
     artists_received_ := artists_received_ s; albums_requests_active_ :=
     albums_requests_active_ s; songs_requests_active_ :=
     songs_requests_active_ s; artist_albums_requests_active_ :=
     artist_albums_requests_active_ s; artist_albums_requested_ :=
     artist_albums_requested_ s; artist_albums_received_ :=
     artist_albums_received_ s; album_songs_requests_active_ :=
     album_songs_requests_active_ s; album_songs_requested_ :=
     album_songs_requested_ s; album_songs_received_ := album_songs_received_
     s; album_covers_requests_active_ := album_covers_requests_active_ s;
     album_covers_requested_ := album_covers_requested_ s;
     album_covers_received_ := album_covers_received_ s; songs_ := songs_ s;
     errors_ := errors_ s; no_results_ := no_results_ s; replies_ := replies_
     s; album_cover_replies_ := album_cover_replies_ s; emitted := emitted s
     |}.

Definition set_network_ (v : NetworkAccessManager) (s : SpotifyRequest) :
SpotifyRequest :=
{| service_ := service_ s; app_ := app_ s; network_ := v; connections :=
     connections s; type_ := type_ s; fetchalbums_ := fetchalbums_ s;
     query_id_ := query_id_ s; search_text_ := search_text_ s; finished_ :=
     finished_ s; artists_requests_queue_ := artists_requests_queue_ s;
     albums_requests_queue_ := albums_requests_queue_ s; songs_requests_queue_
     := songs_requests_queue_ s; artist_albums_requests_queue_ :=
     artist_albums_requests_queue_ s; album_songs_requests_queue_ :=
     album_songs_requests_queue_ s; album_cover_requests_queue_ :=
     album_cover_requests_queue_ s; artist_albums_requests_pending_ :=
     artist_albums_requests_pending_ s; album_songs_requests_pending_ :=
     album_songs_requests_pending_ s; album_covers_requests_sent_ :=
     album_covers_requests_sent_ s; artists_requests_active_ :=
     artists_requests_active_ s; artists_total_ := artists_total_ s;
     artists_received_ := artists_received_ s; albums_requests_active_ :=
     albums_requests_active_ s; songs_requests_active_ :=
     songs_requests_active_ s; artist_albums_requests_active_ :=
     artist_albums_requests_active_ s; artist_albums_requested_ :=
     artist_albums_requested_ s; artist_albums_received_ :=
     artist_albums_received_ s; album_songs_requests_active_ :=
     album_songs_requests_active_ s; album_songs_requested_ :=
     album_songs_requested_ s; album_songs_received_ := album_songs_received_
     s; album_covers_requests_active_ := album_covers_requests_active_ s;
     album_covers_requested_ := album_covers_requested_ s;
     album_covers_received_ := album_covers_received_ s; songs_ := songs_ s;
     errors_ := errors_ s; no_results_ := no_results_ s; replies_ := replies_
     s; album_cover_replies_ := album_cover_replies_ s; emitted := emitted s
     |}.

Definition set_connections (v : list (nat * Slot)) (s : SpotifyRequest) :
SpotifyRequest :=
{| service_ := service_ s; app_ := app_ s; network_ := network_ s; connections
     := v; type_ := type_ s; fetchalbums_ := fetchalbums_ s; query_id_ :=
     query_id_ s; search_text_ := search_text_ s; finished_ := finished_ s;
     artists_requests_queue_ := artists_requests_queue_ s;
     albums_requests_queue_ := albums_requests_queue_ s; songs_requests_queue_
     := songs_requests_queue_ s; artist_albums_requests_queue_ :=
     artist_albums_requests_queue_ s; album_songs_requests_queue_ :=
     album_songs_requests_queue_ s; album_cover_requests_queue_ :=
     album_cover_requests_queue_ s; artist_albums_requests_pending_ :=
     artist_albums_requests_pending_ s; album_songs_requests_pending_ :=
     album_songs_requests_pending_ s; album_covers_requests_sent_ :=
     album_covers_requests_sent_ s; artists_requests_active_ :=
     artists_requests_active_ s; artists_total_ := artists_total_ s;
     artists_received_ := artists_received_ s; albums_requests_active_ :=
     albums_requests_active_ s; songs_requests_active_ :=
     songs_requests_active_ s; artist_albums_requests_active_ :=
     artist_albums_requests_active_ s; artist_albums_requested_ :=
     artist_albums_requested_ s; artist_albums_received_ :=
     artist_albums_received_ s; album_songs_requests_active_ :=
     album_songs_requests_active_ s; album_songs_requested_ :=
     album_songs_requested_ s; album_songs_received_ := album_songs_received_
     s; album_covers_requests_active_ := album_covers_requests_active_ s;
     album_covers_requested_ := album_covers_requested_ s;
     album_covers_received_ := album_covers_received_ s; songs_ := songs_ s;
     errors_ := errors_ s; no_results_ := no_results_ s; replies_ := replies_
     s; album_cover_replies_ := album_cover_replies_ s; emitted := emitted s
     |}.

Definition set_query_id_ (v : Z) (s : SpotifyRequest) : SpotifyRequest :=
{| service_ := service_ s; app_ := app_ s; network_ := network_ s; connections
     := connections s; type_ := type_ s; fetchalbums_ := fetchalbums_ s;
     query_id_ := v; search_text_ := search_text_ s; finished_ := finished_ s;
     artists_requests_queue_ := artists_requests_queue_ s;
     albums_requests_queue_ := albums_requests_queue_ s; songs_requests_queue_
     := songs_requests_queue_ s; artist_albums_requests_queue_ :=
     artist_albums_requests_queue_ s; album_songs_requests_queue_ :=
     album_songs_requests_queue_ s; album_cover_requests_queue_ :=
     album_cover_requests_queue_ s; artist_albums_requests_pending_ :=
     artist_albums_requests_pending_ s; album_songs_requests_pending_ :=
     album_songs_requests_pending_ s; album_covers_requests_sent_ :=
     album_covers_requests_sent_ s; artists_requests_active_ :=
     artists_requests_active_ s; artists_total_ := artists_total_ s;
     artists_received_ := artists_received_ s; albums_requests_active_ :=
     albums_requests_active_ s; songs_requests_active_ :=
     songs_requests_active_ s; artist_albums_requests_active_ :=
     artist_albums_requests_active_ s; artist_albums_requested_ :=
     artist_albums_requested_ s; artist_albums_received_ :=
     artist_albums_received_ s; album_songs_requests_active_ :=
     album_songs_requests_active_ s; album_songs_requested_ :=
     album_songs_requested_ s; album_songs_received_ := album_songs_received_
     s; album_covers_requests_active_ := album_covers_requests_active_ s;
     album_covers_requested_ := album_covers_requested_ s;
     album_covers_received_ := album_covers_received_ s; songs_ := songs_ s;
     errors_ := errors_ s; no_results_ := no_results_ s; replies_ := replies_
     s; album_cover_replies_ := album_cover_replies_ s; emitted := emitted s
     |}.

Definition set_search_text_ (v : string) (s : SpotifyRequest) : SpotifyRequest :=
{| service_ := service_ s; app_ := app_ s; network_ := network_ s; connections
     := connections s; type_ := type_ s; fetchalbums_ := fetchalbums_ s;
     query_id_ := query_id_ s; search_text_ := v; finished_ := finished_ s;
     artists_requests_queue_ := artists_requests_queue_ s;
     albums_requests_queue_ := albums_requests_queue_ s; songs_requests_queue_
     := songs_requests_queue_ s; artist_albums_requests_queue_ :=
     artist_albums_requests_queue_ s; album_songs_requests_queue_ :=
     album_songs_requests_queue_ s; album_cover_requests_queue_ :=
     album_cover_requests_queue_ s; artist_albums_requests_pending_ :=
     artist_albums_requests_pending_ s; album_songs_requests_pending_ :=
     album_songs_requests_pending_ s; album_covers_requests_sent_ :=
     album_covers_requests_sent_ s; artists_requests_active_ :=
     artists_requests_active_ s; artists_total_ := artists_total_ s;
     artists_received_ := artists_received_ s; albums_requests_active_ :=
     albums_requests_active_ s; songs_requests_active_ :=
     songs_requests_active_ s; artist_albums_requests_active_ :=
     artist_albums_requests_active_ s; artist_albums_requested_ :=
     artist_albums_requested_ s; artist_albums_received_ :=
     artist_albums_received_ s; album_songs_requests_active_ :=
     album_songs_requests_active_ s; album_songs_requested_ :=
     album_songs_requested_ s; album_songs_received_ := album_songs_received_
     s; album_covers_requests_active_ := album_covers_requests_active_ s;
     album_covers_requested_ := album_covers_requested_ s;
     album_covers_received_ := album_covers_received_ s; songs_ := songs_ s;
     errors_ := errors_ s; no_results_ := no_results_ s; replies_ := replies_
     s; album_cover_replies_ := album_cover_replies_ s; emitted := emitted s
     |}.

Definition set_finished_ (v : bool) (s : SpotifyRequest) : SpotifyRequest :=
{| service_ := service_ s; app_ := app_ s; network_ := network_ s; connections
     := connections s; type_ := type_ s; fetchalbums_ := fetchalbums_ s;
     query_id_ := query_id_ s; search_text_ := search_text_ s; finished_ := v;
     artists_requests_queue_ := artists_requests_queue_ s;
     albums_requests_queue_ := albums_requests_queue_ s; songs_requests_queue_
     := songs_requests_queue_ s; artist_albums_requests_queue_ :=
     artist_albums_requests_queue_ s; album_songs_requests_queue_ :=
     album_songs_requests_queue_ s; album_cover_requests_queue_ :=
     album_cover_requests_queue_ s; artist_albums_requests_pending_ :=
     artist_albums_requests_pending_ s; album_songs_requests_pending_ :=
     album_songs_requests_pending_ s; album_covers_requests_sent_ :=
     album_covers_requests_sent_ s; artists_requests_active_ :=
     artists_requests_active_ s; artists_total_ := artists_total_ s;
     artists_received_ := artists_received_ s; albums_requests_active_ :=
     albums_requests_active_ s; songs_requests_active_ :=
     songs_requests_active_ s; artist_albums_requests_active_ :=
     artist_albums_requests_active_ s; artist_albums_requested_ :=
     artist_albums_requested_ s; artist_albums_received_ :=
     artist_albums_received_ s; album_songs_requests_active_ :=
     album_songs_requests_active_ s; album_songs_requested_ :=
     album_songs_requested_ s; album_songs_received_ := album_songs_received_
     s; album_covers_requests_active_ := album_covers_requests_active_ s;
     album_covers_requested_ := album_covers_requested_ s;
     album_covers_received_ := album_covers_received_ s; songs_ := songs_ s;
     errors_ := errors_ s; no_results_ := no_results_ s; replies_ := replies_
     s; album_cover_replies_ := album_cover_replies_ s; emitted := emitted s
     |}.

Definition set_artists_requests_queue_ (v : list Request) (s : SpotifyRequest)
: SpotifyRequest :=
{| service_ := service_ s; app_ := app_ s; network_ := network_ s; connections
     := connections s; type_ := type_ s; fetchalbums_ := fetchalbums_ s;
     query_id_ := query_id_ s; search_text_ := search_text_ s; finished_ :=
     finished_ s; artists_requests_queue_ := v; albums_requests_queue_ :=
     albums_requests_queue_ s; songs_requests_queue_ := songs_requests_queue_
     s; artist_albums_requests_queue_ := artist_albums_requests_queue_ s;
     album_songs_requests_queue_ := album_songs_requests_queue_ s;
     album_cover_requests_queue_ := album_cover_requests_queue_ s;
     artist_albums_requests_pending_ := artist_albums_requests_pending_ s;
     album_songs_requests_pending_ := album_songs_requests_pending_ s;
     album_covers_requests_sent_ := album_covers_requests_sent_ s;
     artists_requests_active_ := artists_requests_active_ s; artists_total_ :=
     artists_total_ s; artists_received_ := artists_received_ s;
     albums_requests_active_ := albums_requests_active_ s;
     songs_requests_active_ := songs_requests_active_ s;
     artist_albums_requests_active_ := artist_albums_requests_active_ s;
     artist_albums_requested_ := artist_albums_requested_ s;
     artist_albums_received_ := artist_albums_received_ s;
     album_songs_requests_active_ := album_songs_requests_active_ s;
     album_songs_requested_ := album_songs_requested_ s; album_songs_received_
     := album_songs_received_ s; album_covers_requests_active_ :=
     album_covers_requests_active_ s; album_covers_requested_ :=
     album_covers_requested_ s; album_covers_received_ :=
     album_covers_received_ s; songs_ := songs_ s; errors_ := errors_ s;
     no_results_ := no_results_ s; replies_ := replies_ s;
     album_cover_replies_ := album_cover_replies_ s; emitted := emitted s |}.

Definition set_albums_requests_queue_ (v : list Request) (s : SpotifyRequest)
: SpotifyRequest :=
{| service_ := service_ s; app_ := app_ s; network_ := network_ s; connections
     := connections s; type_ := type_ s; fetchalbums_ := fetchalbums_ s;
     query_id_ := query_id_ s; search_text_ := search_text_ s; finished_ :=
     finished_ s; artists_requests_queue_ := artists_requests_queue_ s;
     albums_requests_queue_ := v; songs_requests_queue_ :=
     songs_requests_queue_ s; artist_albums_requests_queue_ :=
     artist_albums_requests_queue_ s; album_songs_requests_queue_ :=
     album_songs_requests_queue_ s; album_cover_requests_queue_ :=
     album_cover_requests_queue_ s; artist_albums_requests_pending_ :=
     artist_albums_requests_pending_ s; album_songs_requests_pending_ :=
     album_songs_requests_pending_ s; album_covers_requests_sent_ :=
     album_covers_requests_sent_ s; artists_requests_active_ :=
     artists_requests_active_ s; artists_total_ := artists_total_ s;
     artists_received_ := artists_received_ s; albums_requests_active_ :=
     albums_requests_active_ s; songs_requests_active_ :=
     songs_requests_active_ s; artist_albums_requests_active_ :=
     artist_albums_requests_active_ s; artist_albums_requested_ :=
     artist_albums_requested_ s; artist_albums_received_ :=
     artist_albums_received_ s; album_songs_requests_active_ :=
     album_songs_requests_active_ s; album_songs_requested_ :=
     album_songs_requested_ s; album_songs_received_ := album_songs_received_
     s; album_covers_requests_active_ := album_covers_requests_active_ s;
     album_covers_requested_ := album_covers_requested_ s;
     album_covers_received_ := album_covers_received_ s; songs_ := songs_ s;
     errors_ := errors_ s; no_results_ := no_results_ s; replies_ := replies_
     s; album_cover_replies_ := album_cover_replies_ s; emitted := emitted s
     |}.

Definition set_songs_requests_queue_ (v : list Request) (s : SpotifyRequest) :
SpotifyRequest :=
{| service_ := service_ s; app_ := app_ s; network_ := network_ s; connections
     := connections s; type_ := type_ s; fetchalbums_ := fetchalbums_ s;
     query_id_ := query_id_ s; search_text_ := search_text_ s; finished_ :=
     finished_ s; artists_requests_queue_ := artists_requests_queue_ s;
     albums_requests_queue_ := albums_requests_queue_ s; songs_requests_queue_
     := v; artist_albums_requests_queue_ := artist_albums_requests_queue_ s;
     album_songs_requests_queue_ := album_songs_requests_queue_ s;
     album_cover_requests_queue_ := album_cover_requests_queue_ s;
     artist_albums_requests_pending_ := artist_albums_requests_pending_ s;
     album_songs_requests_pending_ := album_songs_requests_pending_ s;
     album_covers_requests_sent_ := album_covers_requests_sent_ s;
     artists_requests_active_ := artists_requests_active_ s; artists_total_ :=
     artists_total_ s; artists_received_ := artists_received_ s;
     albums_requests_active_ := albums_requests_active_ s;
     songs_requests_active_ := songs_requests_active_ s;
     artist_albums_requests_active_ := artist_albums_requests_active_ s;
     artist_albums_requested_ := artist_albums_requested_ s;
     artist_albums_received_ := artist_albums_received_ s;
     album_songs_requests_active_ := album_songs_requests_active_ s;
     album_songs_requested_ := album_songs_requested_ s; album_songs_received_
     := album_songs_received_ s; album_covers_requests_active_ :=
     album_covers_requests_active_ s; album_covers_requested_ :=
     album_covers_requested_ s; album_covers_received_ :=
     album_covers_received_ s; songs_ := songs_ s; errors_ := errors_ s;
     no_results_ := no_results_ s; replies_ := replies_ s;
     album_cover_replies_ := album_cover_replies_ s; emitted := emitted s |}.

Definition set_artist_albums_requests_queue_ (v : list ArtistAlbumsRequest) (s
: SpotifyRequest) : SpotifyRequest :=
{| service_ := service_ s; app_ := app_ s; network_ := network_ s; connections
     := connections s; type_ := type_ s; fetchalbums_ := fetchalbums_ s;
     query_id_ := query_id_ s; search_text_ := search_text_ s; finished_ :=
     finished_ s; artists_requests_queue_ := artists_requests_queue_ s;
     albums_requests_queue_ := albums_requests_queue_ s; songs_requests_queue_
     := songs_requests_queue_ s; artist_albums_requests_queue_ := v;
     album_songs_requests_queue_ := album_songs_requests_queue_ s;
     album_cover_requests_queue_ := album_cover_requests_queue_ s;
     artist_albums_requests_pending_ := artist_albums_requests_pending_ s;
     album_songs_requests_pending_ := album_songs_requests_pending_ s;
     album_covers_requests_sent_ := album_covers_requests_sent_ s;
     artists_requests_active_ := artists_requests_active_ s; artists_total_ :=
     artists_total_ s; artists_received_ := artists_received_ s;
     albums_requests_active_ := albums_requests_active_ s;
     songs_requests_active_ := songs_requests_active_ s;
     artist_albums_requests_active_ := artist_albums_requests_active_ s;
     artist_albums_requested_ := artist_albums_requested_ s;
     artist_albums_received_ := artist_albums_received_ s;
     album_songs_requests_active_ := album_songs_requests_active_ s;
     album_songs_requested_ := album_songs_requested_ s; album_songs_received_
     := album_songs_received_ s; album_covers_requests_active_ :=
     album_covers_requests_active_ s; album_covers_requested_ :=
     album_covers_requested_ s; album_covers_received_ :=
     album_covers_received_ s; songs_ := songs_ s; errors_ := errors_ s;
     no_results_ := no_results_ s; replies_ := replies_ s;
     album_cover_replies_ := album_cover_replies_ s; emitted := emitted s |}.

Definition set_album_songs_requests_queue_ (v : list AlbumSongsRequest) (s :
SpotifyRequest) : SpotifyRequest :=
{| service_ := service_ s; app_ := app_ s; network_ := network_ s; connections
     := connections s; type_ := type_ s; fetchalbums_ := fetchalbums_ s;
     query_id_ := query_id_ s; search_text_ := search_text_ s; finished_ :=
     finished_ s; artists_requests_queue_ := artists_requests_queue_ s;
     albums_requests_queue_ := albums_requests_queue_ s; songs_requests_queue_
     := songs_requests_queue_ s; artist_albums_requests_queue_ :=
     artist_albums_requests_queue_ s; album_songs_requests_queue_ := v;
     album_cover_requests_queue_ := album_cover_requests_queue_ s;
     artist_albums_requests_pending_ := artist_albums_requests_pending_ s;
     album_songs_requests_pending_ := album_songs_requests_pending_ s;
     album_covers_requests_sent_ := album_covers_requests_sent_ s;
     artists_requests_active_ := artists_requests_active_ s; artists_total_ :=
     artists_total_ s; artists_received_ := artists_received_ s;
     albums_requests_active_ := albums_requests_active_ s;
     songs_requests_active_ := songs_requests_active_ s;
     artist_albums_requests_active_ := artist_albums_requests_active_ s;
     artist_albums_requested_ := artist_albums_requested_ s;
     artist_albums_received_ := artist_albums_received_ s;
     album_songs_requests_active_ := album_songs_requests_active_ s;
     album_songs_requested_ := album_songs_requested_ s; album_songs_received_
     := album_songs_received_ s; album_covers_requests_active_ :=
     album_covers_requests_active_ s; album_covers_requested_ :=
     album_covers_requested_ s; album_covers_received_ :=
     album_covers_received_ s; songs_ := songs_ s; errors_ := errors_ s;
     no_results_ := no_results_ s; replies_ := replies_ s;
     album_cover_replies_ := album_cover_replies_ s; emitted := emitted s |}.

Definition set_album_cover_requests_queue_ (v : list AlbumCoverRequest) (s :
SpotifyRequest) : SpotifyRequest :=
{| service_ := service_ s; app_ := app_ s; network_ := network_ s; connections
     := connections s; type_ := type_ s; fetchalbums_ := fetchalbums_ s;
     query_id_ := query_id_ s; search_text_ := search_text_ s; finished_ :=
     finished_ s; artists_requests_queue_ := artists_requests_queue_ s;
     albums_requests_queue_ := albums_requests_queue_ s; songs_requests_queue_
     := songs_requests_queue_ s; artist_albums_requests_queue_ :=
     artist_albums_requests_queue_ s; album_songs_requests_queue_ :=
     album_songs_requests_queue_ s; album_cover_requests_queue_ := v;
     artist_albums_requests_pending_ := artist_albums_requests_pending_ s;
     album_songs_requests_pending_ := album_songs_requests_pending_ s;
     album_covers_requests_sent_ := album_covers_requests_sent_ s;
     artists_requests_active_ := artists_requests_active_ s; artists_total_ :=
     artists_total_ s; artists_received_ := artists_received_ s;
     albums_requests_active_ := albums_requests_active_ s;
     songs_requests_active_ := songs_requests_active_ s;
     artist_albums_requests_active_ := artist_albums_requests_active_ s;
     artist_albums_requested_ := artist_albums_requested_ s;
     artist_albums_received_ := artist_albums_received_ s;
     album_songs_requests_active_ := album_songs_requests_active_ s;
     album_songs_requested_ := album_songs_requested_ s; album_songs_received_
     := album_songs_received_ s; album_covers_requests_active_ :=
     album_covers_requests_active_ s; album_covers_requested_ :=
     album_covers_requested_ s; album_covers_received_ :=
     album_covers_received_ s; songs_ := songs_ s; errors_ := errors_ s;
     no_results_ := no_results_ s; replies_ := replies_ s;
     album_cover_replies_ := album_cover_replies_ s; emitted := emitted s |}.

Definition set_artist_albums_requests_pending_ (v : gmap string
ArtistAlbumsRequest) (s : SpotifyRequest) : SpotifyRequest :=
{| service_ := service_ s; app_ := app_ s; network_ := network_ s; connections
     := connections s; type_ := type_ s; fetchalbums_ := fetchalbums_ s;
     query_id_ := query_id_ s; search_text_ := search_text_ s; finished_ :=
     finished_ s; artists_requests_queue_ := artists_requests_queue_ s;
     albums_requests_queue_ := albums_requests_queue_ s; songs_requests_queue_
     := songs_requests_queue_ s; artist_albums_requests_queue_ :=
     artist_albums_requests_queue_ s; album_songs_requests_queue_ :=
     album_songs_requests_queue_ s; album_cover_requests_queue_ :=
     album_cover_requests_queue_ s; artist_albums_requests_pending_ := v;
     album_songs_requests_pending_ := album_songs_requests_pending_ s;
     album_covers_requests_sent_ := album_covers_requests_sent_ s;
     artists_requests_active_ := artists_requests_active_ s; artists_total_ :=
     artists_total_ s; artists_received_ := artists_received_ s;
     albums_requests_active_ := albums_requests_active_ s;
     songs_requests_active_ := songs_requests_active_ s;
     artist_albums_requests_active_ := artist_albums_requests_active_ s;
     artist_albums_requested_ := artist_albums_requested_ s;
     artist_albums_received_ := artist_albums_received_ s;
     album_songs_requests_active_ := album_songs_requests_active_ s;
     album_songs_requested_ := album_songs_requested_ s; album_songs_received_
     := album_songs_received_ s; album_covers_requests_active_ :=
     album_covers_requests_active_ s; album_covers_requested_ :=
     album_covers_requested_ s; album_covers_received_ :=
     album_covers_received_ s; songs_ := songs_ s; errors_ := errors_ s;
     no_results_ := no_results_ s; replies_ := replies_ s;
     album_cover_replies_ := album_cover_replies_ s; emitted := emitted s |}.

Definition set_album_songs_requests_pending_ (v : gmap string
AlbumSongsRequest) (s : SpotifyRequest) : SpotifyRequest :=
{| service_ := service_ s; app_ := app_ s; network_ := network_ s; connections
     := connections s; type_ := type_ s; fetchalbums_ := fetchalbums_ s;
     query_id_ := query_id_ s; search_text_ := search_text_ s; finished_ :=
     finished_ s; artists_requests_queue_ := artists_requests_queue_ s;
     albums_requests_queue_ := albums_requests_queue_ s; songs_requests_queue_
     := songs_requests_queue_ s; artist_albums_requests_queue_ :=
     artist_albums_requests_queue_ s; album_songs_requests_queue_ :=
     album_songs_requests_queue_ s; album_cover_requests_queue_ :=
     album_cover_requests_queue_ s; artist_albums_requests_pending_ :=
     artist_albums_requests_pending_ s; album_songs_requests_pending_ := v;
     album_covers_requests_sent_ := album_covers_requests_sent_ s;
     artists_requests_active_ := artists_requests_active_ s; artists_total_ :=
     artists_total_ s; artists_received_ := artists_received_ s;
     albums_requests_active_ := albums_requests_active_ s;
     songs_requests_active_ := songs_requests_active_ s;
     artist_albums_requests_active_ := artist_albums_requests_active_ s;
     artist_albums_requested_ := artist_albums_requested_ s;
     artist_albums_received_ := artist_albums_received_ s;
     album_songs_requests_active_ := album_songs_requests_active_ s;
     album_songs_requested_ := album_songs_requested_ s; album_songs_received_
     := album_songs_received_ s; album_covers_requests_active_ :=
     album_covers_requests_active_ s; album_covers_requested_ :=
     album_covers_requested_ s; album_covers_received_ :=
     album_covers_received_ s; songs_ := songs_ s; errors_ := errors_ s;
     no_results_ := no_results_ s; replies_ := replies_ s;
     album_cover_replies_ := album_cover_replies_ s; emitted := emitted s |}.

Definition set_album_covers_requests_sent_ (v : gmap string (list string)) (s
: SpotifyRequest) : SpotifyRequest :=
{| service_ := service_ s; app_ := app_ s; network_ := network_ s; connections
     := connections s; type_ := type_ s; fetchalbums_ := fetchalbums_ s;
     query_id_ := query_id_ s; search_text_ := search_text_ s; finished_ :=
     finished_ s; artists_requests_queue_ := artists_requests_queue_ s;
     albums_requests_queue_ := albums_requests_queue_ s; songs_requests_queue_
     := songs_requests_queue_ s; artist_albums_requests_queue_ :=
     artist_albums_requests_queue_ s; album_songs_requests_queue_ :=
     album_songs_requests_queue_ s; album_cover_requests_queue_ :=
     album_cover_requests_queue_ s; artist_albums_requests_pending_ :=
     artist_albums_requests_pending_ s; album_songs_requests_pending_ :=
     album_songs_requests_pending_ s; album_covers_requests_sent_ := v;
     artists_requests_active_ := artists_requests_active_ s; artists_total_ :=
     artists_total_ s; artists_received_ := artists_received_ s;
     albums_requests_active_ := albums_requests_active_ s;
     songs_requests_active_ := songs_requests_active_ s;
     artist_albums_requests_active_ := artist_albums_requests_active_ s;
     artist_albums_requested_ := artist_albums_requested_ s;
     artist_albums_received_ := artist_albums_received_ s;
     album_songs_requests_active_ := album_songs_requests_active_ s;
     album_songs_requested_ := album_songs_requested_ s; album_songs_received_
     := album_songs_received_ s; album_covers_requests_active_ :=
     album_covers_requests_active_ s; album_covers_requested_ :=
     album_covers_requested_ s; album_covers_received_ :=
     album_covers_received_ s; songs_ := songs_ s; errors_ := errors_ s;
     no_results_ := no_results_ s; replies_ := replies_ s;
     album_cover_replies_ := album_cover_replies_ s; emitted := emitted s |}.

Definition set_artists_requests_active_ (v : Z) (s : SpotifyRequest) :
SpotifyRequest :=
{| service_ := service_ s; app_ := app_ s; network_ := network_ s; connections
     := connections s; type_ := type_ s; fetchalbums_ := fetchalbums_ s;
     query_id_ := query_id_ s; search_text_ := search_text_ s; finished_ :=
     finished_ s; artists_requests_queue_ := artists_requests_queue_ s;
     albums_requests_queue_ := albums_requests_queue_ s; songs_requests_queue_
     := songs_requests_queue_ s; artist_albums_requests_queue_ :=
     artist_albums_requests_queue_ s; album_songs_requests_queue_ :=
     album_songs_requests_queue_ s; album_cover_requests_queue_ :=
     album_cover_requests_queue_ s; artist_albums_requests_pending_ :=
     artist_albums_requests_pending_ s; album_songs_requests_pending_ :=
     album_songs_requests_pending_ s; album_covers_requests_sent_ :=
     album_covers_requests_sent_ s; artists_requests_active_ := v;
     artists_total_ := artists_total_ s; artists_received_ :=
     artists_received_ s; albums_requests_active_ := albums_requests_active_
     s; songs_requests_active_ := songs_requests_active_ s;
     artist_albums_requests_active_ := artist_albums_requests_active_ s;
     artist_albums_requested_ := artist_albums_requested_ s;
     artist_albums_received_ := artist_albums_received_ s;
     album_songs_requests_active_ := album_songs_requests_active_ s;
     album_songs_requested_ := album_songs_requested_ s; album_songs_received_
     := album_songs_received_ s; album_covers_requests_active_ :=
     album_covers_requests_active_ s; album_covers_requested_ :=
     album_covers_requested_ s; album_covers_received_ :=
     album_covers_received_ s; songs_ := songs_ s; errors_ := errors_ s;
     no_results_ := no_results_ s; replies_ := replies_ s;
     album_cover_replies_ := album_cover_replies_ s; emitted := emitted s |}.

Definition set_artists_total_ (v : Z) (s : SpotifyRequest) : SpotifyRequest :=
{| service_ := service_ s; app_ := app_ s; network_ := network_ s; connections
     := connections s; type_ := type_ s; fetchalbums_ := fetchalbums_ s;
     query_id_ := query_id_ s; search_text_ := search_text_ s; finished_ :=
     finished_ s; artists_requests_queue_ := artists_requests_queue_ s;
     albums_requests_queue_ := albums_requests_queue_ s; songs_requests_queue_
     := songs_requests_queue_ s; artist_albums_requests_queue_ :=
     artist_albums_requests_queue_ s; album_songs_requests_queue_ :=
     album_songs_requests_queue_ s; album_cover_requests_queue_ :=
     album_cover_requests_queue_ s; artist_albums_requests_pending_ :=
     artist_albums_requests_pending_ s; album_songs_requests_pending_ :=
     album_songs_requests_pending_ s; album_covers_requests_sent_ :=
     album_covers_requests_sent_ s; artists_requests_active_ :=
     artists_requests_active_ s; artists_total_ := v; artists_received_ :=
     artists_received_ s; albums_requests_active_ := albums_requests_active_
     s; songs_requests_active_ := songs_requests_active_ s;
     artist_albums_requests_active_ := artist_albums_requests_active_ s;
     artist_albums_requested_ := artist_albums_requested_ s;
     artist_albums_received_ := artist_albums_received_ s;
     album_songs_requests_active_ := album_songs_requests_active_ s;
     album_songs_requested_ := album_songs_requested_ s; album_songs_received_
     := album_songs_received_ s; album_covers_requests_active_ :=
     album_covers_requests_active_ s; album_covers_requested_ :=
     album_covers_requested_ s; album_covers_received_ :=
     album_covers_received_ s; songs_ := songs_ s; errors_ := errors_ s;
     no_results_ := no_results_ s; replies_ := replies_ s;
     album_cover_replies_ := album_cover_replies_ s; emitted := emitted s |}.

Definition set_artists_received_ (v : Z) (s : SpotifyRequest) : SpotifyRequest :=
{| service_ := service_ s; app_ := app_ s; network_ := network_ s; connections
     := connections s; type_ := type_ s; fetchalbums_ := fetchalbums_ s;
     query_id_ := query_id_ s; search_text_ := search_text_ s; finished_ :=
     finished_ s; artists_requests_queue_ := artists_requests_queue_ s;
     albums_requests_queue_ := albums_requests_queue_ s; songs_requests_queue_
     := songs_requests_queue_ s; artist_albums_requests_queue_ :=
     artist_albums_requests_queue_ s; album_songs_requests_queue_ :=
     album_songs_requests_queue_ s; album_cover_requests_queue_ :=
     album_cover_requests_queue_ s; artist_albums_requests_pending_ :=
     artist_albums_requests_pending_ s; album_songs_requests_pending_ :=
     album_songs_requests_pending_ s; album_covers_requests_sent_ :=
     album_covers_requests_sent_ s; artists_requests_active_ :=
     artists_requests_active_ s; artists_total_ := artists_total_ s;
     artists_received_ := v; albums_requests_active_ :=
     albums_requests_active_ s; songs_requests_active_ :=
     songs_requests_active_ s; artist_albums_requests_active_ :=
     artist_albums_requests_active_ s; artist_albums_requested_ :=
     artist_albums_requested_ s; artist_albums_received_ :=
     artist_albums_received_ s; album_songs_requests_active_ :=
     album_songs_requests_active_ s; album_songs_requested_ :=
     album_songs_requested_ s; album_songs_received_ := album_songs_received_
     s; album_covers_requests_active_ := album_covers_requests_active_ s;
     album_covers_requested_ := album_covers_requested_ s;
     album_covers_received_ := album_covers_received_ s; songs_ := songs_ s;
     errors_ := errors_ s; no_results_ := no_results_ s; replies_ := replies_
     s; album_cover_replies_ := album_cover_replies_ s; emitted := emitted s
     |}.

Definition set_albums_requests_active_ (v : Z) (s : SpotifyRequest) :
SpotifyRequest :=
{| service_ := service_ s; app_ := app_ s; network_ := network_ s; connections
     := connections s; type_ := type_ s; fetchalbums_ := fetchalbums_ s;
     query_id_ := query_id_ s; search_text_ := search_text_ s; finished_ :=
     finished_ s; artists_requests_queue_ := artists_requests_queue_ s;
     albums_requests_queue_ := albums_requests_queue_ s; songs_requests_queue_
     := songs_requests_queue_ s; artist_albums_requests_queue_ :=
     artist_albums_requests_queue_ s; album_songs_requests_queue_ :=
     album_songs_requests_queue_ s; album_cover_requests_queue_ :=
     album_cover_requests_queue_ s; artist_albums_requests_pending_ :=
     artist_albums_requests_pending_ s; album_songs_requests_pending_ :=
     album_songs_requests_pending_ s; album_covers_requests_sent_ :=
     album_covers_requests_sent_ s; artists_requests_active_ :=
     artists_requests_active_ s; artists_total_ := artists_total_ s;
     artists_received_ := artists_received_ s; albums_requests_active_ := v;
     songs_requests_active_ := songs_requests_active_ s;
     artist_albums_requests_active_ := artist_albums_requests_active_ s;
     artist_albums_requested_ := artist_albums_requested_ s;
     artist_albums_received_ := artist_albums_received_ s;
     album_songs_requests_active_ := album_songs_requests_active_ s;
     album_songs_requested_ := album_songs_requested_ s; album_songs_received_
     := album_songs_received_ s; album_covers_requests_active_ :=
     album_covers_requests_active_ s; album_covers_requested_ :=
     album_covers_requested_ s; album_covers_received_ :=
     album_covers_received_ s; songs_ := songs_ s; errors_ := errors_ s;
     no_results_ := no_results_ s; replies_ := replies_ s;
     album_cover_replies_ := album_cover_replies_ s; emitted := emitted s |}.

Definition set_songs_requests_active_ (v : Z) (s : SpotifyRequest) :
SpotifyRequest :=
{| service_ := service_ s; app_ := app_ s; network_ := network_ s; connections
     := connections s; type_ := type_ s; fetchalbums_ := fetchalbums_ s;
     query_id_ := query_id_ s; search_text_ := search_text_ s; finished_ :=
     finished_ s; artists_requests_queue_ := artists_requests_queue_ s;
     albums_requests_queue_ := albums_requests_queue_ s; songs_requests_queue_
     := songs_requests_queue_ s; artist_albums_requests_queue_ :=
     artist_albums_requests_queue_ s; album_songs_requests_queue_ :=
     album_songs_requests_queue_ s; album_cover_requests_queue_ :=
     album_cover_requests_queue_ s; artist_albums_requests_pending_ :=
     artist_albums_requests_pending_ s; album_songs_requests_pending_ :=
     album_songs_requests_pending_ s; album_covers_requests_sent_ :=
     album_covers_requests_sent_ s; artists_requests_active_ :=
     artists_requests_active_ s; artists_total_ := artists_total_ s;
     artists_received_ := artists_received_ s; albums_requests_active_ :=
     albums_requests_active_ s; songs_requests_active_ := v;
     artist_albums_requests_active_ := artist_albums_requests_active_ s;
     artist_albums_requested_ := artist_albums_requested_ s;
     artist_albums_received_ := artist_albums_received_ s;
     album_songs_requests_active_ := album_songs_requests_active_ s;
     album_songs_requested_ := album_songs_requested_ s; album_songs_received_
     := album_songs_received_ s; album_covers_requests_active_ :=
     album_covers_requests_active_ s; album_covers_requested_ :=
     album_covers_requested_ s; album_covers_received_ :=
     album_covers_received_ s; songs_ := songs_ s; errors_ := errors_ s;
     no_results_ := no_results_ s; replies_ := replies_ s;
     album_cover_replies_ := album_cover_replies_ s; emitted := emitted s |}.

Definition set_artist_albums_requests_active_ (v : Z) (s : SpotifyRequest) :
SpotifyRequest :=
{| service_ := service_ s; app_ := app_ s; network_ := network_ s; connections
     := connections s; type_ := type_ s; fetchalbums_ := fetchalbums_ s;
     query_id_ := query_id_ s; search_text_ := search_text_ s; finished_ :=
     finished_ s; artists_requests_queue_ := artists_requests_queue_ s;
     albums_requests_queue_ := albums_requests_queue_ s; songs_requests_queue_
     := songs_requests_queue_ s; artist_albums_requests_queue_ :=
     artist_albums_requests_queue_ s; album_songs_requests_queue_ :=
     album_songs_requests_queue_ s; album_cover_requests_queue_ :=
     album_cover_requests_queue_ s; artist_albums_requests_pending_ :=
     artist_albums_requests_pending_ s; album_songs_requests_pending_ :=
     album_songs_requests_pending_ s; album_covers_requests_sent_ :=
     album_covers_requests_sent_ s; artists_requests_active_ :=
     artists_requests_active_ s; artists_total_ := artists_total_ s;
     artists_received_ := artists_received_ s; albums_requests_active_ :=
     albums_requests_active_ s; songs_requests_active_ :=
     songs_requests_active_ s; artist_albums_requests_active_ := v;
     artist_albums_requested_ := artist_albums_requested_ s;
     artist_albums_received_ := artist_albums_received_ s;
     album_songs_requests_active_ := album_songs_requests_active_ s;
     album_songs_requested_ := album_songs_requested_ s; album_songs_received_
     := album_songs_received_ s; album_covers_requests_active_ :=
     album_covers_requests_active_ s; album_covers_requested_ :=
     album_covers_requested_ s; album_covers_received_ :=
     album_covers_received_ s; songs_ := songs_ s; errors_ := errors_ s;
     no_results_ := no_results_ s; replies_ := replies_ s;
     album_cover_replies_ := album_cover_replies_ s; emitted := emitted s |}.

Definition set_artist_albums_requested_ (v : Z) (s : SpotifyRequest) :
SpotifyRequest :=
{| service_ := service_ s; app_ := app_ s; network_ := network_ s; connections
     := connections s; type_ := type_ s; fetchalbums_ := fetchalbums_ s;
     query_id_ := query_id_ s; search_text_ := search_text_ s; finished_ :=
     finished_ s; artists_requests_queue_ := artists_requests_queue_ s;
     albums_requests_queue_ := albums_requests_queue_ s; songs_requests_queue_
     := songs_requests_queue_ s; artist_albums_requests_queue_ :=
     artist_albums_requests_queue_ s; album_songs_requests_queue_ :=
     album_songs_requests_queue_ s; album_cover_requests_queue_ :=
     album_cover_requests_queue_ s; artist_albums_requests_pending_ :=
     artist_albums_requests_pending_ s; album_songs_requests_pending_ :=
     album_songs_requests_pending_ s; album_covers_requests_sent_ :=
     album_covers_requests_sent_ s; artists_requests_active_ :=
     artists_requests_active_ s; artists_total_ := artists_total_ s;
     artists_received_ := artists_received_ s; albums_requests_active_ :=
     albums_requests_active_ s; songs_requests_active_ :=
     songs_requests_active_ s; artist_albums_requests_active_ :=
     artist_albums_requests_active_ s; artist_albums_requested_ := v;
     artist_albums_received_ := artist_albums_received_ s;
     album_songs_requests_active_ := album_songs_requests_active_ s;
     album_songs_requested_ := album_songs_requested_ s; album_songs_received_
     := album_songs_received_ s; album_covers_requests_active_ :=
     album_covers_requests_active_ s; album_covers_requested_ :=
     album_covers_requested_ s; album_covers_received_ :=
     album_covers_received_ s; songs_ := songs_ s; errors_ := errors_ s;
     no_results_ := no_results_ s; replies_ := replies_ s;
     album_cover_replies_ := album_cover_replies_ s; emitted := emitted s |}.

Definition set_artist_albums_received_ (v : Z) (s : SpotifyRequest) :
SpotifyRequest :=
{| service_ := service_ s; app_ := app_ s; network_ := network_ s; connections
     := connections s; type_ := type_ s; fetchalbums_ := fetchalbums_ s;
     query_id_ := query_id_ s; search_text_ := search_text_ s; finished_ :=
     finished_ s; artists_requests_queue_ := artists_requests_queue_ s;
     albums_requests_queue_ := albums_requests_queue_ s; songs_requests_queue_
     := songs_requests_queue_ s; artist_albums_requests_queue_ :=
     artist_albums_requests_queue_ s; album_songs_requests_queue_ :=
     album_songs_requests_queue_ s; album_cover_requests_queue_ :=
     album_cover_requests_queue_ s; artist_albums_requests_pending_ :=
     artist_albums_requests_pending_ s; album_songs_requests_pending_ :=
     album_songs_requests_pending_ s; album_covers_requests_sent_ :=
     album_covers_requests_sent_ s; artists_requests_active_ :=
     artists_requests_active_ s; artists_total_ := artists_total_ s;
     artists_received_ := artists_received_ s; albums_requests_active_ :=
     albums_requests_active_ s; songs_requests_active_ :=
     songs_requests_active_ s; artist_albums_requests_active_ :=
     artist_albums_requests_active_ s; artist_albums_requested_ :=
     artist_albums_requested_ s; artist_albums_received_ := v;
     album_songs_requests_active_ := album_songs_requests_active_ s;
     album_songs_requested_ := album_songs_requested_ s; album_songs_received_
     := album_songs_received_ s; album_covers_requests_active_ :=
     album_covers_requests_active_ s; album_covers_requested_ :=
     album_covers_requested_ s; album_covers_received_ :=
     album_covers_received_ s; songs_ := songs_ s; errors_ := errors_ s;
     no_results_ := no_results_ s; replies_ := replies_ s;
     album_cover_replies_ := album_cover_replies_ s; emitted := emitted s |}.

Definition set_album_songs_requests_active_ (v : Z) (s : SpotifyRequest) :
SpotifyRequest :=
{| service_ := service_ s; app_ := app_ s; network_ := network_ s; connections
     := connections s; type_ := type_ s; fetchalbums_ := fetchalbums_ s;
     query_id_ := query_id_ s; search_text_ := search_text_ s; finished_ :=
     finished_ s; artists_requests_queue_ := artists_requests_queue_ s;
     albums_requests_queue_ := albums_requests_queue_ s; songs_requests_queue_
     := songs_requests_queue_ s; artist_albums_requests_queue_ :=
     artist_albums_requests_queue_ s; album_songs_requests_queue_ :=
     album_songs_requests_queue_ s; album_cover_requests_queue_ :=
     album_cover_requests_queue_ s; artist_albums_requests_pending_ :=
     artist_albums_requests_pending_ s; album_songs_requests_pending_ :=
     album_songs_requests_pending_ s; album_covers_requests_sent_ :=
     album_covers_requests_sent_ s; artists_requests_active_ :=
     artists_requests_active_ s; artists_total_ := artists_total_ s;
     artists_received_ := artists_received_ s; albums_requests_active_ :=
     albums_requests_active_ s; songs_requests_active_ :=
     songs_requests_active_ s; artist_albums_requests_active_ :=
     artist_albums_requests_active_ s; artist_albums_requested_ :=
     artist_albums_requested_ s; artist_albums_received_ :=
     artist_albums_received_ s; album_songs_requests_active_ := v;
     album_songs_requested_ := album_songs_requested_ s; album_songs_received_
     := album_songs_received_ s; album_covers_requests_active_ :=
     album_covers_requests_active_ s; album_covers_requested_ :=
     album_covers_requested_ s; album_covers_received_ :=
     album_covers_received_ s; songs_ := songs_ s; errors_ := errors_ s;
     no_results_ := no_results_ s; replies_ := replies_ s;
     album_cover_replies_ := album_cover_replies_ s; emitted := emitted s |}.

Definition set_album_songs_requested_ (v : Z) (s : SpotifyRequest) :
SpotifyRequest :=
{| service_ := service_ s; app_ := app_ s; network_ := network_ s; connections
     := connections s; type_ := type_ s; fetchalbums_ := fetchalbums_ s;
     query_id_ := query_id_ s; search_text_ := search_text_ s; finished_ :=
     finished_ s; artists_requests_queue_ := artists_requests_queue_ s;
     albums_requests_queue_ := albums_requests_queue_ s; songs_requests_queue_
     := songs_requests_queue_ s; artist_albums_requests_queue_ :=
     artist_albums_requests_queue_ s; album_songs_requests_queue_ :=
     album_songs_requests_queue_ s; album_cover_requests_queue_ :=
     album_cover_requests_queue_ s; artist_albums_requests_pending_ :=
     artist_albums_requests_pending_ s; album_songs_requests_pending_ :=
     album_songs_requests_pending_ s; album_covers_requests_sent_ :=
     album_covers_requests_sent_ s; artists_requests_active_ :=
     artists_requests_active_ s; artists_total_ := artists_total_ s;
     artists_received_ := artists_received_ s; albums_requests_active_ :=
     albums_requests_active_ s; songs_requests_active_ :=
     songs_requests_active_ s; artist_albums_requests_active_ :=
     artist_albums_requests_active_ s; artist_albums_requested_ :=
     artist_albums_requested_ s; artist_albums_received_ :=
     artist_albums_received_ s; album_songs_requests_active_ :=
     album_songs_requests_active_ s; album_songs_requested_ := v;
     album_songs_received_ := album_songs_received_ s;
     album_covers_requests_active_ := album_covers_requests_active_ s;
     album_covers_requested_ := album_covers_requested_ s;
     album_covers_received_ := album_covers_received_ s; songs_ := songs_ s;
     errors_ := errors_ s; no_results_ := no_results_ s; replies_ := replies_
     s; album_cover_replies_ := album_cover_replies_ s; emitted := emitted s
     |}.

Definition set_album_songs_received_ (v : Z) (s : SpotifyRequest) :
SpotifyRequest :=
{| service_ := service_ s; app_ := app_ s; network_ := network_ s; connections
     := connections s; type_ := type_ s; fetchalbums_ := fetchalbums_ s;
     query_id_ := query_id_ s; search_text_ := search_text_ s; finished_ :=
     finished_ s; artists_requests_queue_ := artists_requests_queue_ s;
     albums_requests_queue_ := albums_requests_queue_ s; songs_requests_queue_
     := songs_requests_queue_ s; artist_albums_requests_queue_ :=
     artist_albums_requests_queue_ s; album_songs_requests_queue_ :=
     album_songs_requests_queue_ s; album_cover_requests_queue_ :=
     album_cover_requests_queue_ s; artist_albums_requests_pending_ :=
     artist_albums_requests_pending_ s; album_songs_requests_pending_ :=
     album_songs_requests_pending_ s; album_covers_requests_sent_ :=
     album_covers_requests_sent_ s; artists_requests_active_ :=
     artists_requests_active_ s; artists_total_ := artists_total_ s;
     artists_received_ := artists_received_ s; albums_requests_active_ :=
     albums_requests_active_ s; songs_requests_active_ :=
     songs_requests_active_ s; artist_albums_requests_active_ :=
     artist_albums_requests_active_ s; artist_albums_requested_ :=
     artist_albums_requested_ s; artist_albums_received_ :=
     artist_albums_received_ s; album_songs_requests_active_ :=
     album_songs_requests_active_ s; album_songs_requested_ :=
     album_songs_requested_ s; album_songs_received_ := v;
     album_covers_requests_active_ := album_covers_requests_active_ s;
     album_covers_requested_ := album_covers_requested_ s;
     album_covers_received_ := album_covers_received_ s; songs_ := songs_ s;
     errors_ := errors_ s; no_results_ := no_results_ s; replies_ := replies_
     s; album_cover_replies_ := album_cover_replies_ s; emitted := emitted s
     |}.

Definition set_album_covers_requests_active_ (v : Z) (s : SpotifyRequest) :
SpotifyRequest :=
{| service_ := service_ s; app_ := app_ s; network_ := network_ s; connections
     := connections s; type_ := type_ s; fetchalbums_ := fetchalbums_ s;
     query_id_ := query_id_ s; search_text_ := search_text_ s; finished_ :=
     finished_ s; artists_requests_queue_ := artists_requests_queue_ s;
     albums_requests_queue_ := albums_requests_queue_ s; songs_requests_queue_
     := songs_requests_queue_ s; artist_albums_requests_queue_ :=
     artist_albums_requests_queue_ s; album_songs_requests_queue_ :=
     album_songs_requests_queue_ s; album_cover_requests_queue_ :=
     album_cover_requests_queue_ s; artist_albums_requests_pending_ :=
     artist_albums_requests_pending_ s; album_songs_requests_pending_ :=
     album_songs_requests_pending_ s; album_covers_requests_sent_ :=
     album_covers_requests_sent_ s; artists_requests_active_ :=
     artists_requests_active_ s; artists_total_ := artists_total_ s;
     artists_received_ := artists_received_ s; albums_requests_active_ :=
     albums_requests_active_ s; songs_requests_active_ :=
     songs_requests_active_ s; artist_albums_requests_active_ :=
     artist_albums_requests_active_ s; artist_albums_requested_ :=
     artist_albums_requested_ s; artist_albums_received_ :=
     artist_albums_received_ s; album_songs_requests_active_ :=
     album_songs_requests_active_ s; album_songs_requested_ :=
     album_songs_requested_ s; album_songs_received_ := album_songs_received_
     s; album_covers_requests_active_ := v; album_covers_requested_ :=
     album_covers_requested_ s; album_covers_received_ :=
     album_covers_received_ s; songs_ := songs_ s; errors_ := errors_ s;
     no_results_ := no_results_ s; replies_ := replies_ s;
     album_cover_replies_ := album_cover_replies_ s; emitted := emitted s |}.

Definition set_album_covers_requested_ (v : Z) (s : SpotifyRequest) :
SpotifyRequest :=
{| service_ := service_ s; app_ := app_ s; network_ := network_ s; connections
     := connections s; type_ := type_ s; fetchalbums_ := fetchalbums_ s;
     query_id_ := query_id_ s; search_text_ := search_text_ s; finished_ :=
     finished_ s; artists_requests_queue_ := artists_requests_queue_ s;
     albums_requests_queue_ := albums_requests_queue_ s; songs_requests_queue_
     := songs_requests_queue_ s; artist_albums_requests_queue_ :=
     artist_albums_requests_queue_ s; album_songs_requests_queue_ :=
     album_songs_requests_queue_ s; album_cover_requests_queue_ :=
     album_cover_requests_queue_ s; artist_albums_requests_pending_ :=
     artist_albums_requests_pending_ s; album_songs_requests_pending_ :=
     album_songs_requests_pending_ s; album_covers_requests_sent_ :=
     album_covers_requests_sent_ s; artists_requests_active_ :=
     artists_requests_active_ s; artists_total_ := artists_total_ s;
     artists_received_ := artists_received_ s; albums_requests_active_ :=
     albums_requests_active_ s; songs_requests_active_ :=
     songs_requests_active_ s; artist_albums_requests_active_ :=
     artist_albums_requests_active_ s; artist_albums_requested_ :=
     artist_albums_requested_ s; artist_albums_received_ :=
     artist_albums_received_ s; album_songs_requests_active_ :=
     album_songs_requests_active_ s; album_songs_requested_ :=
     album_songs_requested_ s; album_songs_received_ := album_songs_received_
     s; album_covers_requests_active_ := album_covers_requests_active_ s;
     album_covers_requested_ := v; album_covers_received_ :=
     album_covers_received_ s; songs_ := songs_ s; errors_ := errors_ s;
     no_results_ := no_results_ s; replies_ := replies_ s;
     album_cover_replies_ := album_cover_replies_ s; emitted := emitted s |}.

Definition set_album_covers_received_ (v : Z) (s : SpotifyRequest) :
SpotifyRequest :=
{| service_ := service_ s; app_ := app_ s; network_ := network_ s; connections
     := connections s; type_ := type_ s; fetchalbums_ := fetchalbums_ s;
     query_id_ := query_id_ s; search_text_ := search_text_ s; finished_ :=
     finished_ s; artists_requests_queue_ := artists_requests_queue_ s;
     albums_requests_queue_ := albums_requests_queue_ s; songs_requests_queue_
     := songs_requests_queue_ s; artist_albums_requests_queue_ :=
     artist_albums_requests_queue_ s; album_songs_requests_queue_ :=
     album_songs_requests_queue_ s; album_cover_requests_queue_ :=
     album_cover_requests_queue_ s; artist_albums_requests_pending_ :=
     artist_albums_requests_pending_ s; album_songs_requests_pending_ :=
     album_songs_requests_pending_ s; album_covers_requests_sent_ :=
     album_covers_requests_sent_ s; artists_requests_active_ :=
     artists_requests_active_ s; artists_total_ := artists_total_ s;
     artists_received_ := artists_received_ s; albums_requests_active_ :=
     albums_requests_active_ s; songs_requests_active_ :=
     songs_requests_active_ s; artist_albums_requests_active_ :=
     artist_albums_requests_active_ s; artist_albums_requested_ :=
     artist_albums_requested_ s; artist_albums_received_ :=
     artist_albums_received_ s; album_songs_requests_active_ :=
     album_songs_requests_active_ s; album_songs_requested_ :=
     album_songs_requested_ s; album_songs_received_ := album_songs_received_
     s; album_covers_requests_active_ := album_covers_requests_active_ s;
     album_covers_requested_ := album_covers_requested_ s;
     album_covers_received_ := v; songs_ := songs_ s; errors_ := errors_ s;
     no_results_ := no_results_ s; replies_ := replies_ s;
     album_cover_replies_ := album_cover_replies_ s; emitted := emitted s |}.

Definition set_songs_ (v : SongMap) (s : SpotifyRequest) : SpotifyRequest :=
{| service_ := service_ s; app_ := app_ s; network_ := network_ s; connections
     := connections s; type_ := type_ s; fetchalbums_ := fetchalbums_ s;
     query_id_ := query_id_ s; search_text_ := search_text_ s; finished_ :=
     finished_ s; artists_requests_queue_ := artists_requests_queue_ s;
     albums_requests_queue_ := albums_requests_queue_ s; songs_requests_queue_
     := songs_requests_queue_ s; artist_albums_requests_queue_ :=
     artist_albums_requests_queue_ s; album_songs_requests_queue_ :=
     album_songs_requests_queue_ s; album_cover_requests_queue_ :=
     album_cover_requests_queue_ s; artist_albums_requests_pending_ :=
     artist_albums_requests_pending_ s; album_songs_requests_pending_ :=
     album_songs_requests_pending_ s; album_covers_requests_sent_ :=
     album_covers_requests_sent_ s; artists_requests_active_ :=
     artists_requests_active_ s; artists_total_ := artists_total_ s;
     artists_received_ := artists_received_ s; albums_requests_active_ :=
     albums_requests_active_ s; songs_requests_active_ :=
     songs_requests_active_ s; artist_albums_requests_active_ :=
     artist_albums_requests_active_ s; artist_albums_requested_ :=
     artist_albums_requested_ s; artist_albums_received_ :=
     artist_albums_received_ s; album_songs_requests_active_ :=
     album_songs_requests_active_ s; album_songs_requested_ :=
     album_songs_requested_ s; album_songs_received_ := album_songs_received_
     s; album_covers_requests_active_ := album_covers_requests_active_ s;
     album_covers_requested_ := album_covers_requested_ s;
     album_covers_received_ := album_covers_received_ s; songs_ := v; errors_
     := errors_ s; no_results_ := no_results_ s; replies_ := replies_ s;
     album_cover_replies_ := album_cover_replies_ s; emitted := emitted s |}.

Definition set_errors_ (v : list string) (s : SpotifyRequest) : SpotifyRequest :=
{| service_ := service_ s; app_ := app_ s; network_ := network_ s; connections
     := connections s; type_ := type_ s; fetchalbums_ := fetchalbums_ s;
     query_id_ := query_id_ s; search_text_ := search_text_ s; finished_ :=
     finished_ s; artists_requests_queue_ := artists_requests_queue_ s;
     albums_requests_queue_ := albums_requests_queue_ s; songs_requests_queue_
     := songs_requests_queue_ s; artist_albums_requests_queue_ :=
     artist_albums_requests_queue_ s; album_songs_requests_queue_ :=
     album_songs_requests_queue_ s; album_cover_requests_queue_ :=
     album_cover_requests_queue_ s; artist_albums_requests_pending_ :=
     artist_albums_requests_pending_ s; album_songs_requests_pending_ :=
     album_songs_requests_pending_ s; album_covers_requests_sent_ :=
     album_covers_requests_sent_ s; artists_requests_active_ :=
     artists_requests_active_ s; artists_total_ := artists_total_ s;
     artists_received_ := artists_received_ s; albums_requests_active_ :=
     albums_requests_active_ s; songs_requests_active_ :=
     songs_requests_active_ s; artist_albums_requests_active_ :=
     artist_albums_requests_active_ s; artist_albums_requested_ :=
     artist_albums_requested_ s; artist_albums_received_ :=
     artist_albums_received_ s; album_songs_requests_active_ :=
     album_songs_requests_active_ s; album_songs_requested_ :=
     album_songs_requested_ s; album_songs_received_ := album_songs_received_
     s; album_covers_requests_active_ := album_covers_requests_active_ s;
     album_covers_requested_ := album_covers_requested_ s;
     album_covers_received_ := album_covers_received_ s; songs_ := songs_ s;
     errors_ := v; no_results_ := no_results_ s; replies_ := replies_ s;
     album_cover_replies_ := album_cover_replies_ s; emitted := emitted s |}.

Definition set_no_results_ (v : bool) (s : SpotifyRequest) : SpotifyRequest :=
{| service_ := service_ s; app_ := app_ s; network_ := network_ s; connections
     := connections s; type_ := type_ s; fetchalbums_ := fetchalbums_ s;
     query_id_ := query_id_ s; search_text_ := search_text_ s; finished_ :=
     finished_ s; artists_requests_queue_ := artists_requests_queue_ s;
     albums_requests_queue_ := albums_requests_queue_ s; songs_requests_queue_
     := songs_requests_queue_ s; artist_albums_requests_queue_ :=
     artist_albums_requests_queue_ s; album_songs_requests_queue_ :=
     album_songs_requests_queue_ s; album_cover_requests_queue_ :=
     album_cover_requests_queue_ s; artist_albums_requests_pending_ :=
     artist_albums_requests_pending_ s; album_songs_requests_pending_ :=
     album_songs_requests_pending_ s; album_covers_requests_sent_ :=
     album_covers_requests_sent_ s; artists_requests_active_ :=
     artists_requests_active_ s; artists_total_ := artists_total_ s;
     artists_received_ := artists_received_ s; albums_requests_active_ :=
     albums_requests_active_ s; songs_requests_active_ :=
     songs_requests_active_ s; artist_albums_requests_active_ :=
     artist_albums_requests_active_ s; artist_albums_requested_ :=
     artist_albums_requested_ s; artist_albums_received_ :=
     artist_albums_received_ s; album_songs_requests_active_ :=
     album_songs_requests_active_ s; album_songs_requested_ :=
     album_songs_requested_ s; album_songs_received_ := album_songs_received_
     s; album_covers_requests_active_ := album_covers_requests_active_ s;
     album_covers_requested_ := album_covers_requested_ s;
     album_covers_received_ := album_covers_received_ s; songs_ := songs_ s;
     errors_ := errors_ s; no_results_ := v; replies_ := replies_ s;
     album_cover_replies_ := album_cover_replies_ s; emitted := emitted s |}.

Definition set_replies_ (v : list nat) (s : SpotifyRequest) : SpotifyRequest :=
{| service_ := service_ s; app_ := app_ s; network_ := network_ s; connections
     := connections s; type_ := type_ s; fetchalbums_ := fetchalbums_ s;
     query_id_ := query_id_ s; search_text_ := search_text_ s; finished_ :=
     finished_ s; artists_requests_queue_ := artists_requests_queue_ s;
     albums_requests_queue_ := albums_requests_queue_ s; songs_requests_queue_
     := songs_requests_queue_ s; artist_albums_requests_queue_ :=
     artist_albums_requests_queue_ s; album_songs_requests_queue_ :=
     album_songs_requests_queue_ s; album_cover_requests_queue_ :=
     album_cover_requests_queue_ s; artist_albums_requests_pending_ :=
     artist_albums_requests_pending_ s; album_songs_requests_pending_ :=
     album_songs_requests_pending_ s; album_covers_requests_sent_ :=
     album_covers_requests_sent_ s; artists_requests_active_ :=
     artists_requests_active_ s; artists_total_ := artists_total_ s;
     artists_received_ := artists_received_ s; albums_requests_active_ :=
     albums_requests_active_ s; songs_requests_active_ :=
     songs_requests_active_ s; artist_albums_requests_active_ :=
     artist_albums_requests_active_ s; artist_albums_requested_ :=
     artist_albums_requested_ s; artist_albums_received_ :=
     artist_albums_received_ s; album_songs_requests_active_ :=
     album_songs_requests_active_ s; album_songs_requested_ :=
     album_songs_requested_ s; album_songs_received_ := album_songs_received_
     s; album_covers_requests_active_ := album_covers_requests_active_ s;
     album_covers_requested_ := album_covers_requested_ s;
     album_covers_received_ := album_covers_received_ s; songs_ := songs_ s;
     errors_ := errors_ s; no_results_ := no_results_ s; replies_ := v;
     album_cover_replies_ := album_cover_replies_ s; emitted := emitted s |}.

Definition set_album_cover_replies_ (v : list nat) (s : SpotifyRequest) :
SpotifyRequest :=
{| service_ := service_ s; app_ := app_ s; network_ := network_ s; connections
     := connections s; type_ := type_ s; fetchalbums_ := fetchalbums_ s;
     query_id_ := query_id_ s; search_text_ := search_text_ s; finished_ :=
     finished_ s; artists_requests_queue_ := artists_requests_queue_ s;
     albums_requests_queue_ := albums_requests_queue_ s; songs_requests_queue_
     := songs_requests_queue_ s; artist_albums_requests_queue_ :=
     artist_albums_requests_queue_ s; album_songs_requests_queue_ :=
     album_songs_requests_queue_ s; album_cover_requests_queue_ :=
     album_cover_requests_queue_ s; artist_albums_requests_pending_ :=
     artist_albums_requests_pending_ s; album_songs_requests_pending_ :=
     album_songs_requests_pending_ s; album_covers_requests_sent_ :=
     album_covers_requests_sent_ s; artists_requests_active_ :=
     artists_requests_active_ s; artists_total_ := artists_total_ s;
     artists_received_ := artists_received_ s; albums_requests_active_ :=
     albums_requests_active_ s; songs_requests_active_ :=
     songs_requests_active_ s; artist_albums_requests_active_ :=
     artist_albums_requests_active_ s; artist_albums_requested_ :=
     artist_albums_requested_ s; artist_albums_received_ :=
     artist_albums_received_ s; album_songs_requests_active_ :=
     album_songs_requests_active_ s; album_songs_requested_ :=
     album_songs_requested_ s; album_songs_received_ := album_songs_received_
     s; album_covers_requests_active_ := album_covers_requests_active_ s;
     album_covers_requested_ := album_covers_requested_ s;
     album_covers_received_ := album_covers_received_ s; songs_ := songs_ s;
     errors_ := errors_ s; no_results_ := no_results_ s; replies_ := replies_
     s; album_cover_replies_ := v; emitted := emitted s |}.

Definition set_emitted (v : list Signal) (s : SpotifyRequest) : SpotifyRequest :=
{| service_ := service_ s; app_ := app_ s; network_ := network_ s; connections
     := connections s; type_ := type_ s; fetchalbums_ := fetchalbums_ s;
     query_id_ := query_id_ s; search_text_ := search_text_ s; finished_ :=
     finished_ s; artists_requests_queue_ := artists_requests_queue_ s;
     albums_requests_queue_ := albums_requests_queue_ s; songs_requests_queue_
     := songs_requests_queue_ s; artist_albums_requests_queue_ :=
     artist_albums_requests_queue_ s; album_songs_requests_queue_ :=
     album_songs_requests_queue_ s; album_cover_requests_queue_ :=
     album_cover_requests_queue_ s; artist_albums_requests_pending_ :=
     artist_albums_requests_pending_ s; album_songs_requests_pending_ :=
     album_songs_requests_pending_ s; album_covers_requests_sent_ :=
     album_covers_requests_sent_ s; artists_requests_active_ :=
     artists_requests_active_ s; artists_total_ := artists_total_ s;
     artists_received_ := artists_received_ s; albums_requests_active_ :=
     albums_requests_active_ s; songs_requests_active_ :=
     songs_requests_active_ s; artist_albums_requests_active_ :=
     artist_albums_requests_active_ s; artist_albums_requested_ :=
     artist_albums_requested_ s; artist_albums_received_ :=
     artist_albums_received_ s; album_songs_requests_active_ :=
     album_songs_requests_active_ s; album_songs_requested_ :=
     album_songs_requested_ s; album_songs_received_ := album_songs_received_
     s; album_covers_requests_active_ := album_covers_requests_active_ s;
     album_covers_requested_ := album_covers_requested_ s;
     album_covers_received_ := album_covers_received_ s; songs_ := songs_ s;
     errors_ := errors_ s; no_results_ := no_results_ s; replies_ := replies_
     s; album_cover_replies_ := album_cover_replies_ s; emitted := v |}.

Definition IsQuery (s : SpotifyRequest) : bool :=
  bool_decide (type_ s = QueryType_Artists ∨ type_ s = QueryType_Albums
               ∨ type_ s = QueryType_Songs).

Definition IsSearch (s : SpotifyRequest) : bool :=
  bool_decide (type_ s = QueryType_SearchArtists
               ∨ type_ s = QueryType_SearchAlbums
               ∨ type_ s = QueryType_SearchSongs).

Definition emit (sig : Signal) (s : SpotifyRequest) : SpotifyRequest :=
  set_emitted (emitted s ++ [sig]) s.

Definition connect (reply : nat) (slot : Slot) (s : SpotifyRequest)
    : SpotifyRequest :=
  set_connections (connections s ++ [(reply, slot)]) s.

Definition disconnect (reply : nat) (s : SpotifyRequest) : SpotifyRequest :=
  set_connections (filter (λ c, c.1 ≠ reply) (connections s)) s.

Definition removeAll (reply : nat) (l : list nat) : list nat :=
  filter (λ r, r ≠ reply) l.

Definition listIsEmpty {A} (l : list A) : bool :=
  match l with [] => true | _ => false end.

(** The condition of [FinishCheck], without [!finished_]. *)
Definition drained (s : SpotifyRequest) : bool :=
  listIsEmpty (albums_requests_queue_ s) &&
  listIsEmpty (artists_requests_queue_ s) &&
  listIsEmpty (songs_requests_queue_ s) &&
  listIsEmpty (artist_albums_requests_queue_ s) &&
  listIsEmpty (album_songs_requests_queue_ s) &&
  listIsEmpty (album_cover_requests_queue_ s) &&
  mapIsEmpty (artist_albums_requests_pending_ s) &&
  mapIsEmpty (album_songs_requests_pending_ s) &&
  mapIsEmpty (album_covers_requests_sent_ s) &&
  (artists_requests_active_ s <=? 0) &&
  (albums_requests_active_ s <=? 0) &&
  (songs_requests_active_ s <=? 0) &&
  (artist_albums_requests_active_ s <=? 0) &&
  (artist_albums_requested_ s <=? artist_albums_received_ s) &&
  (album_songs_requests_active_ s <=? 0) &&
  (album_songs_requested_ s <=? album_songs_received_ s) &&
  (album_covers_requested_ s <=? album_covers_received_ s) &&
  (album_covers_requests_active_ s <=? 0) &&
  (album_covers_requested_ s <=? album_covers_received_ s).

Definition FinishCheck (s : SpotifyRequest) : SpotifyRequest :=
  if negb (finished_ s) && drained s then
    let s := set_finished_ true s in
    if no_results_ s && mapIsEmpty (songs_ s) then
      if IsSearch s then emit (Results (query_id_ s) ∅ "No match.") s
      else emit (Results (query_id_ s) ∅ "") s
    else
      if mapIsEmpty (songs_ s) && listIsEmpty (errors_ s) then
        emit (Results (query_id_ s) (songs_ s) "Unknown error") s
      else
        emit (Results (query_id_ s) (songs_ s) (ErrorsToHTML (errors_ s))) s
  else s.

Definition Error (error : string) (s : SpotifyRequest) : SpotifyRequest :=
  let s := if negb (strIsEmpty error)
           then set_errors_ (errors_ s ++ [error]) s else s in
  FinishCheck s.

Definition call (c : Call) (s : SpotifyRequest) : SpotifyRequest :=
  match c with
  | CallError error => Error error s
  | CallDeauthenticate => set_service_ (Service.Deauthenticate (service_ s)) s
  end.

Definition calls (cs : list Call) (s : SpotifyRequest) : SpotifyRequest :=
  fold_left (λ s c, call c s) cs s.

Definition HandleSSLErrors (ssl_errors : list string) (s : SpotifyRequest)
    : SpotifyRequest :=
  fold_left (λ s ssl_error, Error ssl_error s) ssl_errors s.

(** [CreateRequest] on this object: the request goes out with the access
    token of the service. *)
Definition CreateRequest (ressource_name : string)
    (params : list (string * string)) (s : SpotifyRequest)
    : nat * SpotifyRequest :=
  let '(reply, network) :=
    Base.CreateRequest (Service.access_token_ (service_ s)) ressource_name
      params (network_ s) in
  (reply, set_network_ network s).

(** *** The bounded request queues *)

Definition page_params (request : Request) : list (string * string) :=
  (if 0 <? limit request then [("limit", number (limit request))] else [])
  ++ (if 0 <? offset request then [("offset", number (offset request))] else []).

(** The loop of [FlushArtistsRequests]; [queue] is
    [artists_requests_queue_].  When the type of the query is neither
    [QueryType_Artists] nor [QueryType_SearchArtists] no reply is created and
    the loop goes on ([if (!reply) continue]). *)
Fixpoint FlushArtistsRequests_loop (queue : list Request) (s : SpotifyRequest)
    : SpotifyRequest :=
  match queue with
  | [] => s
  | request :: queue' =>
      if artists_requests_active_ s <? kMaxConcurrentArtistsRequests then
        let s := set_artists_requests_queue_ queue' s in
        let s := set_artists_requests_active_ (artists_requests_active_ s + 1) s in
        let parameters :=
          (if bool_decide (type_ s = QueryType_SearchArtists)
           then [("type", "artist"); ("q", search_text_ s)] else [])
          ++ page_params request in
        let ressource :=
          if bool_decide (type_ s = QueryType_Artists) then Some "me/artists"
          else if bool_decide (type_ s = QueryType_SearchArtists) then Some "search"
          else None in
        let s :=
          match ressource with
          | None => s
          | Some name =>
              let '(reply, s) := CreateRequest name parameters s in
              let s := set_replies_ (replies_ s ++ [reply]) s in
              connect reply (ArtistsReplySlot (limit request) (offset request)) s
          end in
        FlushArtistsRequests_loop queue' s
      else s
  end.

Definition FlushArtistsRequests (s : SpotifyRequest) : SpotifyRequest :=
  FlushArtistsRequests_loop (artists_requests_queue_ s) s.

Definition AddArtistsRequest (offset limit : Z) (s : SpotifyRequest)
    : SpotifyRequest :=
  let request := {| offset := offset; limit := limit |} in
  let s := set_artists_requests_queue_ (artists_requests_queue_ s ++ [request]) s in
  if artists_requests_active_ s <? kMaxConcurrentArtistsRequests
  then FlushArtistsRequests s else s.

Definition AddArtistsSearchRequest (offset : Z) (s : SpotifyRequest)
    : SpotifyRequest :=
  AddArtistsRequest offset (Service.artistssearchlimit_ (service_ s)) s.

Fixpoint FlushAlbumsRequests_loop (queue : list Request) (s : SpotifyRequest)
    : SpotifyRequest :=
  match queue with
  | [] => s
  | request :: queue' =>
      if albums_requests_active_ s <? kMaxConcurrentAlbumsRequests then
        let s := set_albums_requests_queue_ queue' s in
        let s := set_albums_requests_active_ (albums_requests_active_ s + 1) s in
        let parameters :=
          (if bool_decide (type_ s = QueryType_SearchAlbums)
           then [("type", "album"); ("q", search_text_ s)] else [])
          ++ page_params request in
        let ressource :=
          if bool_decide (type_ s = QueryType_Albums) then Some "me/albums"
          else if bool_decide (type_ s = QueryType_SearchAlbums) then Some "search"
          else None in
        let s :=
          match ressource with
          | None => s
          | Some name =>
              let '(reply, s) := CreateRequest name parameters s in
              let s := set_replies_ (replies_ s ++ [reply]) s in
              connect reply (AlbumsReplySlot (limit request) (offset request)) s
          end in
        FlushAlbumsRequests_loop queue' s
      else s
  end.

Definition FlushAlbumsRequests (s : SpotifyRequest) : SpotifyRequest :=
  FlushAlbumsRequests_loop (albums_requests_queue_ s) s.

Definition AddAlbumsRequest (offset limit : Z) (s : SpotifyRequest)
    : SpotifyRequest :=
  let request := {| offset := offset; limit := limit |} in
  let s := set_albums_requests_queue_ (albums_requests_queue_ s ++ [request]) s in
  if albums_requests_active_ s <? kMaxConcurrentAlbumsRequests
  then FlushAlbumsRequests s else s.

Definition AddAlbumsSearchRequest (offset : Z) (s : SpotifyRequest)
    : SpotifyRequest :=
  AddAlbumsRequest offset (Service.albumssearchlimit_ (service_ s)) s.

Fixpoint FlushSongsRequests_loop (queue : list Request) (s : SpotifyRequest)
    : SpotifyRequest :=
  match queue with
  | [] => s
  | request :: queue' =>
      if songs_requests_active_ s <? kMaxConcurrentSongsRequests then
        let s := set_songs_requests_queue_ queue' s in
        let s := set_songs_requests_active_ (songs_requests_active_ s + 1) s in
        let parameters :=
          (if bool_decide (type_ s = QueryType_SearchSongs)
           then [("type", "track"); ("q", search_text_ s)] else [])
          ++ page_params request in
        let ressource :=
          if bool_decide (type_ s = QueryType_Songs) then Some "me/tracks"
          else if bool_decide (type_ s = QueryType_SearchSongs) then Some "search"
          else None in
        let s :=
          match ressource with
          | None => s
          | Some name =>
              let '(reply, s) := CreateRequest name parameters s in
              let s := set_replies_ (replies_ s ++ [reply]) s in
              connect reply (SongsReplySlot (limit request) (offset request)) s
          end in
        FlushSongsRequests_loop queue' s
      else s
  end.

Definition FlushSongsRequests (s : SpotifyRequest) : SpotifyRequest :=
  FlushSongsRequests_loop (songs_requests_queue_ s) s.

Definition AddSongsRequest (offset limit : Z) (s : SpotifyRequest)
    : SpotifyRequest :=
  let request := {| offset := offset; limit := limit |} in
  let s := set_songs_requests_queue_ (songs_requests_queue_ s ++ [request]) s in
  if songs_requests_active_ s <? kMaxConcurrentSongsRequests
  then FlushSongsRequests s else s.

Definition AddSongsSearchRequest (offset : Z) (s : SpotifyRequest)
    : SpotifyRequest :=
  AddSongsRequest offset (Service.songssearchlimit_ (service_ s)) s.

Definition offset_params (offset : Z) : list (string * string) :=
  if 0 <? offset then [("offset", number offset)] else [].

Fixpoint FlushArtistAlbumsRequests_loop (queue : list ArtistAlbumsRequest)
    (s : SpotifyRequest) : SpotifyRequest :=
  match queue with
  | [] => s
  | request :: queue' =>
      if artist_albums_requests_active_ s <? kMaxConcurrentArtistAlbumsRequests then
        let s := set_artist_albums_requests_queue_ queue' s in
        let s := set_artist_albums_requests_active_
                   (artist_albums_requests_active_ s + 1) s in
        let '(reply, s) :=
          CreateRequest ("artists/" +:+ artist_id (aa_artist request) +:+ "/albums")
            (offset_params (aa_offset request)) s in
        let s := connect reply
                   (ArtistAlbumsReplySlot (aa_artist request) (aa_offset request)) s in
        let s := set_replies_ (replies_ s ++ [reply]) s in
        FlushArtistAlbumsRequests_loop queue' s
      else s
  end.

Definition FlushArtistAlbumsRequests (s : SpotifyRequest) : SpotifyRequest :=
  FlushArtistAlbumsRequests_loop (artist_albums_requests_queue_ s) s.

Definition AddArtistAlbumsRequest (artist : Artist) (offset : Z)
    (s : SpotifyRequest) : SpotifyRequest :=
  let request := {| aa_artist := artist; aa_offset := offset; aa_limit := 0 |} in
  let s := set_artist_albums_requests_queue_
             (artist_albums_requests_queue_ s ++ [request]) s in
  if artist_albums_requests_active_ s <? kMaxConcurrentArtistAlbumsRequests
  then FlushArtistAlbumsRequests s else s.

Fixpoint FlushAlbumSongsRequests_loop (queue : list AlbumSongsRequest)
    (s : SpotifyRequest) : SpotifyRequest :=
  match queue with
  | [] => s
  | request :: queue' =>
      if album_songs_requests_active_ s <? kMaxConcurrentAlbumSongsRequests then
        let s := set_album_songs_requests_queue_ queue' s in
        let s := set_album_songs_requests_active_
                   (album_songs_requests_active_ s + 1) s in
        let '(reply, s) :=
          CreateRequest ("albums/" +:+ album_id (as_album request) +:+ "/tracks")
            (offset_params (as_offset request)) s in
        let s := set_replies_ (replies_ s ++ [reply]) s in
        let s := connect reply
                   (AlbumSongsReplySlot (as_artist request) (as_album request)
                      (as_offset request)) s in
        FlushAlbumSongsRequests_loop queue' s
      else s
  end.

Definition FlushAlbumSongsRequests (s : SpotifyRequest) : SpotifyRequest :=
  FlushAlbumSongsRequests_loop (album_songs_requests_queue_ s) s.

Definition AddAlbumSongsRequest (artist : Artist) (album : Album) (offset : Z)
    (s : SpotifyRequest) : SpotifyRequest :=
  let request := {| as_artist := artist; as_album := album;
                    as_offset := offset; as_limit := 0 |} in
  let s := set_album_songs_requests_queue_
             (album_songs_requests_queue_ s ++ [request]) s in
  let s := set_album_songs_requested_ (album_songs_requested_ s + 1) s in
  if album_songs_requests_active_ s <? kMaxConcurrentAlbumSongsRequests
  then FlushAlbumSongsRequests s else s.

(** *** Album covers *)

Definition sentInsert (k v : string) (m : gmap string (list string))
    : gmap string (list string) :=
  <[k := v :: default [] (m !! k)]> m.

Definition AddAlbumCoverRequest (song : Song.Song) (s : SpotifyRequest)
    : SpotifyRequest :=
  if mapContains (album_covers_requests_sent_ s) (Song.album_id song) then
    set_album_covers_requests_sent_
      (sentInsert (Song.album_id song) (Song.song_id song)
         (album_covers_requests_sent_ s)) s
  else
    let request :=
      {| ac_artist_id := ""; ac_album_id := Song.album_id song;
         ac_url := Song.art_automatic song;
         ac_filename := CoverFilePath (app_ s) song |} in
    if strIsEmpty (ac_filename request) then s
    else
      let s := set_album_covers_requests_sent_
                 (sentInsert (Song.album_id song) (Song.song_id song)
                    (album_covers_requests_sent_ s)) s in
      let s := set_album_covers_requested_ (album_covers_requested_ s + 1) s in
      set_album_cover_requests_queue_
        (album_cover_requests_queue_ s ++ [request]) s.

Fixpoint FlushAlbumCoverRequests_loop (queue : list AlbumCoverRequest)
    (s : SpotifyRequest) : SpotifyRequest :=
  match queue with
  | [] => s
  | request :: queue' =>
      if album_covers_requests_active_ s <? kMaxConcurrentAlbumCoverRequests then
        let s := set_album_cover_requests_queue_ queue' s in
        let s := set_album_covers_requests_active_
                   (album_covers_requests_active_ s + 1) s in
        let '(reply, network) :=
          send {| verb := GET; target := ac_url request; query := [];
                  bearer := None |} (network_ s) in
        let s := set_network_ network s in
        let s := set_album_cover_replies_ (album_cover_replies_ s ++ [reply]) s in
        let s := connect reply
                   (AlbumCoverSlot (ac_album_id request) (ac_url request)
                      (ac_filename request)) s in
        FlushAlbumCoverRequests_loop queue' s
      else s
  end.

Definition FlushAlbumCoverRequests (s : SpotifyRequest) : SpotifyRequest :=
  FlushAlbumCoverRequests_loop (album_cover_requests_queue_ s) s.

Definition GetAlbumCovers (s : SpotifyRequest) : SpotifyRequest :=
  let songs := values (songs_ s) in
  let s := fold_left (λ s song, AddAlbumCoverRequest song s) songs s in
  let s := FlushAlbumCoverRequests s in
  let s :=
    if album_covers_requested_ s =? 1 then
      emit (UpdateStatus (query_id_ s)
              ("Retrieving album cover for "
               +:+ number (album_covers_requested_ s) +:+ " album...")) s
    else
      emit (UpdateStatus (query_id_ s)
              ("Retrieving album covers for "
               +:+ number (album_covers_requested_ s) +:+ " albums...")) s in
  let s := emit (ProgressSetMaximum (query_id_ s) (album_covers_requested_ s)) s in
  emit (UpdateProgress (query_id_ s) 0) s.

Definition AlbumCoverFinishCheck (s : SpotifyRequest) : SpotifyRequest :=
  let s :=
    if negb (listIsEmpty (album_cover_requests_queue_ s))
       && (album_covers_requests_active_ s <? kMaxConcurrentAlbumCoverRequests)
    then FlushAlbumCoverRequests s else s in
  FinishCheck s.

(** *** The completion checks of the tiers *)

Definition ArtistsFinishCheck (limit offset artists_received : Z)
    (s : SpotifyRequest) : SpotifyRequest :=
  if finished_ s then s else
  let s :=
    if ((limit =? 0) || (artists_received <? limit))
       && (artists_received_ s <? artists_total_ s) then
      let offset_next := offset + artists_received in
      if (0 <? offset_next) && (offset_next <? artists_total_ s) then
        if bool_decide (type_ s = QueryType_Artists)
        then AddArtistsRequest offset_next 0 s
        else if bool_decide (type_ s = QueryType_SearchArtists)
        then AddArtistsSearchRequest offset_next s
        else s
      else s
    else s in
  let s :=
    if negb (listIsEmpty (artists_requests_queue_ s))
       && (artists_requests_active_ s <? kMaxConcurrentArtistsRequests)
    then FlushArtistsRequests s else s in
  let s :=
    if listIsEmpty (artists_requests_queue_ s)
       && (artists_requests_active_ s <=? 0) then
      let requests := values (artist_albums_requests_pending_ s) in
      let s :=
        fold_left
          (λ s request,
             let s := AddArtistAlbumsRequest (aa_artist request) 0 s in
             set_artist_albums_requested_ (artist_albums_requested_ s + 1) s)
          requests s in
      let s := set_artist_albums_requests_pending_ ∅ s in
      if 0 <? artist_albums_requested_ s then
        let s :=
          if artist_albums_requested_ s =? 1 then
            emit (UpdateStatus (query_id_ s)
                    ("Retrieving albums for "
                     +:+ number (artist_albums_requested_ s) +:+ " artist...")) s
          else
            emit (UpdateStatus (query_id_ s)
                    ("Retrieving albums for "
                     +:+ number (artist_albums_requested_ s) +:+ " artists...")) s in
        let s := emit (ProgressSetMaximum (query_id_ s)
                         (artist_albums_requested_ s)) s in
        emit (UpdateProgress (query_id_ s) 0) s
      else s
    else s in
  FinishCheck s.

Definition AlbumsFinishCheck (artist : Artist)
    (limit offset albums_total albums_received : Z) (s : SpotifyRequest)
    : SpotifyRequest :=
  if finished_ s then s else
  let s :=
    if (limit =? 0) || (albums_received <? limit) then
      let offset_next := offset + albums_received in
      if (0 <? offset_next) && (offset_next <? albums_total) then
        match type_ s with
        | QueryType_Albums => AddAlbumsRequest offset_next 0 s
        | QueryType_SearchAlbums => AddAlbumsSearchRequest offset_next s
        | QueryType_Artists
        | QueryType_SearchArtists => AddArtistAlbumsRequest artist offset_next s
        | _ => s
        end
      else s
    else s in
  let s :=
    if listIsEmpty (albums_requests_queue_ s)
       && (albums_requests_active_ s <=? 0)
       && listIsEmpty (artist_albums_requests_queue_ s)
       && (artist_albums_requests_active_ s <=? 0) then
      let s :=
        fold_left
          (λ s request,
             AddAlbumSongsRequest (as_artist request) (as_album request) 0 s)
          (values (album_songs_requests_pending_ s)) s in
      let s := set_album_songs_requests_pending_ ∅ s in
      if 0 <? album_songs_requested_ s then
        let s :=
          if album_songs_requested_ s =? 1 then
            emit (UpdateStatus (query_id_ s)
                    ("Retrieving songs for "
                     +:+ number (album_songs_requested_ s) +:+ " album...")) s
          else
            emit (UpdateStatus (query_id_ s)
                    ("Retrieving songs for "
                     +:+ number (album_songs_requested_ s) +:+ " albums...")) s in
        let s := emit (ProgressSetMaximum (query_id_ s)
                         (album_songs_requested_ s)) s in
        emit (UpdateProgress (query_id_ s) 0) s
      else s
    else s in
  FinishCheck s.

(** In [SongsFinishCheck] the first of the two flushes tests the queue and
    the counter of the songs tier and then, as the source has it, calls
    [FlushAlbumSongsRequests]. *)
Definition SongsFinishCheck (artist : Artist) (album : Album)
    (limit offset songs_total songs_received : Z) (s : SpotifyRequest)
    : SpotifyRequest :=
  if finished_ s then s else
  let s :=
    if (limit =? 0) || (songs_received <? limit) then
      let offset_next := offset + songs_received in
      if (0 <? offset_next) && (offset_next <? songs_total) then
        match type_ s with
        | QueryType_Songs => AddSongsRequest offset_next 0 s
        | QueryType_SearchSongs =>
            if strIsEmpty (artist_id artist) && strIsEmpty (album_id album)
            then AddSongsSearchRequest offset_next s
            else AddAlbumSongsRequest artist album offset_next s
        | QueryType_Artists
        | QueryType_SearchArtists
        | QueryType_Albums
        | QueryType_SearchAlbums => AddAlbumSongsRequest artist album offset_next s
        | _ => s
        end
      else s
    else s in
  let s :=
    if negb (listIsEmpty (songs_requests_queue_ s))
       && (songs_requests_active_ s <? kMaxConcurrentAlbumSongsRequests)
    then FlushAlbumSongsRequests s else s in
  let s :=
    if negb (listIsEmpty (album_songs_requests_queue_ s))
       && (album_songs_requests_active_ s <? kMaxConcurrentAlbumSongsRequests)
    then FlushAlbumSongsRequests s else s in
  let s :=
    if Service.download_album_covers_ (service_ s)
       && IsQuery s
       && listIsEmpty (songs_requests_queue_ s)
       && (songs_requests_active_ s <=? 0)
       && listIsEmpty (album_songs_requests_queue_ s)
       && (album_songs_requests_active_ s <=? 0)
       && listIsEmpty (album_cover_requests_queue_ s)
       && (album_covers_received_ s <=? 0)
       && mapIsEmpty (album_covers_requests_sent_ s)
       && (album_songs_requested_ s <=? album_songs_received_ s)
    then GetAlbumCovers s else s in
  FinishCheck s.

(** *** Parsing *)

(** The loop over [images] in [AlbumsReceived] and in [ParseSong]:
    [cover_url] is assigned at every image that is an object with [url],
    [width] and [height] whose width and height both exceed 300, and the
    loop runs to the end of the array. *)
Definition coverFromImages (array_images : QJsonArray) (cover_url : string)
    : string :=
  fold_left
    (λ (cover_url : string) (value : QJsonValue),
       if negb (isObject value) then cover_url
       else
         let obj_image := toObject value in
         if objIsEmpty obj_image || negb (contains obj_image "url")
            || negb (contains obj_image "width")
            || negb (contains obj_image "height")
         then cover_url
         else
           let width := toInt (Qt.value obj_image "width") in
           let height := toInt (Qt.value obj_image "height") in
           if (width <=? 300) || (height <=? 300) then cover_url
           else toString (Qt.value obj_image "url"))
    array_images cover_url.

(** The loop over [artists] in [ParseSong], which stops at the first entry
    that is an object with [type], [id] and [name]. *)
Fixpoint firstArtist (array_artists : QJsonArray) : string * string :=
  match array_artists with
  | [] => ("", "")
  | value_artist :: rest =>
      if negb (isObject value_artist) then firstArtist rest
      else
        let obj_artist := toObject value_artist in
        if negb (contains obj_artist "type") || negb (contains obj_artist "id")
           || negb (contains obj_artist "name")
        then firstArtist rest
        else (toString (value obj_artist "id"),
              toString (value obj_artist "name"))
  end.

(** [ParseSong] fills in [song]; the length of the song is left out of the
    model. *)
Definition ParseSong (song : Song.Song) (json_obj : QJsonObject)
    (album_artist : Artist) (album : Album) (s : SpotifyRequest)
    : Song.Song * SpotifyRequest :=
  if negb (contains json_obj "type") || negb (contains json_obj "id")
     || negb (contains json_obj "name") || negb (contains json_obj "uri")
     || negb (contains json_obj "duration_ms")
     || negb (contains json_obj "track_number")
     || negb (contains json_obj "disc_number")
     || negb (contains json_obj "explicit")
  then (song, Error "Invalid Json reply, track is missing one or more values." s)
  else
    let '(artist_id, artist_title) :=
      if contains json_obj "artists" && isArray (value json_obj "artists")
      then firstArtist (toArray (value json_obj "artists"))
      else ("", "") in
    let '(album_id, album_title, cover_url) :=
      if contains json_obj "album" && isObject (value json_obj "album") then
        let obj_album := toObject (value json_obj "album") in
        if contains obj_album "type" && contains obj_album "id"
           && contains obj_album "name" then
          (toString (value obj_album "id"), toString (value obj_album "name"),
           if contains obj_album "images" && isArray (value obj_album "images")
           then coverFromImages (toArray (value obj_album "images")) ""
           else "")
        else ("", "", "")
      else ("", "", "") in
    let '(artist_id, artist_title) :=
      if strIsEmpty artist_id || strIsEmpty artist_title
      then (Request.artist_id album_artist, artist album_artist)
      else (artist_id, artist_title) in
    let '(album_id, album_title, cover_url) :=
      if strIsEmpty album_id || strIsEmpty album_title || strIsEmpty cover_url
      then (Request.album_id album, Request.album album, Request.cover_url album)
      else (album_id, album_title, cover_url) in
    let song_id := toString (value json_obj "id") in
    let title := toString (value json_obj "name") in
    let uri := toString (value json_obj "uri") in
    let track := toInt (value json_obj "track_number") in
    let disc := toInt (value json_obj "disc_number") in
    let title := removeTitleMisc (app_ s) title in
    ({| Song.song_id := song_id;
        Song.album_id := album_id;
        Song.artist_id := artist_id;
        Song.albumartist :=
          if bool_decide (artist album_artist ≠ artist_title)
          then artist album_artist else Song.albumartist song;
        Song.album := album_title;
        Song.artist := artist_title;
        Song.title := title;
        Song.track := track;
        Song.disc := disc;
        Song.url := uri;
        Song.art_automatic := cover_url;
        Song.compilation_detected := Song.compilation_detected song;
        Song.valid := true |}, s).

(** The optional [item] envelope of an array element: [None] when the
    element has an [item] that is not an object. *)
Definition unwrapItem (obj_item : QJsonObject) : option QJsonObject :=
  if contains obj_item "item" then
    let json_item := value obj_item "item" in
    if negb (isObject json_item) then None else Some (toObject json_item)
  else Some obj_item.

(** The state of the loop of [SongsReceived] over the items of a page. *)
Record SongsLoop : Type := {
  sl_request : SpotifyRequest;
  sl_songs : SongList;
  sl_compilation : bool;
  sl_multidisc : bool;
  sl_songs_received : Z
}.

Definition SongsReceived_item (artist : Artist) (album : Album)
    (st : SongsLoop) (value_item : QJsonValue) : SongsLoop :=
  let s := sl_request st in
  if negb (isObject value_item) then
    {| sl_request := Error "Invalid Json reply, track is not a object." s;
       sl_songs := sl_songs st; sl_compilation := sl_compilation st;
       sl_multidisc := sl_multidisc st;
       sl_songs_received := sl_songs_received st |}
  else
    match unwrapItem (toObject value_item) with
    | None =>
        {| sl_request := Error "Invalid Json reply, item is not a object." s;
           sl_songs := sl_songs st; sl_compilation := sl_compilation st;
           sl_multidisc := sl_multidisc st;
           sl_songs_received := sl_songs_received st |}
    | Some obj_item =>
        let songs_received := sl_songs_received st + 1 in
        let '(song, s) := ParseSong Song.newSong obj_item artist album s in
        if negb (Song.is_valid song) then
          {| sl_request := s; sl_songs := sl_songs st;
             sl_compilation := sl_compilation st;
             sl_multidisc := sl_multidisc st;
             sl_songs_received := songs_received |}
        else
          {| sl_request := s; sl_songs := sl_songs st ++ [song];
             sl_compilation :=
               if Song.is_compilation song then true else sl_compilation st;
             sl_multidisc :=
               if 2 <=? Song.disc song then true else sl_multidisc st;
             sl_songs_received := songs_received |}
    end.

(** The body of the second loop of [SongsReceived]: the song is filed in
    [songs_] under its id. *)
Definition SongsReceived_insert (compilation multidisc : bool)
    (s : SpotifyRequest) (song : Song.Song) : SpotifyRequest :=
  let song := if compilation
              then Song.set_compilation_detected true song else song in
  let song := if negb multidisc then Song.set_disc 0 song else song in
  set_songs_ (<[Song.song_id song := song]> (songs_ s)) s.

Definition SongsReceived (reply : QNetworkReply) (artist : Artist)
    (album : Album) (limit_requested offset_requested : Z)
    (s : SpotifyRequest) : SpotifyRequest :=
  if negb (bool_decide (ptr reply ∈ replies_ s)) then s else
  let s := set_replies_ (removeAll (ptr reply) (replies_ s)) s in
  let s := disconnect (ptr reply) s in
  let '(data, cs) := GetReplyData reply in
  let s := calls cs s in
  if finished_ s then s else
  if isEmpty data then
    SongsFinishCheck artist album limit_requested offset_requested 0 0 s
  else
  let '(json_obj, cs) := ExtractJsonObj data in
  let s := calls cs s in
  if objIsEmpty json_obj then
    SongsFinishCheck artist album limit_requested offset_requested 0 0 s
  else
  let json_obj :=
    if contains json_obj "tracks" && isObject (value json_obj "tracks")
    then toObject (value json_obj "tracks") else json_obj in
  if negb (contains json_obj "limit") || negb (contains json_obj "offset")
     || negb (contains json_obj "total") || negb (contains json_obj "items")
  then
    SongsFinishCheck artist album limit_requested offset_requested 0 0
      (Error "Json object missing values." s)
  else
  let offset := toInt (value json_obj "offset") in
  let songs_total := toInt (value json_obj "total") in
  if negb (offset =? offset_requested) then
    SongsFinishCheck artist album limit_requested offset_requested songs_total 0
      (Error ("Offset returned does not match offset requested! "
              +:+ number offset +:+ " != " +:+ number offset_requested) s)
  else
  let '(json_value, cs) := ExtractItems json_obj in
  let s := calls cs s in
  if negb (isArray json_value) then
    SongsFinishCheck artist album limit_requested offset_requested songs_total 0 s
  else
  let json_items := toArray json_value in
  if listIsEmpty json_items then
    let s :=
      if bool_decide (type_ s = QueryType_Songs ∨ type_ s = QueryType_SearchSongs)
         && (offset_requested =? 0)
      then set_no_results_ true s else s in
    SongsFinishCheck artist album limit_requested offset_requested songs_total 0 s
  else
  let st :=
    fold_left (SongsReceived_item artist album) json_items
      {| sl_request := s; sl_songs := []; sl_compilation := false;
         sl_multidisc := false; sl_songs_received := 0 |} in
  let s := sl_request st in
  let s :=
    fold_left (SongsReceived_insert (sl_compilation st) (sl_multidisc st))
      (sl_songs st) s in
  SongsFinishCheck artist album limit_requested offset_requested songs_total
    (sl_songs_received st) s.

(** The body of the loop of [AlbumsReceived] over the items of a page, after
    [++albums_received]. *)
Definition AlbumsReceived_item (artist : Artist) (s : SpotifyRequest)
    (value_item : QJsonValue) : SpotifyRequest :=
  if negb (isObject value_item) then
    Error "Invalid Json reply, item in array is not a object." s
  else
    match unwrapItem (toObject value_item) with
    | None => Error "Invalid Json reply, item in array is not a object." s
    | Some obj_item =>
        let parsed : string * string * string + SpotifyRequest :=
          if contains obj_item "type" then
            if negb (contains obj_item "id") || negb (contains obj_item "name")
               || negb (contains obj_item "images")
            then inr (Error "Invalid Json reply, item is missing ID, name or images." s)
            else
              inl (toString (value obj_item "id"),
                   toString (value obj_item "name"),
                   if isArray (value obj_item "images")
                   then coverFromImages (toArray (value obj_item "images")) ""
                   else "")
          else if contains obj_item "album" then
            let value_album := value obj_item "album" in
            if negb (isObject value_album) then
              inr (Error "Invalid Json reply, item album is not a object." s)
            else
              let obj_album := toObject value_album in
              if negb (contains obj_album "id") || negb (contains obj_album "title")
              then inr (Error "Invalid Json reply, item album is missing ID or title." s)
              else
                let album_id :=
                  if isString (value obj_album "id")
                  then toString (value obj_album "id")
                  else number (toInt (value obj_album "id")) in
                let album_title := toString (value obj_album "title") in
                let album_title :=
                  if contains obj_album "explicit"
                     && toVariantBool (value obj_album "explicit")
                     && negb (strIsEmpty album_title)
                  then album_title +:+ " (Explicit)" else album_title in
                inl (album_id, album_title, "")
          else inr (Error "Invalid Json reply, item missing type or album." s) in
        match parsed with
        | inr s => s
        | inl (album_id, album_title, cover_url) =>
            if mapContains (album_songs_requests_pending_ s) album_id then s
            else
              let request :=
                {| as_artist := artist;
                   as_album := {| album_id := album_id; album := album_title;
                                  cover_url := cover_url;
                                  album_explicit := false |};
                   as_offset := 0; as_limit := 0 |} in
              set_album_songs_requests_pending_
                (<[album_id := request]> (album_songs_requests_pending_ s)) s
        end
    end.

Definition AlbumsReceived (reply : QNetworkReply) (artist : Artist)
    (limit_requested offset_requested : Z) (s : SpotifyRequest)
    : SpotifyRequest :=
  if negb (bool_decide (ptr reply ∈ replies_ s)) then s else
  let s := set_replies_ (removeAll (ptr reply) (replies_ s)) s in
  let s := disconnect (ptr reply) s in
  let '(data, cs) := GetReplyData reply in
  let s := calls cs s in
  if finished_ s then s else
  if isEmpty data then AlbumsFinishCheck artist 0 0 0 0 s else
  let '(json_obj, cs) := ExtractJsonObj data in
  let s := calls cs s in
  if objIsEmpty json_obj then AlbumsFinishCheck artist 0 0 0 0 s else
  let json_obj :=
    if contains json_obj "albums" && isObject (value json_obj "albums")
    then toObject (value json_obj "albums") else json_obj in
  if negb (contains json_obj "limit") || negb (contains json_obj "offset")
     || negb (contains json_obj "total") || negb (contains json_obj "items")
  then AlbumsFinishCheck artist 0 0 0 0 (Error "Json object missing values." s)
  else
  let offset := toInt (value json_obj "offset") in
  let albums_total := toInt (value json_obj "total") in
  if negb (offset =? offset_requested) then
    AlbumsFinishCheck artist 0 0 0 0
      (Error ("Offset returned does not match offset requested! "
              +:+ number offset +:+ " != " +:+ number offset_requested) s)
  else
  let '(value_items, cs) := ExtractItems json_obj in
  let s := calls cs s in
  if negb (isArray value_items) then AlbumsFinishCheck artist 0 0 0 0 s else
  let array_items := toArray value_items in
  if listIsEmpty array_items then
    let s :=
      if bool_decide (type_ s = QueryType_Albums ∨ type_ s = QueryType_SearchAlbums
                      ∨ (type_ s = QueryType_SearchSongs ∧ fetchalbums_ s = true))
         && (offset_requested =? 0)
      then set_no_results_ true s else s in
    AlbumsFinishCheck artist 0 0 0 0 s
  else
  let s := fold_left (AlbumsReceived_item artist) array_items s in
  let albums_received := Z.of_nat (length array_items) in
  AlbumsFinishCheck artist limit_requested offset albums_total albums_received s.

(** The body of the loop of [ArtistsReplyReceived] over the items of a page,
    after [++artists_received]. *)
Definition ArtistsReplyReceived_item (s : SpotifyRequest)
    (value_item : QJsonValue) : SpotifyRequest :=
  if negb (isObject value_item) then
    Error "Invalid Json reply, item in array is not a object." s
  else
    match unwrapItem (toObject value_item) with
    | None => Error "Invalid Json reply, item in array is not a object." s
    | Some obj_item =>
        if negb (contains obj_item "id") || negb (contains obj_item "name")
        then Error "Invalid Json reply, item missing id or album." s
        else
          let artist_id := toString (value obj_item "id") in
          let artist := toString (value obj_item "name") in
          if mapContains (artist_albums_requests_pending_ s) artist_id then s
          else
            let request :=
              {| aa_artist := {| artist_id := artist_id; artist := artist |};
                 aa_offset := 0; aa_limit := 0 |} in
            set_artist_albums_requests_pending_
              (<[artist_id := request]> (artist_albums_requests_pending_ s)) s
    end.

Definition ArtistsReplyReceived (reply : QNetworkReply)
    (limit_requested offset_requested : Z) (s : SpotifyRequest)
    : SpotifyRequest :=
  if negb (bool_decide (ptr reply ∈ replies_ s)) then s else
  let s := set_replies_ (removeAll (ptr reply) (replies_ s)) s in
  let s := disconnect (ptr reply) s in
  let '(data, cs) := GetReplyData reply in
  let s := calls cs s in
  let s := set_artists_requests_active_ (artists_requests_active_ s - 1) s in
  if finished_ s then s else
  if isEmpty data then ArtistsFinishCheck 0 0 0 s else
  let '(json_obj, cs) := ExtractJsonObj data in
  let s := calls cs s in
  if objIsEmpty json_obj then ArtistsFinishCheck 0 0 0 s else
  if negb (contains json_obj "artists")
     || negb (isObject (value json_obj "artists"))
  then ArtistsFinishCheck 0 0 0 (Error "Json object missing artists." s)
  else
  let obj_artists := toObject (value json_obj "artists") in
  if negb (contains obj_artists "limit") || negb (contains obj_artists "offset")
     || negb (contains obj_artists "total") || negb (contains obj_artists "items")
  then ArtistsFinishCheck 0 0 0 (Error "Json object missing values." s)
  else
  let offset := toInt (value obj_artists "offset") in
  let artists_total := toInt (value obj_artists "total") in
  let check_total : SpotifyRequest + SpotifyRequest :=
    if offset_requested =? 0 then inl (set_artists_total_ artists_total s)
    else if negb (artists_total =? artists_total_ s) then
      inr (Error ("Total returned does not match previous total! "
                  +:+ number artists_total +:+ " != "
                  +:+ number (artists_total_ s)) s)
    else inl s in
  match check_total with
  | inr s => ArtistsFinishCheck 0 0 0 s
  | inl s =>
  if negb (offset =? offset_requested) then
    ArtistsFinishCheck 0 0 0
      (Error ("Offset returned does not match offset requested! "
              +:+ number offset +:+ " != " +:+ number offset_requested) s)
  else
  let s :=
    if offset_requested =? 0 then
      let s := emit (ProgressSetMaximum (query_id_ s) (artists_total_ s)) s in
      emit (UpdateProgress (query_id_ s) (artists_received_ s)) s
    else s in
  let '(value_items, cs) := ExtractItems obj_artists in
  let s := calls cs s in
  if negb (isArray value_items) then ArtistsFinishCheck 0 0 0 s else
  let array_items := toArray value_items in
  if listIsEmpty array_items then
    let s := if offset_requested =? 0 then set_no_results_ true s else s in
    ArtistsFinishCheck 0 0 0 s
  else
  let s := fold_left ArtistsReplyReceived_item array_items s in
  let artists_received := Z.of_nat (length array_items) in
  let s := set_artists_received_ (artists_received_ s + artists_received) s in
  let s := if negb (offset_requested =? 0)
           then emit (UpdateProgress (query_id_ s) (artists_received_ s)) s
           else s in
  ArtistsFinishCheck limit_requested offset artists_received s
  end.

(** *** The slots of the replies *)

Definition AlbumsReplyReceived (reply : QNetworkReply)
    (limit_requested offset_requested : Z) (s : SpotifyRequest)
    : SpotifyRequest :=
  let s := set_albums_requests_active_ (albums_requests_active_ s - 1) s in
  let s := AlbumsReceived reply noArtist limit_requested offset_requested s in
  if negb (listIsEmpty (albums_requests_queue_ s))
     && (albums_requests_active_ s <? kMaxConcurrentAlbumsRequests)
  then FlushAlbumsRequests s else s.

Definition ArtistAlbumsReplyReceived (reply : QNetworkReply) (artist : Artist)
    (offset_requested : Z) (s : SpotifyRequest) : SpotifyRequest :=
  let s := set_artist_albums_requests_active_
             (artist_albums_requests_active_ s - 1) s in
  let s := set_artist_albums_received_ (artist_albums_received_ s + 1) s in
  let s := emit (UpdateProgress (query_id_ s) (artist_albums_received_ s)) s in
  let s := AlbumsReceived reply artist 0 offset_requested s in
  if negb (listIsEmpty (artist_albums_requests_queue_ s))
     && (artist_albums_requests_active_ s <? kMaxConcurrentArtistAlbumsRequests)
  then FlushArtistAlbumsRequests s else s.

Definition SongsReplyReceived (reply : QNetworkReply)
    (limit_requested offset_requested : Z) (s : SpotifyRequest)
    : SpotifyRequest :=
  let s := set_songs_requests_active_ (songs_requests_active_ s - 1) s in
  if bool_decide (type_ s = QueryType_SearchSongs) && fetchalbums_ s
  then AlbumsReceived reply noArtist limit_requested offset_requested s
  else SongsReceived reply noArtist noAlbum limit_requested offset_requested s.

Definition AlbumSongsReplyReceived (reply : QNetworkReply) (artist : Artist)
    (album : Album) (offset_requested : Z) (s : SpotifyRequest)
    : SpotifyRequest :=
  let s := set_album_songs_requests_active_
             (album_songs_requests_active_ s - 1) s in
  let s := set_album_songs_received_ (album_songs_received_ s + 1) s in
  let s := if offset_requested =? 0
           then emit (UpdateProgress (query_id_ s) (album_songs_received_ s)) s
           else s in
  SongsReceived reply artist album 0 offset_requested s.

(** [QMultiMap::remove(album_id)] on [album_covers_requests_sent_]. *)
Definition sentRemove (album_id : string) (s : SpotifyRequest)
    : SpotifyRequest :=
  set_album_covers_requests_sent_
    (delete album_id (album_covers_requests_sent_ s)) s.

Definition fromLocalFile (filename : string) : string := "file://" +:+ filename.

(** The loop [while (sent.contains(album_id)) { take ... }] of
    [AlbumCoverReceived]: the song ids filed under the album are taken one
    by one, the most recently inserted first, and the songs that are in
    [songs_] get the local file as cover. *)
Definition takeCovers (album_id filename : string) (s : SpotifyRequest)
    : SpotifyRequest :=
  let song_ids := default [] (album_covers_requests_sent_ s !! album_id) in
  let s :=
    fold_left
      (λ s song_id,
         match songs_ s !! song_id with
         | Some song =>
             set_songs_
               (<[song_id := Song.set_art_automatic (fromLocalFile filename) song]>
                  (songs_ s)) s
         | None => s
         end)
      song_ids s in
  sentRemove album_id s.

Definition AlbumCoverReceived (reply : QNetworkReply)
    (album_id url filename : string) (s : SpotifyRequest) : SpotifyRequest :=
  if negb (bool_decide (ptr reply ∈ album_cover_replies_ s))
  then AlbumCoverFinishCheck s else
  let s := set_album_cover_replies_
             (removeAll (ptr reply) (album_cover_replies_ s)) s in
  let s := disconnect (ptr reply) s in
  let s := set_album_covers_requests_active_
             (album_covers_requests_active_ s - 1) s in
  let s := set_album_covers_received_ (album_covers_received_ s + 1) s in
  if finished_ s then s else
  let s := emit (UpdateProgress (query_id_ s) (album_covers_received_ s)) s in
  if negb (mapContains (album_covers_requests_sent_ s) album_id)
  then AlbumCoverFinishCheck s else
  if negb (error reply =? NoError) then
    let s := Error (arg2 (errorString reply) (number (error reply))) s in
    AlbumCoverFinishCheck (sentRemove album_id s)
  else if negb (httpStatus reply =? 200) then
    let s := Error ("Received HTTP code " +:+ number (httpStatus reply)
                    +:+ " for " +:+ url +:+ ".") s in
    AlbumCoverFinishCheck (sentRemove album_id s)
  else if negb (mimeSupported reply) then
    let s := Error ("Unsupported mimetype for image reader "
                    +:+ mimetype reply +:+ " for " +:+ url) s in
    AlbumCoverFinishCheck (sentRemove album_id s)
  else if isEmpty (readAll reply) then
    let s := Error ("Received empty image data for " +:+ url) s in
    AlbumCoverFinishCheck (sentRemove album_id s)
  else
  let s :=
    if imageLoads reply then
      if imageSaves reply then takeCovers album_id filename s
      else
        let s := Error ("Error saving image data to " +:+ filename) s in
        sentRemove album_id s
    else
      let s := sentRemove album_id s in
      Error ("Error decoding image data from " +:+ url) s in
  AlbumCoverFinishCheck s.

(** *** Starting a crawl *)

(** The constructor. *)
Definition newRequest (service : Service.SpotifyService) (app : Application)
    (network : NetworkAccessManager) (type : QueryType) : SpotifyRequest :=
  {| service_ := service; app_ := app; network_ := network; connections := [];
     type_ := type; fetchalbums_ := Service.fetchalbums_ service;
     query_id_ := -1; search_text_ := ""; finished_ := false;
     artists_requests_queue_ := []; albums_requests_queue_ := [];
     songs_requests_queue_ := []; artist_albums_requests_queue_ := [];
     album_songs_requests_queue_ := []; album_cover_requests_queue_ := [];
     artist_albums_requests_pending_ := ∅; album_songs_requests_pending_ := ∅;
     album_covers_requests_sent_ := ∅;
     artists_requests_active_ := 0; artists_total_ := 0; artists_received_ := 0;
     albums_requests_active_ := 0; songs_requests_active_ := 0;
     artist_albums_requests_active_ := 0; artist_albums_requested_ := 0;
     artist_albums_received_ := 0;
     album_songs_requests_active_ := 0; album_songs_requested_ := 0;
     album_songs_received_ := 0;
     album_covers_requests_active_ := 0; album_covers_requested_ := 0;
     album_covers_received_ := 0;
     songs_ := ∅; errors_ := []; no_results_ := false;
     replies_ := []; album_cover_replies_ := []; emitted := [] |}.

Definition Search (query_id : Z) (search_text : string) (s : SpotifyRequest)
    : SpotifyRequest :=
  set_search_text_ search_text (set_query_id_ query_id s).

Definition GetArtists (s : SpotifyRequest) : SpotifyRequest :=
  let s := emit (UpdateStatus (query_id_ s) "Retrieving artists...") s in
  let s := emit (UpdateProgress (query_id_ s) 0) s in
  AddArtistsRequest 0 0 s.

Definition GetAlbums (s : SpotifyRequest) : SpotifyRequest :=
  let s := emit (UpdateStatus (query_id_ s) "Retrieving albums...") s in
  let s := emit (UpdateProgress (query_id_ s) 0) s in
  AddAlbumsRequest 0 0 s.

Definition GetSongs (s : SpotifyRequest) : SpotifyRequest :=
  let s := emit (UpdateStatus (query_id_ s) "Retrieving songs...") s in
  let s := emit (UpdateProgress (query_id_ s) 0) s in
  AddSongsRequest 0 0 s.

Definition ArtistsSearch (s : SpotifyRequest) : SpotifyRequest :=
  let s := emit (UpdateStatus (query_id_ s) "Searching...") s in
  let s := emit (UpdateProgress (query_id_ s) 0) s in
  AddArtistsSearchRequest 0 s.

Definition AlbumsSearch (s : SpotifyRequest) : SpotifyRequest :=
  let s := emit (UpdateStatus (query_id_ s) "Searching...") s in
  let s := emit (UpdateProgress (query_id_ s) 0) s in
  AddAlbumsSearchRequest 0 s.

Definition SongsSearch (s : SpotifyRequest) : SpotifyRequest :=
  let s := emit (UpdateStatus (query_id_ s) "Searching...") s in
  let s := emit (UpdateProgress (query_id_ s) 0) s in
  AddSongsSearchRequest 0 s.

Definition Process (s : SpotifyRequest) : SpotifyRequest :=
  if negb (Service.authenticated (service_ s)) then
    emit (UpdateStatus (query_id_ s) "Authenticating...") s
  else
    match type_ s with
    | QueryType_Artists => GetArtists s
    | QueryType_Albums => GetAlbums s
    | QueryType_Songs => GetSongs s
    | QueryType_SearchArtists => ArtistsSearch s
    | QueryType_SearchAlbums => AlbumsSearch s
    | QueryType_SearchSongs => SongsSearch s
    | _ => Error "Invalid query type." s
    end.

(** A crawl as the service starts it: a library query is constructed and
    processed; a search gets its id and text first. *)
Definition start (service : Service.SpotifyService) (app : Application)
    (network : NetworkAccessManager) (type : QueryType)
    (search : option (Z * string)) : SpotifyRequest :=
  match search with
  | None => Process (newRequest service app network type)
  | Some (query_id, search_text) =>
      Process (Search query_id search_text (newRequest service app network type))
  end.

(** *** The event loop *)

Fixpoint lookup_slot (reply : nat) (cs : list (nat * Slot)) : option Slot :=
  match cs with
  | [] => None
  | (r, slot) :: cs' =>
      if decide (r = reply) then Some slot else lookup_slot reply cs'
  end.

(** What the event loop delivers to the request: a reply has finished, or a
    reply created by [CreateRequest] reports SSL errors. *)
Inductive Event : Type :=
| Finished (reply : QNetworkReply)
| SslErrors (reply : nat) (ssl_errors : list string).

Definition isCoverSlot (slot : Slot) : bool :=
  match slot with AlbumCoverSlot _ _ _ => true | _ => false end.

(** The slot connected to the reply runs, if the reply is still connected. *)
Definition deliver (s : SpotifyRequest) (e : Event) : SpotifyRequest :=
  match e with
  | Finished reply =>
      match lookup_slot (ptr reply) (connections s) with
      | Some (ArtistsReplySlot limit offset) =>
          ArtistsReplyReceived reply limit offset s
      | Some (AlbumsReplySlot limit offset) =>
          AlbumsReplyReceived reply limit offset s
      | Some (SongsReplySlot limit offset) =>
          SongsReplyReceived reply limit offset s
      | Some (ArtistAlbumsReplySlot artist offset) =>
          ArtistAlbumsReplyReceived reply artist offset s
      | Some (AlbumSongsReplySlot artist album offset) =>
          AlbumSongsReplyReceived reply artist album offset s
      | Some (AlbumCoverSlot album_id url filename) =>
          AlbumCoverReceived reply album_id url filename s
      | None => s
      end
  | SslErrors reply ssl_errors =>
      match lookup_slot reply (connections s) with
      | Some slot => if isCoverSlot slot then s else HandleSSLErrors ssl_errors s
      | None => s
      end
  end.

Definition run (s : SpotifyRequest) (events : list Event) : SpotifyRequest :=
  fold_left deliver events s.

(** The songs and the error text of the [Results] signals emitted so far. *)
Definition results (s : SpotifyRequest) : list (Z * SongMap * string) :=
  omap (λ sig, match sig with
               | Results id songs error => Some (id, songs, error)
               | _ => None
               end) (emitted s).
End Request.

(* ===================================================================== *)
(** ** SpotifyBaseRequest: the remaining members *)
(* ===================================================================== *)

Module BaseMore.

(** [ExtractItems(const QByteArray &data)]: the items of the object in
    [data], or [QJsonValue()], which is a null value, when there is no such
    object. *)
Definition ExtractItemsOfData (data : QByteArray) : QJsonValue * list Call :=
  let '(json_obj, cs) := ExtractJsonObj data in
  if objIsEmpty json_obj then (JNull, cs)
  else
    let '(json_items, cs') := ExtractItems json_obj in
    (json_items, cs ++ cs').

End BaseMore.

(* ===================================================================== *)
(** ** SpotifyService: the rest of the login and the searches *)
(* ===================================================================== *)

Module ServiceMore.

Import Service.

Definition kOAuthAccessTokenUrl : string :=
  "https://accounts.spotify.com/api/token".

Definition kClientIDB64 : string :=
  "ZTZjY2Y2OTQ5NzY1NGE3NThjOTAxNWViYzdiMWQzMTc=".

Definition kClientSecretB64 : string :=
  "N2ZlMDMxODk1NTBlNDE3ZGI1ZWQ1MzE3ZGZlZmU2MTE=".

(** [login_errors_ += ssl_error.errorString()] for every error. *)
Definition HandleLoginSSLErrors (ssl_errors : list string)
    (s : SpotifyService) : SpotifyService :=
  fold_left (λ s ssl_error, set_login_errors_ (login_errors_ s ++ [ssl_error]) s)
    ssl_errors s.

(** The conversion to [qint64]. *)
Definition to_qint64 (z : Z) : Z := (z + 2 ^ 63) mod 2 ^ 64 - 2 ^ 63.

(** The local server that waits for the redirect of the browser: its error
    text, the query items of the URL it received ([None] when that URL is not
    valid), and the port of its own URL (-1 when it has none). *)
Record LocalRedirectServer : Type := {
  server_error : string;
  request_url : option (list (string * string));
  server_port : Z
}.

(** [QUrlQuery::hasQueryItem] and [QUrlQuery::queryItemValue], which gives
    the value of the first item of the name, or an empty string. *)
Fixpoint queryItem (items : list (string * string)) (key : string)
    : option string :=
  match items with
  | [] => None
  | (k, v) :: items' => if String.eqb k key then Some v else queryItem items' key
  end.

Definition hasQueryItem (items : list (string * string)) (key : string)
    : bool :=
  match queryItem items key with Some _ => true | None => false end.

Definition queryItemValue (items : list (string * string)) (key : string)
    : string :=
  default "" (queryItem items key).

(** [kOAuthRedirectUrl] after [setPort(port)]; a port of -1 leaves the URL
    without one. *)
Definition redirect_url_at (port : Z) : string :=
  if port =? -1 then "http://localhost/"
  else "http://localhost:" +:+ number port +:+ "/".

Section Environment.

(** [kMsecPerSec] comes from [core/timeconstants.h]; [toLongLong] is
    [QString::toLongLong] and [fromBase64] is [QByteArray::fromBase64], both
    Qt's. *)
Variable kMsecPerSec : Z.
Variable toLongLong : string → Z.
Variable fromBase64 : string → string.

(** [QVariant::toString] and [QVariant::toLongLong] of a stored value; an
    absent key gives an invalid variant, which converts to the empty string
    and to 0. *)
Definition variantToString (v : option QVariant) : string :=
  match v with
  | Some (VString s) => s
  | Some (VULongLong z) => number z
  | None => ""
  end.

Definition variantToLongLong (v : option QVariant) : Z :=
  match v with
  | Some (VString s) => toLongLong s
  | Some (VULongLong z) => to_qint64 z
  | None => 0
  end.

(** [LoadSession]; [now] is
    [QDateTime::currentDateTime().toSecsSinceEpoch()].  The time left is
    computed in [qint64]. *)
Definition LoadSession (now : Z) (s : SpotifyService) : SpotifyService :=
  let s := set_access_token_ (variantToString (settings s !! "access_token")) s in
  let s := set_refresh_token_ (variantToString (settings s !! "refresh_token")) s in
  let s := set_expires_in_
             (to_quint64 (variantToLongLong (settings s !! "expires_in"))) s in
  let s := set_login_time_
             (to_quint64 (variantToLongLong (settings s !! "login_time"))) s in
  if negb (strIsEmpty (refresh_token_ s)) then
    let time :=
      to_qint64 (to_qint64 (expires_in_ s)
                 - to_qint64 (now - to_qint64 (login_time_ s))) in
    let time := if time <? 1 then 1 else time in
    set_refresh_login_timer_
      {| active := true; interval := to_int (time * kMsecPerSec) |} s
  else s.

(** [RequestAccessToken(code, redirect_url)] on the service and the network
    access manager it sends with.  The request carries its parameters as its
    body, listed here as they are before they are percent-encoded; its
    [Authorization: Basic] header, which is built from the two constants, is
    not part of [QNetworkRequest] here. *)
Definition RequestAccessToken (code redirect_url : string)
    (sn : SpotifyService * NetworkAccessManager)
    : SpotifyService * NetworkAccessManager :=
  let '(s, network) := sn in
  let s := set_refresh_login_timer_ (stop (refresh_login_timer_ s)) s in
  let params := [("client_id", fromBase64 kClientIDB64);
                 ("client_secret", fromBase64 kClientSecretB64)] in
  let params' :=
    if negb (strIsEmpty code) && negb (strIsEmpty redirect_url) then
      Some (params ++ [("grant_type", "authorization_code"); ("code", code);
                       ("redirect_uri", redirect_url)])
    else if negb (strIsEmpty (refresh_token_ s)) && enabled_ s then
      Some (params ++ [("grant_type", "refresh_token");
                       ("refresh_token", refresh_token_ s)])
    else None in
  match params' with
  | None => (s, network)
  | Some params =>
      let '(reply, network) :=
        send {| verb := POST; target := kOAuthAccessTokenUrl; query := params;
                bearer := None |} network in
      (set_replies_ (replies_ s ++ [reply]) s, network)
  end.

(** [RequestNewAccessToken], the slot of the refresh timer. *)
Definition RequestNewAccessToken
    (sn : SpotifyService * NetworkAccessManager)
    : SpotifyService * NetworkAccessManager :=
  RequestAccessToken "" "" sn.

(** [RedirectArrived]; [server] is [server_], which is null afterwards. *)
Definition RedirectArrived (server : option LocalRedirectServer)
    (sn : SpotifyService * NetworkAccessManager)
    : option LocalRedirectServer * (SpotifyService * NetworkAccessManager) :=
  match server with
  | None => (None, sn)
  | Some server_ =>
      let sn :=
        if strIsEmpty (server_error server_) then
          match request_url server_ with
          | Some url_query =>
              if hasQueryItem url_query "error" then
                (LoginError (queryItemValue url_query "error") sn.1, sn.2)
              else if hasQueryItem url_query "code"
                      && hasQueryItem url_query "state" then
                let code := queryItemValue url_query "code" in
                RequestAccessToken code (redirect_url_at (server_port server_)) sn
              else (LoginError "Redirect missing token code or state!" sn.1, sn.2)
          | None =>
              (LoginError "Received invalid reply from web browser." sn.1, sn.2)
          end
        else (LoginError (server_error server_) sn.1, sn.2) in
      (None, sn)
  end.

End Environment.

End ServiceMore.

(* ===================================================================== *)
(** * Properties *)
(* ===================================================================== *)

(** ** [QString::arg] *)

Module QtSpec.

Import Stdlib.Strings.Ascii.

Fixpoint has_char (c : ascii) (s : string) : bool :=
  match s with
  | "" => false
  | String c' s' => Ascii.eqb c' c || has_char c s'
  end.

(** The pieces of a text without markers. *)
Fixpoint texts (s : string) : list Piece :=
  match s with
  | "" => []
  | String c s' => Text c :: texts s'
  end.

Lemma has_char_app c (x y : string) :
  has_char c (x +:+ y) = has_char c x || has_char c y.
Proof.
  induction x as [|c' x IH]; [done|].
  change (String c' x +:+ y) with (String c' (x +:+ y)).
  cbn [has_char]. by rewrite IH, orb_assoc.
Qed.

Lemma has_char_not_empty c s : has_char c s = true → s ≠ "".
Proof. by destruct s. Qed.

(** A space is never part of a marker. *)
Lemma pieces_space st s :
  has_char " " s = true → Text " " ∈ pieces st s.
Proof.
  revert st. induction s as [|c s IH]; intros st; [done|].
  cbn [has_char pieces]. intros H.
  destruct (Ascii.eqb c " ") eqn:Hc.
  - apply Ascii.eqb_eq in Hc as ->.
    destruct st; cbn; set_solver.
  - cbn [orb] in H. specialize (IH (scan st c).2 H).
    destruct (scan st c) as [ps st']. cbn [snd] in IH. set_solver.
Qed.

Lemma replaced_space m a ps :
  Text " " ∈ ps → has_char " " (replaced m a ps) = true.
Proof.
  induction ps as [|p ps IH]; [by intros ?%elem_of_nil|].
  intros Hin. apply elem_of_cons in Hin as [<-|Hin].
  - done.
  - unfold replaced in *. cbn [fold_right]. destruct p as [c|n text].
    + cbn [has_char]. rewrite (IH Hin). apply orb_true_r.
    + rewrite has_char_app, (IH Hin). apply orb_true_r.
Qed.

Lemma arg_keeps_space s a :
  has_char " " s = true → has_char " " (arg s a) = true.
Proof.
  intros H. unfold arg. destruct (lowest _); [|done].
  by apply replaced_space, pieces_space.
Qed.

(** The texts the code builds with two and with three arguments hold a
    space whatever the arguments are, so they are never empty. *)
Lemma arg2_not_empty a b : arg2 a b ≠ "".
Proof.
  apply (has_char_not_empty " "). unfold arg2. by do 2 apply arg_keeps_space.
Qed.

Lemma arg3_not_empty a b c : arg3 a b c ≠ "".
Proof.
  apply (has_char_not_empty " "). unfold arg3. by do 3 apply arg_keeps_space.
Qed.

Lemma pieces_texts (a t : string) :
  has_char "%" a = false →
  pieces Plain (a +:+ t) = texts a ++ pieces Plain t.
Proof.
  induction a as [|c a IH]; [done|].
  change (String c a +:+ t) with (String c (a +:+ t)).
  cbn [has_char pieces texts scan pending app]. intros H.
  apply orb_false_iff in H as [Hc H]. rewrite Hc. cbn [app].
  by rewrite IH.
Qed.

Lemma lowest_texts (a : string) ps : lowest (texts a ++ ps) = lowest ps.
Proof. induction a as [|c a IH]; [done|]. exact IH. Qed.

Lemma replaced_texts m b (a : string) ps :
  replaced m b (texts a ++ ps) = a +:+ replaced m b ps.
Proof.
  induction a as [|c a IH]; [done|].
  change (String c a +:+ replaced m b ps)
    with (String c (a +:+ replaced m b ps)).
  rewrite <- IH. reflexivity.
Qed.

(** When the first argument holds no [%], the text with two arguments is
    the first argument followed by the second in brackets. *)
Lemma arg2_plain a b :
  has_char "%" a = false → arg2 a b = a +:+ " (" +:+ b +:+ ")".
Proof.
  intros H. unfold arg2.
  change (arg "%1 (%2)" a) with (a +:+ " (%2)").
  unfold arg. rewrite (pieces_texts a " (%2)" H), lowest_texts.
  change (lowest (pieces Plain " (%2)")) with (Some 2%nat). cbv beta iota.
  rewrite replaced_texts. reflexivity.
Qed.

End QtSpec.

(** ** The transport layer: [SpotifyBaseRequest::GetReplyData] *)

Module BaseSpec.

(** A 401 reply whose body is the error envelope
    [{error: {status: 401, message: Invalid access token}}]. *)
Definition envelope_reply : QNetworkReply :=
  {| ptr := 0%nat; error := 204; errorString := "Host requires authentication";
     httpStatus := 401;
     readAll :=
       ByteArray false
         (Parsed (DocObject
            [("error",
              JObject [("status", JInt 401);
                       ("message", JString "Invalid access token")])]));
     mimetype := ""; mimeSupported := false; imageLoads := false; imageSaves := false |}.

(** A 401 reply whose envelope carries status 401 and the sub-status 6001 of
    an invalid session, both at the top level and in the nested object. *)
Definition session_invalid_reply : QNetworkReply :=
  {| ptr := 0%nat; error := 204; errorString := "Host requires authentication";
     httpStatus := 401;
     readAll :=
       ByteArray false
         (Parsed (DocObject
            [("status", JInt 401);
             ("sub_status", JInt 6001);
             ("message", JString "User does not have a valid session");
             ("error",
              JObject [("status", JInt 401);
                       ("sub_status", JInt 6001);
                       ("message", JString "User does not have a valid session")])]));
     mimetype := ""; mimeSupported := false; imageLoads := false; imageSaves := false |}.

(** Whenever the envelope is accepted, the text reported is built from the
    members [message] and [status] of the outer object. *)
Lemma GetReplyData_envelope_text reply json_obj obj_error :
  ¬ (error reply = NoError ∧ httpStatus reply = 200) →
  ¬ (error reply ≠ NoError ∧ error reply < 200) →
  fromJson (readAll reply) = Parsed (DocObject json_obj) →
  find json_obj "error" = Some (JObject obj_error) →
  contains obj_error "status" = true →
  contains obj_error "message" = true →
  toInt (value json_obj "status") ≠ 401 →
  GetReplyData reply =
    (noData,
     [CallError (arg3 (toString (value json_obj "message"))
                      (number (toInt (value json_obj "status"))) "0")]).
Proof.
  intros H1 H2 Hp Hf Hs Hm H401.
  assert (Hne : objIsEmpty json_obj = false) by (destruct json_obj; done).
  assert (Hne' : objIsEmpty obj_error = false).
  { destruct obj_error; [discriminate Hs | done]. }
  assert (Hc : contains json_obj "error" = true) by (unfold contains; by rewrite Hf).
  assert (Hv : value json_obj "error" = JObject obj_error) by (unfold value; by rewrite Hf).
  assert (Hg : (error reply =? NoError) && (httpStatus reply =? 200) = false).
  { apply andb_false_iff. destruct (Z.eqb_spec (error reply) NoError);
      destruct (Z.eqb_spec (httpStatus reply) 200); tauto. }
  assert (Hn : negb (error reply =? NoError) && (error reply <? 200) = false).
  { apply andb_false_iff. destruct (Z.eqb_spec (error reply) NoError);
      destruct (Z.ltb_spec (error reply) 200); simpl; tauto. }
  unfold GetReplyData. rewrite Hg, Hn, Hp.
  cbn [docIsEmpty docIsObject negb andb object].
  rewrite Hne, Hc, Hv. cbn [negb andb isObject toObject].
  rewrite Hne', Hs, Hm. cbn [negb andb].
  destruct (Z.eqb_spec (toInt (value json_obj "status")) 401) as [|_]; [done|].
  cbn [andb].
  destruct (strIsEmpty _) eqn:E; [|done].
  unfold strIsEmpty in E. apply String.eqb_eq in E.
  by apply QtSpec.arg3_not_empty in E.
Qed.

(** C5 (the code at the failing input).  For the HTTP 401 reply whose body is
    the envelope [{error: {status: 401, message: Invalid access token}}],
    [GetReplyData] returns no data and reports the single error text
    " (0) (0)": the nested object is checked for [status] and [message], but
    both are then read from the outer object, so neither the message nor the
    status of the envelope reaches the error text. *)
Theorem C5_envelope_message_not_surfaced :
  GetReplyData envelope_reply = (noData, [CallError " (0) (0)"]).
Proof. vm_compute. reflexivity. Qed.

(** No reply makes [GetReplyData] call [Deauthenticate]: [sub_status] is
    initialised to 0 and never assigned. *)
Lemma GetReplyData_never_deauthenticates reply :
  CallDeauthenticate ∉ (GetReplyData reply).2.
Proof.
  unfold GetReplyData.
  destruct (_ && _); [set_solver|].
  destruct (_ && _); [set_solver|].
  match goal with
  | |- context [let '(_, _) := ?X in _] => destruct X as [error_text status]
  end.
  replace ((status =? 401) && (0 =? 6001)) with false
    by (symmetry; apply andb_false_r).
  set_solver.
Qed.

(** C6 (the code at the failing input).  For a 401 reply whose envelope
    carries status 401 and sub-status 6001, [GetReplyData] reports the error
    and does not call [Deauthenticate]; no reply at all makes it do so. *)
Theorem C6_session_invalid_not_deauthenticated :
  (GetReplyData session_invalid_reply).2 =
    [CallError "User does not have a valid session (401) (0)"]
  ∧ ∀ reply, CallDeauthenticate ∉ (GetReplyData reply).2.
Proof.
  split; [vm_compute; reflexivity | apply GetReplyData_never_deauthenticates].
Qed.

End BaseSpec.

(** ** The token lifecycle: [SpotifyService::AccessTokenRequestFinished] *)

Module TokenSpec.

Import Service.

(** C7.  A successful token reply (no network error, HTTP 200, a JSON object)
    that has [access_token] and [expires_in] but no [refresh_token] leaves
    the refresh token in memory as it was and writes that same token back to
    the settings; the access token, the expiry and the login time are
    replaced by the values of the reply and the current time, in memory and
    in the settings. *)
Theorem C7_refresh_token_retained kMsecPerSec now reply s json_obj :
  ptr reply ∈ replies_ s →
  error reply = NoError →
  httpStatus reply = 200 →
  fromJson (readAll reply) = Parsed (DocObject json_obj) →
  contains json_obj "access_token" = true →
  contains json_obj "expires_in" = true →
  contains json_obj "refresh_token" = false →
  let s' := AccessTokenRequestFinished kMsecPerSec now reply s in
  refresh_token_ s' = refresh_token_ s
  ∧ settings s' !! "refresh_token" = Some (VString (refresh_token_ s))
  ∧ access_token_ s' = toString (value json_obj "access_token")
  ∧ settings s' !! "access_token"
      = Some (VString (toString (value json_obj "access_token")))
  ∧ expires_in_ s' = to_quint64 (toInt (value json_obj "expires_in"))
  ∧ settings s' !! "expires_in"
      = Some (VULongLong (to_quint64 (toInt (value json_obj "expires_in"))))
  ∧ login_time_ s' = to_quint64 now
  ∧ settings s' !! "login_time" = Some (VULongLong (to_quint64 now)).
Proof.
  intros Hin He Hs Hp Ha Hx Hr s'. subst s'.
  unfold AccessTokenRequestFinished.
  rewrite bool_decide_true by done. simpl.
  rewrite He, Hs. simpl. rewrite Hp. simpl.
  assert (Hne : objIsEmpty json_obj = false).
  { destruct json_obj; [discriminate Ha | done]. }
  rewrite Hne, Ha, Hx, Hr. simpl.
  destruct (0 <? _); simpl; repeat split; by simplify_map_eq.
Qed.

Definition stored_service : SpotifyService :=
  {| enabled_ := true; artistssearchlimit_ := 4; albumssearchlimit_ := 10;
     songssearchlimit_ := 10; fetchalbums_ := false;
     download_album_covers_ := true;
     access_token_ := "old"; refresh_token_ := "R"; expires_in_ := 3600;
     login_time_ := 1000;
     settings := {[ "refresh_token" := VString "R" ]};
     refresh_login_timer_ := {| active := false; interval := 0 |};
     login_errors_ := []; replies_ := [7%nat]; emitted := [] |}.

Definition token_reply : QNetworkReply :=
  {| ptr := 7%nat; error := 0; errorString := ""; httpStatus := 200;
     readAll :=
       ByteArray false
         (Parsed (DocObject [("access_token", JString "X");
                             ("expires_in", JInt 3600)]));
     mimetype := ""; mimeSupported := false; imageLoads := false; imageSaves := false |}.

Lemma C7_refresh_token_retained_witness :
  refresh_token_ (AccessTokenRequestFinished 1000 2000 token_reply stored_service)
    = "R"
  ∧ access_token_ (AccessTokenRequestFinished 1000 2000 token_reply stored_service)
    = "X".
Proof.
  pose proof (C7_refresh_token_retained 1000 2000 token_reply stored_service
                [("access_token", JString "X"); ("expires_in", JInt 3600)]) as H.
  simpl in H.
  destruct H as (H1 & _ & H3 & _).
  - apply list_elem_of_here.
  - reflexivity.
  - reflexivity.
  - reflexivity.
  - reflexivity.
  - reflexivity.
  - reflexivity.
  - split; [exact H1 | exact H3].
Defined.

End TokenSpec.

(** ** The favourites requests *)

Module FavoriteSpec.

Import Favorite.

Lemma strIsEmpty_true s : strIsEmpty s = true ↔ s = "".
Proof. unfold strIsEmpty. apply String.eqb_eq. Qed.

Lemma strIsEmpty_false s : strIsEmpty s = false ↔ s ≠ "".
Proof. unfold strIsEmpty. apply String.eqb_neq. Qed.

(** The id list collected by [AddFavorites] only ever grows by ids of songs
    that are not empty. *)
Lemma id_list_empty type (songs : SongList) :
  (∀ song, song ∈ songs → id_of type song = "") →
  fold_left
    (λ (id_list : list string) (song : Song.Song),
       if strIsEmpty (id_of type song) then id_list
       else
         let id := id_of type song in
         if negb (strIsEmpty id) && negb (bool_decide (id ∈ id_list))
         then id_list ++ [id] else id_list)
    songs [] = [].
Proof.
  induction songs as [|song songs IH]; intros Hall; [done|].
  cbn [fold_left].
  rewrite (Hall song) by apply list_elem_of_here.
  cbn. apply IH. intros song' Hin. apply Hall. by apply list_elem_of_further.
Qed.

Definition collect (type : FavoriteType) (songs : SongList)
    (m : gmap string (list Song.Song)) : gmap string (list Song.Song) :=
  fold_left
    (λ (songs_map : gmap string (list Song.Song)) (song : Song.Song),
       if strIsEmpty (id_of type song) then songs_map
       else
         let id := id_of type song in
         if negb (strIsEmpty id) then multiInsert id song songs_map
         else songs_map)
    songs m.

Lemma collect_keys type (songs : SongList) m id :
  is_Some (collect type songs m !! id) ↔
  is_Some (m !! id) ∨ (id ≠ "" ∧ ∃ song, song ∈ songs ∧ id_of type song = id).
Proof.
  revert m. induction songs as [|song songs IH]; intros m.
  - cbn. split; [by left|]. intros [H|(_ & song & Hin & _)]; [done|].
    by apply elem_of_nil in Hin.
  - unfold collect in *. cbn [fold_left]. rewrite IH. clear IH. cbv zeta.
    destruct (strIsEmpty (id_of type song)) eqn:E.
    + apply strIsEmpty_true in E. split.
      * intros [H|(Hne & song' & Hin & Hid)]; [by left|].
        right. split; [done|]. exists song'. split; [|done].
        by apply list_elem_of_further.
      * intros [H|(Hne & song' & Hin & Hid)]; [by left|].
        apply elem_of_cons in Hin as [->|Hin]; [congruence|].
        right. eauto.
    + cbn [negb]. apply strIsEmpty_false in E.
      unfold multiInsert. split.
      * intros [H|(Hne & song' & Hin & Hid)].
        -- destruct (decide (id_of type song = id)) as [Heq|Hneq].
           ++ right. split; [congruence|]. exists song.
              split; [apply list_elem_of_here|done].
           ++ left. by rewrite lookup_insert_ne in H.
        -- right. split; [done|]. exists song'. split; [|done].
           by apply list_elem_of_further.
      * intros [H|(Hne & song' & Hin & Hid)].
        -- left. destruct (decide (id_of type song = id)) as [Heq|Hneq].
           ++ subst. rewrite lookup_insert_eq. eauto.
           ++ by rewrite lookup_insert_ne.
        -- apply elem_of_cons in Hin as [->|Hin].
           ++ left. subst. rewrite lookup_insert_eq. eauto.
           ++ right. eauto.
Qed.

Lemma sortedKeys_NoDup {V} (m : gmap string V) : NoDup (sortedKeys m).
Proof.
  unfold sortedKeys. rewrite merge_sort_Permutation.
  apply NoDup_fst_map_to_list.
Qed.

Lemma elem_of_sortedKeys {V} (m : gmap string V) k :
  k ∈ sortedKeys m ↔ is_Some (m !! k).
Proof.
  unfold sortedKeys. rewrite merge_sort_Permutation.
  rewrite list_elem_of_fmap. split.
  - intros ([k' v] & -> & Hin). apply elem_of_map_to_list in Hin. eauto.
  - intros [v Hv]. exists (k, v). split; [done|]. by apply elem_of_map_to_list.
Qed.

Definition remove_request (access_token : string) (type : FavoriteType)
    (id : string) : QNetworkRequest :=
  {| verb := DELETE;
     target := kApiUrl +:+ "/" +:+ "users/" +:+ "" +:+ "/favorites/"
               +:+ FavoriteText type +:+ "/" +:+ id;
     query := []; bearer := bearer_of access_token |}.

Lemma remove_requests_sent type (m : gmap string (list Song.Song)) ids s :
  let s' := fold_left
              (λ s id, RemoveFavoritesRequest type id (multiValues m id) s)
              ids s in
  sent (network_ s') =
    sent (network_ s) ++ map (remove_request (access_token s) type) ids
  ∧ access_token s' = access_token s.
Proof.
  revert s. induction ids as [|id ids IH]; intros s; cbn.
  - by rewrite app_nil_r.
  - destruct (IH (RemoveFavoritesRequest type id (multiValues m id) s))
      as [IH1 IH2].
    cbn in IH1, IH2. rewrite IH1, IH2. split; [|done].
    unfold RemoveFavoritesRequest. cbn. by rewrite <- app_assoc.
Qed.

(** C10.  When every song handed to [AddFavorites] (to which [AddArtists]
    and [AddAlbums] delegate) or to [RemoveFavorites] (to which
    [RemoveArtists], [RemoveAlbums] and [RemoveSongs] for a list delegate) has
    an empty id for the category, the call leaves the request object as it
    was: nothing is sent, no reply is connected, and so whatever replies
    finish afterwards, the signals emitted are those that would have been
    emitted without the call.  In every case [RemoveFavorites] sends exactly
    the DELETE requests of a duplicate-free list of ids, which are the ids
    that are not empty and belong to one of the songs. *)
Theorem C10_empty_ids_send_nothing type (songs : SongList) s :
  ((∀ song, song ∈ songs → id_of type song = "") →
   AddFavorites type songs s = s
   ∧ RemoveFavorites type songs s = s
   ∧ issued s (AddFavorites type songs s) = []
   ∧ issued s (RemoveFavorites type songs s) = []
   ∧ ∀ replies,
       emitted (fold_left (λ s r, finished r s) replies (AddFavorites type songs s))
       = emitted (fold_left (λ s r, finished r s) replies s)
       ∧ emitted (fold_left (λ s r, finished r s) replies (RemoveFavorites type songs s))
         = emitted (fold_left (λ s r, finished r s) replies s))
  ∧ ∃ ids,
      NoDup ids
      ∧ (∀ id, id ∈ ids ↔
               id ≠ "" ∧ ∃ song, song ∈ songs ∧ id_of type song = id)
      ∧ issued s (RemoveFavorites type songs s)
        = map (remove_request (access_token s) type) ids.
Proof.
  assert (Hrem : ∃ ids,
      NoDup ids
      ∧ (∀ id, id ∈ ids ↔
               id ≠ "" ∧ ∃ song, song ∈ songs ∧ id_of type song = id)
      ∧ sent (network_ (RemoveFavorites type songs s))
        = sent (network_ s) ++ map (remove_request (access_token s) type) ids
      ∧ (ids = [] → RemoveFavorites type songs s = s)).
  { exists (uniqueKeys (collect type songs ∅)). split; [apply sortedKeys_NoDup|].
    split.
    - intros id. unfold uniqueKeys. rewrite elem_of_sortedKeys, collect_keys.
      rewrite lookup_empty. split.
      + intros [[? ?]|H]; [done|exact H].
      + intros H. by right.
    - split.
      + apply (remove_requests_sent type (collect type songs ∅)).
      + intros Hnil. unfold RemoveFavorites. fold (collect type songs ∅).
        by rewrite Hnil. }
  destruct Hrem as (ids & Hnd & Hids & Hsent & Hnil).
  split.
  - intros Hall.
    assert (Hadd : AddFavorites type songs s = s).
    { unfold AddFavorites. by rewrite id_list_empty. }
    assert (Hids' : ids = []).
    { destruct ids as [|id ids']; [done|].
      destruct (proj1 (Hids id)) as (Hne & song & Hin & Hid);
        [apply list_elem_of_here|].
      rewrite Hall in Hid by done. congruence. }
    specialize (Hnil Hids').
    rewrite Hadd, Hnil. unfold issued. rewrite drop_all. done.
  - exists ids. split; [done|]. split; [done|].
    unfold issued. rewrite Hsent. by rewrite drop_app_length.
Qed.

Definition idle_request : FavoriteRequest :=
  {| service_ := TokenSpec.stored_service;
     network_ := {| next_reply := 0; sent := [] |};
     replies_ := []; connections := []; emitted := [] |}.

Lemma C10_empty_ids_send_nothing_witness :
  AddFavorites FavoriteType_Albums [Song.newSong] idle_request = idle_request
  ∧ RemoveFavorites FavoriteType_Albums [Song.newSong] idle_request
    = idle_request.
Proof.
  destruct (C10_empty_ids_send_nothing FavoriteType_Albums [Song.newSong]
              idle_request) as [H _].
  destruct H as (H1 & H2 & _).
  - intros song Hin. apply list_elem_of_singleton in Hin. subst. reflexivity.
  - split; [exact H1 | exact H2].
Defined.

End FavoriteSpec.

(** ** The crawl: what every operation preserves *)

Module CrawlSafety.

Import Request.

(** No counter of requests in flight exceeds its maximum. *)
Definition caps (s : SpotifyRequest) : Prop :=
  artists_requests_active_ s ≤ kMaxConcurrentArtistsRequests
  ∧ albums_requests_active_ s ≤ kMaxConcurrentAlbumsRequests
  ∧ songs_requests_active_ s ≤ kMaxConcurrentSongsRequests
  ∧ artist_albums_requests_active_ s ≤ kMaxConcurrentArtistAlbumsRequests
  ∧ album_songs_requests_active_ s ≤ kMaxConcurrentAlbumSongsRequests
  ∧ album_covers_requests_active_ s ≤ kMaxConcurrentAlbumCoverRequests.

(** Every entry of a song map is filed under the id of its song. *)
Definition keyed (m : SongMap) : Prop :=
  ∀ k song, m !! k = Some song → Song.song_id song = k.

(** [Results] has been emitted once if the crawl is finished and not at all
    otherwise. *)
Definition once (s : SpotifyRequest) : Prop :=
  (finished_ s = false ∧ results s = [])
  ∨ (finished_ s = true ∧ ∃ r, results s = [r]).

Definition results_keyed (s : SpotifyRequest) : Prop :=
  ∀ r, r ∈ results s → keyed r.1.2.

Definition Safe (s : SpotifyRequest) : Prop :=
  caps s ∧ keyed (songs_ s) ∧ once s ∧ results_keyed s.

(** The members [Safe] depends on. *)
Definition footprint (s : SpotifyRequest) :=
  (artists_requests_active_ s, albums_requests_active_ s,
   songs_requests_active_ s, artist_albums_requests_active_ s,
   album_songs_requests_active_ s, album_covers_requests_active_ s,
   songs_ s, finished_ s, results s).

Definition footprint_but_songs (s : SpotifyRequest) :=
  (artists_requests_active_ s, albums_requests_active_ s,
   songs_requests_active_ s, artist_albums_requests_active_ s,
   album_songs_requests_active_ s, album_covers_requests_active_ s,
   finished_ s, results s).

Lemma Safe_ext s s' : footprint s' = footprint s → Safe s → Safe s'.
Proof.
  unfold footprint. intros Heq Hs. unfold Safe, caps, once, results_keyed in *.
  injection Heq as H1 H2 H3 H4 H5 H6 H7 H8 H9.
  rewrite H1, H2, H3, H4, H5, H6, H7, H8, H9. exact Hs.
Qed.

Lemma let_intro {A B} (v : A) (body : A → B) (P : B → Prop) :
  (∀ x, x = v → P (body x)) → P (let x := v in body x).
Proof. intros H. by apply H. Qed.

Lemma results_emit sig s :
  results (emit sig s) =
    results s ++ match sig with
                 | Results id songs error => [(id, songs, error)]
                 | _ => []
                 end.
Proof.
  unfold results, emit. cbn. rewrite omap_app. by destruct sig.
Qed.

Lemma emit_safe sig s :
  match sig with Results _ _ _ => False | _ => True end →
  Safe s → Safe (emit sig s).
Proof.
  intros Hsig. apply Safe_ext. unfold footprint. rewrite results_emit.
  destruct sig; [done|..]; by rewrite app_nil_r.
Qed.

Lemma keyed_empty : keyed ∅.
Proof. intros k song H. by rewrite lookup_empty in H. Qed.

Lemma keyed_insert (m : SongMap) song :
  keyed m → keyed (<[Song.song_id song := song]> m).
Proof.
  intros Hm k song' H. destruct (decide (Song.song_id song = k)) as [<-|Hne].
  - rewrite lookup_insert_eq in H. by simplify_eq.
  - rewrite lookup_insert_ne in H by done. by apply Hm.
Qed.

Lemma FinishCheck_safe s : Safe s → Safe (FinishCheck s).
Proof.
  intros (Hc & Hk & Ho & Hr). unfold FinishCheck.
  destruct (negb (finished_ s) && drained s) eqn:E; [|done].
  apply andb_true_iff in E as [Hf _]. apply negb_true_iff in Hf.
  destruct Ho as [[_ Hres]|[Hf' _]]; [|congruence].
  assert (Hgen : ∀ id m e, keyed m →
            Safe (emit (Results id m e) (set_finished_ true s))).
  { intros id m e Hm. split; [exact Hc|]. split; [exact Hk|]. split.
    - right. split; [done|]. rewrite results_emit.
      change (results (set_finished_ true s)) with (results s).
      rewrite Hres. cbn. eauto.
    - intros r. rewrite results_emit.
      change (results (set_finished_ true s)) with (results s).
      rewrite Hres. cbn. intros Hin. apply list_elem_of_singleton in Hin.
      by subst. }
  cbv zeta.
  change (no_results_ (set_finished_ true s)) with (no_results_ s).
  change (songs_ (set_finished_ true s)) with (songs_ s).
  change (errors_ (set_finished_ true s)) with (errors_ s).
  change (query_id_ (set_finished_ true s)) with (query_id_ s).
  repeat match goal with
         | |- Safe (if ?b then _ else _) => destruct b
         end; apply Hgen; first [apply keyed_empty | exact Hk].
Qed.

(** The operations that preserve [Safe]. *)
Class Preserves (f : SpotifyRequest → SpotifyRequest) : Prop :=
  preserves : ∀ s, Safe s → Safe (f s).

Lemma framed_preserves f : (∀ s, footprint (f s) = footprint s) → Preserves f.
Proof. intros Hf s. apply Safe_ext, Hf. Qed.

#[global] Hint Extern 10 (Preserves _) =>
  apply framed_preserves; intros; reflexivity : typeclass_instances.

#[global] Instance FinishCheck_preserves : Preserves FinishCheck.
Proof. exact FinishCheck_safe. Qed.

#[global] Instance emit_preserves id text : Preserves (emit (UpdateStatus id text)).
Proof. intros s. by apply emit_safe. Qed.

#[global] Instance emit_preserves_max id max :
  Preserves (emit (ProgressSetMaximum id max)).
Proof. intros s. by apply emit_safe. Qed.

#[global] Instance emit_preserves_progress id progress :
  Preserves (emit (UpdateProgress id progress)).
Proof. intros s. by apply emit_safe. Qed.

(** One step through the body of an operation: a [let] is named, a test is
    split, and an operation applied to a state is peeled off. *)
Ltac safe_step :=
  lazymatch goal with
  | |- Safe (let x := ?v in @?body x) =>
      let T := type of v in
      lazymatch T with
      | SpotifyRequest =>
          let s' := fresh "s" in
          let Hs := fresh "Hs" in
          let H := fresh "H" in
          apply (let_intro v body Safe); intros s' Hs;
          assert (H : Safe s'); [rewrite Hs; clear Hs | clear Hs]
      | _ =>
          let x' := fresh x in
          let Hx := fresh "Hx" in
          apply (let_intro v body Safe); intros x' Hx
      end
  | |- Safe (if ?b then _ else _) => destruct b
  | |- Safe (match ?x with _ => _ end) => destruct x; cbv beta iota
  | |- Safe (?set (?get ?s - 1) ?s) =>
      apply (preserves (f:=λ s', set (get s' - 1) s'))
  | |- Safe ?t =>
      first [ assumption
            | lazymatch t with ?g ?x => apply (preserves (f:=g)) end ]
  end.

Ltac safe := repeat safe_step.

(** A [let] bound to a sum of two states: the state is that of one of the
    branches. *)
Ltac sum_cases tac :=
  repeat match goal with
         | Hx : inl _ = _ |- _ =>
             cbv zeta in Hx;
             repeat match type of Hx with
                    | context [if ?b then _ else _] => destruct b
                    end;
             simplify_eq
         | Hx : inr _ = _ |- _ =>
             cbv zeta in Hx;
             repeat match type of Hx with
                    | context [if ?b then _ else _] => destruct b
                    end;
             simplify_eq
         end; tac.

Ltac unf f := cbv beta delta [f].

#[global] Instance Error_preserves error : Preserves (Error error).
Proof. intros s H. unf Error. safe. Qed.

#[global] Instance call_preserves c : Preserves (call c).
Proof. intros s H. unf call. safe. Qed.

Lemma fold_left_safe {A} (f : SpotifyRequest → A → SpotifyRequest) l s :
  (∀ x, Preserves (λ s, f s x)) → Safe s → Safe (fold_left f l s).
Proof.
  intros Hf. revert s. induction l as [|x l IH]; intros s Hs; [done|].
  cbn. apply IH. by apply (Hf x).
Qed.

#[global] Instance fold_left_preserves {A}
    (f : SpotifyRequest → A → SpotifyRequest) l :
  (∀ x, Preserves (λ s, f s x)) → Preserves (fold_left f l).
Proof. intros Hf s. by apply fold_left_safe. Qed.

#[global] Instance calls_preserves cs : Preserves (calls cs).
Proof. intros s. apply fold_left_safe. intros c. exact (call_preserves c). Qed.

#[global] Instance HandleSSLErrors_preserves errs :
  Preserves (HandleSSLErrors errs).
Proof. intros s. apply fold_left_safe. intros e. exact (Error_preserves e). Qed.

Lemma Safe_caps s s' :
  Safe s → caps s' → songs_ s' = songs_ s → finished_ s' = finished_ s →
  results s' = results s → Safe s'.
Proof.
  intros (_ & Hk & Ho & Hr) Hc H1 H2 H3.
  unfold Safe, once, results_keyed in *. by rewrite H1, H2, H3.
Qed.

Lemma Safe_songs s s' :
  Safe s → keyed (songs_ s') → footprint_but_songs s' = footprint_but_songs s →
  Safe s'.
Proof.
  unfold footprint_but_songs. intros (Hc & _ & Ho & Hr) Hk Heq.
  injection Heq as H1 H2 H3 H4 H5 H6 H7 H8.
  unfold Safe, caps, once, results_keyed in *.
  by rewrite H1, H2, H3, H4, H5, H6, H7, H8.
Qed.

(** A counter of requests in flight may always be decremented. *)
Ltac decrement :=
  intros s Hs; match goal with
  | |- Safe ?s' => refine (Safe_caps s s' Hs _ eq_refl eq_refl eq_refl)
  end;
  destruct Hs as (Hc & _); unfold caps in *; cbn; lia.

#[global] Instance decr_artists :
  Preserves (λ s, set_artists_requests_active_ (artists_requests_active_ s - 1) s).
Proof. decrement. Qed.

#[global] Instance decr_albums :
  Preserves (λ s, set_albums_requests_active_ (albums_requests_active_ s - 1) s).
Proof. decrement. Qed.

#[global] Instance decr_songs :
  Preserves (λ s, set_songs_requests_active_ (songs_requests_active_ s - 1) s).
Proof. decrement. Qed.

#[global] Instance decr_artist_albums :
  Preserves (λ s, set_artist_albums_requests_active_
                    (artist_albums_requests_active_ s - 1) s).
Proof. decrement. Qed.

#[global] Instance decr_album_songs :
  Preserves (λ s, set_album_songs_requests_active_
                    (album_songs_requests_active_ s - 1) s).
Proof. decrement. Qed.

#[global] Instance decr_album_covers :
  Preserves (λ s, set_album_covers_requests_active_
                    (album_covers_requests_active_ s - 1) s).
Proof. decrement. Qed.

(** The flush loops: a request is issued only below the maximum. *)
Ltac flush_loop IH :=
  intros s Hs; cbn;
  match goal with
  | |- Safe (if ?a <? ?m then _ else _) =>
      destruct (Z.ltb_spec a m); [|exact Hs]
  end;
  repeat match goal with
         | |- context [bool_decide ?P] => destruct (bool_decide P)
         end;
  apply IH; match goal with
  | |- Safe ?s' => refine (Safe_caps s s' Hs _ eq_refl eq_refl eq_refl)
  end;
  destruct Hs as (Hc & _); unfold caps in *; cbn;
  unfold kMaxConcurrentArtistsRequests, kMaxConcurrentAlbumsRequests,
    kMaxConcurrentSongsRequests, kMaxConcurrentArtistAlbumsRequests,
    kMaxConcurrentAlbumSongsRequests, kMaxConcurrentAlbumCoverRequests in *;
  lia.

#[global] Instance FlushArtistsRequests_loop_preserves queue :
  Preserves (FlushArtistsRequests_loop queue).
Proof. induction queue as [|request queue IH]; [by intros s|]. flush_loop IH. Qed.

#[global] Instance FlushAlbumsRequests_loop_preserves queue :
  Preserves (FlushAlbumsRequests_loop queue).
Proof. induction queue as [|request queue IH]; [by intros s|]. flush_loop IH. Qed.

#[global] Instance FlushSongsRequests_loop_preserves queue :
  Preserves (FlushSongsRequests_loop queue).
Proof. induction queue as [|request queue IH]; [by intros s|]. flush_loop IH. Qed.

#[global] Instance FlushArtistAlbumsRequests_loop_preserves queue :
  Preserves (FlushArtistAlbumsRequests_loop queue).
Proof. induction queue as [|request queue IH]; [by intros s|]. flush_loop IH. Qed.

#[global] Instance FlushAlbumSongsRequests_loop_preserves queue :
  Preserves (FlushAlbumSongsRequests_loop queue).
Proof. induction queue as [|request queue IH]; [by intros s|]. flush_loop IH. Qed.

#[global] Instance FlushAlbumCoverRequests_loop_preserves queue :
  Preserves (FlushAlbumCoverRequests_loop queue).
Proof. induction queue as [|request queue IH]; [by intros s|]. flush_loop IH. Qed.

#[global] Instance FlushArtistsRequests_preserves : Preserves FlushArtistsRequests.
Proof. intros s. apply FlushArtistsRequests_loop_preserves. Qed.

#[global] Instance FlushAlbumsRequests_preserves : Preserves FlushAlbumsRequests.
Proof. intros s. apply FlushAlbumsRequests_loop_preserves. Qed.

#[global] Instance FlushSongsRequests_preserves : Preserves FlushSongsRequests.
Proof. intros s. apply FlushSongsRequests_loop_preserves. Qed.

#[global] Instance FlushArtistAlbumsRequests_preserves :
  Preserves FlushArtistAlbumsRequests.
Proof. intros s. apply FlushArtistAlbumsRequests_loop_preserves. Qed.

#[global] Instance FlushAlbumSongsRequests_preserves :
  Preserves FlushAlbumSongsRequests.
Proof. intros s. apply FlushAlbumSongsRequests_loop_preserves. Qed.

#[global] Instance FlushAlbumCoverRequests_preserves :
  Preserves FlushAlbumCoverRequests.
Proof. intros s. apply FlushAlbumCoverRequests_loop_preserves. Qed.

#[global] Instance AddArtistsRequest_preserves offset limit :
  Preserves (AddArtistsRequest offset limit).
Proof. intros s H. unf AddArtistsRequest. safe. Qed.

#[global] Instance AddArtistsSearchRequest_preserves offset :
  Preserves (AddArtistsSearchRequest offset).
Proof. intros s H. unf AddArtistsSearchRequest. safe. Qed.

#[global] Instance AddAlbumsRequest_preserves offset limit :
  Preserves (AddAlbumsRequest offset limit).
Proof. intros s H. unf AddAlbumsRequest. safe. Qed.

#[global] Instance AddAlbumsSearchRequest_preserves offset :
  Preserves (AddAlbumsSearchRequest offset).
Proof. intros s H. unf AddAlbumsSearchRequest. safe. Qed.

#[global] Instance AddSongsRequest_preserves offset limit :
  Preserves (AddSongsRequest offset limit).
Proof. intros s H. unf AddSongsRequest. safe. Qed.

#[global] Instance AddSongsSearchRequest_preserves offset :
  Preserves (AddSongsSearchRequest offset).
Proof. intros s H. unf AddSongsSearchRequest. safe. Qed.

#[global] Instance AddArtistAlbumsRequest_preserves artist offset :
  Preserves (AddArtistAlbumsRequest artist offset).
Proof. intros s H. unf AddArtistAlbumsRequest. safe. Qed.

#[global] Instance AddAlbumSongsRequest_preserves artist album offset :
  Preserves (AddAlbumSongsRequest artist album offset).
Proof. intros s H. unf AddAlbumSongsRequest. safe. Qed.

#[global] Instance AddAlbumCoverRequest_preserves song :
  Preserves (AddAlbumCoverRequest song).
Proof. intros s H. unf AddAlbumCoverRequest. safe. Qed.

#[global] Instance GetAlbumCovers_preserves : Preserves GetAlbumCovers.
Proof.
  intros s H. unf GetAlbumCovers. safe.
Qed.

#[global] Instance AlbumCoverFinishCheck_preserves : Preserves AlbumCoverFinishCheck.
Proof. intros s H. unf AlbumCoverFinishCheck. safe. Qed.

#[global] Instance ArtistsFinishCheck_preserves limit offset artists_received :
  Preserves (ArtistsFinishCheck limit offset artists_received).
Proof.
  intros s H. unf ArtistsFinishCheck. safe.
  apply fold_left_safe; [|done]. intros request s' H'. safe.
Qed.

#[global] Instance AlbumsFinishCheck_preserves artist limit offset total received :
  Preserves (AlbumsFinishCheck artist limit offset total received).
Proof. intros s H. unf AlbumsFinishCheck. safe. Qed.

#[global] Instance SongsFinishCheck_preserves artist album limit offset total received :
  Preserves (SongsFinishCheck artist album limit offset total received).
Proof. intros s H. unf SongsFinishCheck. safe. Qed.

Lemma ParseSong_safe song json_obj album_artist album s :
  Safe s → Safe (ParseSong song json_obj album_artist album s).2.
Proof.
  intros H. unfold ParseSong.
  destruct (_ || _); cbn [snd]; [by apply Error_preserves|].
  repeat match goal with
         | |- context [let '(_, _) := ?x in _] => destruct x
         end.
  exact H.
Qed.

(** What the loop of [SongsReceived] maintains: the request is safe and the
    songs collected are all valid. *)
Lemma SongsReceived_item_safe artist album st value_item :
  Safe (sl_request st) →
  Safe (sl_request (SongsReceived_item artist album st value_item)).
Proof.
  intros H. unfold SongsReceived_item.
  destruct (negb (isObject value_item)); [by apply Error_preserves|].
  destruct (unwrapItem _); [|by apply Error_preserves].
  pose proof (ParseSong_safe Song.newSong l artist album (sl_request st) H) as HP.
  destruct (ParseSong _ _ _ _ _) as [song s']. cbn [snd] in HP.
  by destruct (negb _).
Qed.

Lemma SongsReceived_loop_safe artist album items st :
  Safe (sl_request st) →
  Safe (sl_request (fold_left (SongsReceived_item artist album) items st)).
Proof.
  revert st. induction items as [|item items IH]; intros st H; [done|].
  cbn [fold_left]. by apply IH, SongsReceived_item_safe.
Qed.

#[global] Instance SongsReceived_insert_preserves compilation multidisc song :
  Preserves (λ s, SongsReceived_insert compilation multidisc s song).
Proof.
  intros s H. unfold SongsReceived_insert. cbv zeta.
  apply (Safe_songs s); [exact H | | reflexivity].
  apply keyed_insert. by destruct H as (_ & Hk & _).
Qed.

#[global] Instance SongsReceived_preserves reply artist album limit offset :
  Preserves (SongsReceived reply artist album limit offset).
Proof.
  intros s H. unf SongsReceived. safe.
  subst st. by apply SongsReceived_loop_safe.
Qed.

#[global] Instance AlbumsReceived_item_preserves artist value_item :
  Preserves (λ s, AlbumsReceived_item artist s value_item).
Proof.
  intros s H. unf AlbumsReceived_item. safe.
  sum_cases ltac:(by apply Error_preserves).
Qed.

#[global] Instance AlbumsReceived_preserves reply artist limit offset :
  Preserves (AlbumsReceived reply artist limit offset).
Proof.
  intros s H. unf AlbumsReceived. safe.
Qed.

#[global] Instance ArtistsReplyReceived_item_preserves value_item :
  Preserves (λ s, ArtistsReplyReceived_item s value_item).
Proof. intros s H. unf ArtistsReplyReceived_item. safe. Qed.

#[global] Instance ArtistsReplyReceived_preserves reply limit offset :
  Preserves (ArtistsReplyReceived reply limit offset).
Proof.
  intros s H. unf ArtistsReplyReceived. safe.
  all: sum_cases ltac:(first [assumption | by apply Error_preserves
                             | by eapply Safe_ext; [|eassumption] ]).
Qed.

#[global] Instance AlbumsReplyReceived_preserves reply limit offset :
  Preserves (AlbumsReplyReceived reply limit offset).
Proof. intros s H. unf AlbumsReplyReceived. safe. Qed.

#[global] Instance ArtistAlbumsReplyReceived_preserves reply artist offset :
  Preserves (ArtistAlbumsReplyReceived reply artist offset).
Proof. intros s H. unf ArtistAlbumsReplyReceived. safe. Qed.

#[global] Instance SongsReplyReceived_preserves reply limit offset :
  Preserves (SongsReplyReceived reply limit offset).
Proof. intros s H. unf SongsReplyReceived. safe. Qed.

#[global] Instance AlbumSongsReplyReceived_preserves reply artist album offset :
  Preserves (AlbumSongsReplyReceived reply artist album offset).
Proof. intros s H. unf AlbumSongsReplyReceived. safe. Qed.

Lemma keyed_set_art (m : SongMap) song_id song url :
  keyed m → m !! song_id = Some song →
  keyed (<[song_id := Song.set_art_automatic url song]> m).
Proof.
  intros Hm Hl k song' H. destruct (decide (song_id = k)) as [<-|Hne].
  - rewrite lookup_insert_eq in H. simplify_eq. cbn. by apply Hm.
  - rewrite lookup_insert_ne in H by done. by apply Hm.
Qed.

#[global] Instance takeCovers_preserves album_id filename :
  Preserves (takeCovers album_id filename).
Proof.
  intros s H. unf takeCovers. safe.
  apply fold_left_safe; [|assumption]. intros song_id s' H'.
  destruct (songs_ s' !! song_id) as [song|] eqn:E; [|exact H'].
  apply (Safe_songs s'); [exact H' | | reflexivity].
  apply keyed_set_art; [|exact E]. by destruct H' as (_ & Hk & _).
Qed.

#[global] Instance AlbumCoverReceived_preserves reply album_id url filename :
  Preserves (AlbumCoverReceived reply album_id url filename).
Proof. intros s H. unf AlbumCoverReceived. safe. Qed.

#[global] Instance GetArtists_preserves : Preserves GetArtists.
Proof. intros s H. unf GetArtists. safe. Qed.

#[global] Instance GetAlbums_preserves : Preserves GetAlbums.
Proof. intros s H. unf GetAlbums. safe. Qed.

#[global] Instance GetSongs_preserves : Preserves GetSongs.
Proof. intros s H. unf GetSongs. safe. Qed.

#[global] Instance ArtistsSearch_preserves : Preserves ArtistsSearch.
Proof. intros s H. unf ArtistsSearch. safe. Qed.

#[global] Instance AlbumsSearch_preserves : Preserves AlbumsSearch.
Proof. intros s H. unf AlbumsSearch. safe. Qed.

#[global] Instance SongsSearch_preserves : Preserves SongsSearch.
Proof. intros s H. unf SongsSearch. safe. Qed.

#[global] Instance Process_preserves : Preserves Process.
Proof. intros s H. unf Process. safe. Qed.

#[global] Instance deliver_preserves e : Preserves (λ s, deliver s e).
Proof. intros s H. unf deliver. safe. Qed.

Lemma run_safe s events : Safe s → Safe (run s events).
Proof. apply fold_left_safe. intros e. apply _. Qed.

Lemma newRequest_safe service app network type :
  Safe (newRequest service app network type).
Proof.
  split; [|split; [|split]].
  - unfold caps. cbn. unfold kMaxConcurrentArtistsRequests,
      kMaxConcurrentAlbumsRequests, kMaxConcurrentSongsRequests,
      kMaxConcurrentArtistAlbumsRequests, kMaxConcurrentAlbumSongsRequests,
      kMaxConcurrentAlbumCoverRequests. lia.
  - apply keyed_empty.
  - left. done.
  - intros r H. cbn in H. by apply elem_of_nil in H.
Qed.

#[global] Instance Search_preserves query_id text : Preserves (Search query_id text).
Proof. intros s H. unf Search. safe. Qed.

Lemma start_safe service app network type search :
  Safe (start service app network type search).
Proof.
  unfold start. destruct search as [[query_id search_text]|].
  - apply Process_preserves, Search_preserves, newRequest_safe.
  - apply Process_preserves, newRequest_safe.
Qed.

End CrawlSafety.

(** ** The crawl: the queues, the song map and the cover candidate *)

Module CrawlSpec.

Import Request CrawlSafety.

(** No two entries of a song map hold songs with the same id. *)
Definition distinct_ids (m : SongMap) : Prop :=
  NoDup (map (λ kv, Song.song_id kv.2) (map_to_list m)).

Lemma keyed_distinct_ids (m : SongMap) : keyed m → distinct_ids m.
Proof.
  intros Hk. unfold distinct_ids.
  replace (map (λ kv : string * Song.Song, Song.song_id kv.2) (map_to_list m))
    with (map fst (map_to_list m)).
  - apply NoDup_fst_map_to_list.
  - apply map_ext_in. intros [k song] Hin. cbn.
    apply list_elem_of_In, elem_of_map_to_list in Hin. symmetry. by apply Hk.
Qed.

(** The song as the second loop of [SongsReceived] files it. *)
Definition adjusted (compilation multidisc : bool) (song : Song.Song)
    : Song.Song :=
  let song := if compilation
              then Song.set_compilation_detected true song else song in
  if negb multidisc then Song.set_disc 0 song else song.

Lemma adjusted_song_id compilation multidisc song :
  Song.song_id (adjusted compilation multidisc song) = Song.song_id song.
Proof. unfold adjusted. by destruct compilation, multidisc. Qed.

(** A parsed song is inserted under its song id: afterwards that id maps to
    the new song, the other entries are as before, and when the id was
    present already the map has not grown. *)
Lemma SongsReceived_insert_files compilation multidisc s song :
  songs_ (SongsReceived_insert compilation multidisc s song) !! Song.song_id song
  = Some (adjusted compilation multidisc song)
  ∧ (∀ k, k ≠ Song.song_id song →
          songs_ (SongsReceived_insert compilation multidisc s song) !! k
          = songs_ s !! k)
  ∧ (is_Some (songs_ s !! Song.song_id song) →
     size (songs_ (SongsReceived_insert compilation multidisc s song))
     = size (songs_ s)).
Proof.
  unfold SongsReceived_insert. cbv zeta.
  fold (adjusted compilation multidisc song).
  cbn. rewrite adjusted_song_id. split; [apply lookup_insert_eq|].
  split.
  - intros k Hne. by apply lookup_insert_ne.
  - intros [old Hold].
    rewrite <- (insert_id _ _ _ Hold) at 2.
    rewrite <- (insert_delete_eq (songs_ s)).
    rewrite <- (insert_delete_eq (songs_ s) (Song.song_id song) old).
    rewrite !map_size_insert_None by apply lookup_delete_eq. done.
Qed.
















(** An image that the loop accepts: an object with [url], [width] and
    [height] whose width and height both exceed 300. *)
Definition acceptable (value : QJsonValue) : bool :=
  isObject value
  && negb (objIsEmpty (toObject value))
  && contains (toObject value) "url"
  && contains (toObject value) "width"
  && contains (toObject value) "height"
  && (300 <? toInt (Qt.value (toObject value) "width"))
  && (300 <? toInt (Qt.value (toObject value) "height")).

Definition image_url (value : QJsonValue) : string :=
  toString (Qt.value (toObject value) "url").


(** The candidate the loop computes: the url of the last acceptable image. *)
Definition last_acceptable (array_images : QJsonArray) : option string :=
  image_url <$> last (filter (λ v, acceptable v = true) array_images).

Lemma coverFromImages_step cover_url value :
  coverFromImages [value] cover_url
  = if acceptable value then image_url value else cover_url.
Proof.
  unfold coverFromImages, acceptable, image_url. cbn.
  destruct (isObject value); [|done]. cbn.
  destruct (objIsEmpty _); [done|]. cbn.
  destruct (contains _ "url"); [|done]. cbn.
  destruct (contains _ "width"); [|done]. cbn.
  destruct (contains _ "height"); [|done]. cbn.
  rewrite !Z.leb_antisym.
  by destruct (300 <? toInt (Qt.value (toObject value) "width")),
    (300 <? toInt (Qt.value (toObject value) "height")).
Qed.

Lemma coverFromImages_cons value array_images cover_url :
  coverFromImages (value :: array_images) cover_url
  = coverFromImages array_images (coverFromImages [value] cover_url).
Proof. reflexivity. Qed.

Lemma coverFromImages_last array_images cover_url :
  coverFromImages array_images cover_url
  = default cover_url (last_acceptable array_images).
Proof.
  revert cover_url. induction array_images as [|value rest IH];
    intros cover_url; [done|].
  rewrite coverFromImages_cons, IH, coverFromImages_step.
  unfold last_acceptable. rewrite filter_cons.
  destruct (acceptable value) eqn:E.
  - rewrite decide_True by done.
    destruct (filter _ rest) as [|v vs] eqn:Ef; [done|].
    rewrite (last_cons value), !(last_cons v). by destruct (last vs).
  - by rewrite decide_False by congruence.
Qed.







(** *** Concrete crawls *)

Definition a_service (fetchalbums : bool) : Service.SpotifyService :=
  {| Service.enabled_ := true; Service.artistssearchlimit_ := 4;
     Service.albumssearchlimit_ := 10; Service.songssearchlimit_ := 10;
     Service.fetchalbums_ := fetchalbums;
     Service.download_album_covers_ := true;
     Service.access_token_ := "token"; Service.refresh_token_ := "refresh";
     Service.expires_in_ := 3600; Service.login_time_ := 1000;
     Service.settings := ∅;
     Service.refresh_login_timer_ :=
       {| Service.active := true; Service.interval := 3600000 |};
     Service.login_errors_ := []; Service.replies_ := [];
     Service.emitted := [] |}.

Definition an_app : Application :=
  {| CoverFilePath := λ song, "/covers/" +:+ Song.album_id song +:+ ".jpg";
     removeTitleMisc := λ title, title |}.

Definition a_network : NetworkAccessManager :=
  {| next_reply := 0; sent := [] |}.

(** A reply with HTTP status 200 whose body is the JSON object [json_obj]. *)
Definition ok_reply (reply : nat) (json_obj : QJsonObject) : QNetworkReply :=
  {| ptr := reply; error := NoError; errorString := ""; httpStatus := 200;
     readAll := ByteArray false (Parsed (DocObject json_obj));
     mimetype := ""; mimeSupported := false; imageLoads := false;
     imageSaves := false |}.

Definition a_page (offset total : Z) (items : QJsonArray) : QJsonObject :=
  [("limit", JInt 10); ("offset", JInt offset); ("total", JInt total);
   ("items", JArray items)].


Definition a_track (id name : string) : QJsonValue :=
  JObject [("type", JString "track"); ("id", JString id);
           ("name", JString name); ("uri", JString ("spotify:track:" +:+ id));
           ("duration_ms", JInt 1000); ("track_number", JInt 1);
           ("disc_number", JInt 1); ("explicit", JBool false)].

(** The reply to an image download that succeeds. *)
Definition cover_reply (reply : nat) : QNetworkReply :=
  {| ptr := reply; error := NoError; errorString := ""; httpStatus := 200;
     readAll := ByteArray false (ParseError "illegal value");
     mimetype := "image/jpeg"; mimeSupported := true; imageLoads := true;
     imageSaves := true |}.

(** A library crawl of the songs: one page with two tracks of the same id,
    then the cover of their album. *)
Definition songs_events : list Event :=
  [Finished (ok_reply 0 (a_page 0 2 [a_track "t1" "first"; a_track "t1" "second"]));
   Finished (cover_reply 1)].

Definition songs_crawl : SpotifyRequest :=
  run (start (a_service false) an_app a_network QueryType_Songs None)
    songs_events.


(** A request object whose songs queue holds a descriptor while no songs
    request is in flight. *)
Definition stranded : SpotifyRequest :=
  set_songs_requests_queue_ [{| offset := 50; limit := 0 |}]
    (newRequest (a_service false) an_app a_network QueryType_Songs).

(** C9 (the code at the failing input).  With a descriptor in the songs queue
    and no songs request in flight, [SongsFinishCheck] (here for a page that
    adds no further page) finds the queue not empty and the counter below
    the maximum and calls [FlushAlbumSongsRequests]: the descriptor stays in
    the songs queue, nothing is sent and nothing is connected, so the crawl
    cannot finish; [FlushSongsRequests] on the same state sends the request
    and empties the queue. *)
Theorem C9_songs_queue_not_flushed :
  let s := SongsFinishCheck noArtist noAlbum 0 0 0 0 stranded in
  songs_requests_queue_ s = [{| offset := 50; limit := 0 |}]
  ∧ songs_requests_active_ s = 0
  ∧ sent (network_ s) = []
  ∧ connections s = []
  ∧ finished_ s = false
  ∧ songs_requests_queue_ (FlushSongsRequests stranded) = []
  ∧ length (sent (network_ (FlushSongsRequests stranded))) = 1%nat.
Proof. vm_compute. repeat split. Qed.



(** The outcome [FinishCheck] reports for a state. *)
Definition outcome (s : SpotifyRequest) : Z * SongMap * string :=
  if no_results_ s && mapIsEmpty (songs_ s) then
    (query_id_ s, ∅, if IsSearch s then "No match." else "")
  else if mapIsEmpty (songs_ s) && listIsEmpty (errors_ s) then
    (query_id_ s, songs_ s, "Unknown error")
  else (query_id_ s, songs_ s, ErrorsToHTML (errors_ s)).

Lemma FinishCheck_results s :
  finished_ s = false → drained s = true →
  results (FinishCheck s) = results s ++ [outcome s]
  ∧ finished_ (FinishCheck s) = true.
Proof.
  intros Hf Hd. unfold FinishCheck, outcome. rewrite Hf, Hd. cbn [negb andb].
  cbv zeta.
  change (no_results_ (set_finished_ true s)) with (no_results_ s).
  change (songs_ (set_finished_ true s)) with (songs_ s).
  change (errors_ (set_finished_ true s)) with (errors_ s).
  change (query_id_ (set_finished_ true s)) with (query_id_ s).
  change (IsSearch (set_finished_ true s)) with (IsSearch s).
  repeat match goal with
         | |- context [if ?b then _ else _] => destruct b
         end;
    rewrite results_emit; done.
Qed.



(** *** The first page of the top tier *)

(** The page the slot of the top tier reads from the body of a reply: the
    object under [key] when there is one, the body itself otherwise. *)
Definition nested (key : string) (json_obj : QJsonObject) : QJsonObject :=
  if contains json_obj key && isObject (value json_obj key)
  then toObject (value json_obj key) else json_obj.

(** A page at offset 0 that has all its members and no items. *)
Definition empty_page (page : QJsonObject) : Prop :=
  contains page "limit" = true ∧ contains page "offset" = true
  ∧ contains page "total" = true ∧ contains page "items" = true
  ∧ value page "items" = JArray [] ∧ toInt (value page "offset") = 0.

(** A page at [offset] that has all its members and the items [items]. *)
Definition page_of (page : QJsonObject) (offset : Z) (items : QJsonArray)
    : Prop :=
  contains page "limit" = true ∧ contains page "offset" = true
  ∧ contains page "total" = true ∧ contains page "items" = true
  ∧ value page "items" = JArray items ∧ toInt (value page "offset") = offset.

(** The body of the reply to the first request of a crawl is an empty first
    page of the top tier. *)
Definition empty_first_page (type : QueryType) (fetchalbums : bool)
    (json_obj : QJsonObject) : Prop :=
  match type with
  | QueryType_Artists | QueryType_SearchArtists =>
      ∃ page, contains json_obj "artists" = true
              ∧ value json_obj "artists" = JObject page ∧ empty_page page
  | QueryType_Albums | QueryType_SearchAlbums =>
      empty_page (nested "albums" json_obj)
  | QueryType_Songs => empty_page (nested "tracks" json_obj)
  | QueryType_SearchSongs =>
      if fetchalbums then empty_page (nested "albums" json_obj)
      else empty_page (nested "tracks" json_obj)
  | _ => False
  end.

Definition is_search (type : QueryType) : bool :=
  match type with
  | QueryType_SearchArtists | QueryType_SearchAlbums | QueryType_SearchSongs =>
      true
  | _ => false
  end.

Definition id_of_search (search : option (Z * string)) : Z :=
  match search with Some (query_id, _) => query_id | None => -1 end.

(** The reply arrived without error, with HTTP status 200 and a body that
    parses to the non-empty JSON object [json_obj]. *)
Definition ok_reply_with (reply : QNetworkReply) (json_obj : QJsonObject) : Prop :=
  error reply = NoError ∧ httpStatus reply = 200
  ∧ isEmpty (readAll reply) = false
  ∧ fromJson (readAll reply) = Parsed (DocObject json_obj)
  ∧ objIsEmpty json_obj = false.

(** What every slot does first with its reply: the reply leaves [replies_]
    and is disconnected. *)
Definition detach (reply : nat) (s : SpotifyRequest) : SpotifyRequest :=
  disconnect reply (set_replies_ (removeAll reply (replies_ s)) s).

Section FirstPage.

#[local] Arguments contains : simpl never.
#[local] Arguments value : simpl never.
#[local] Arguments toInt : simpl never.
#[local] Arguments number : simpl never.
#[local] Arguments String.append : simpl never.
#[local] Arguments bearer_of : simpl never.
#[local] Arguments page_params : simpl never.
#[local] Arguments results : simpl never.
#[local] Arguments lookup_slot : simpl never.
#[local] Arguments values : simpl never.
#[local] Arguments calls : simpl never.
#[local] Arguments FinishCheck : simpl never.
#[local] Arguments ArtistsFinishCheck : simpl never.
#[local] Arguments AlbumsFinishCheck : simpl never.
#[local] Arguments SongsFinishCheck : simpl never.
#[local] Arguments GetAlbumCovers : simpl never.
#[local] Arguments Error : simpl never.

Lemma lookup_slot_here r slot cs : lookup_slot r ((r, slot) :: cs) = Some slot.
Proof. unfold lookup_slot. by rewrite decide_True. Qed.

Lemma calls_nil s : calls [] s = s.
Proof. reflexivity. Qed.

Lemma values_empty {V} : values (∅ : gmap string V) = [].
Proof. reflexivity. Qed.

(** Symbolic evaluation of a handler on a state built from [newRequest]. *)
Ltac sym_step :=
  first
    [ match goal with
      | H : ?l = _ |- context [?l] => rewrite H
      end
    | rewrite lookup_slot_here
    | rewrite values_empty
    | rewrite calls_nil
    | progress cbn
    | rewrite bool_decide_true by (done || set_solver)
    | rewrite bool_decide_false by (done || set_solver)
    | progress unfold mapIsEmpty
    | rewrite bool_decide_false by (by intros [?|[?|?]])
    | rewrite bool_decide_true by (by (left + (right; left) + (right; right)))
    | rewrite bool_decide_false by (by intros [?|[?|[? ?]]])
    | rewrite bool_decide_false by (by intros [?|?])
    | progress change (1 - 1) with 0
    | rewrite decide_False by (intros ?; congruence)
    | rewrite decide_True by congruence
    | progress rewrite ?Z.add_0_l, ?Z.add_0_r, ?Z.ltb_irrefl, ?Z.leb_refl,
        ?Z.eqb_refl, ?andb_false_r, ?andb_true_r, ?orb_true_r, ?orb_false_r ].

Ltac sym := repeat sym_step.

Lemma ArtistsReplyReceived_empty reply json_obj page limit s :
  ok_reply_with reply json_obj →
  contains json_obj "artists" = true → value json_obj "artists" = JObject page →
  empty_page page →
  ptr reply ∈ replies_ s → finished_ s = false →
  ArtistsReplyReceived reply limit 0 s
  = let s := detach (ptr reply) s in
    let s := set_artists_requests_active_ (artists_requests_active_ s - 1) s in
    let s := set_artists_total_ (toInt (value page "total")) s in
    let s := emit (ProgressSetMaximum (query_id_ s) (artists_total_ s)) s in
    let s := emit (UpdateProgress (query_id_ s) (artists_received_ s)) s in
    ArtistsFinishCheck 0 0 0 (set_no_results_ true s).
Proof.
  intros (He & Hs & Hne & Hj & Hjo) Hc Hv (Hl & Ho & Ht & Hci & Hi & Hoff) Hin Hf.
  destruct reply as [rid err errS st body mt ms il isv].
  cbn in He, Hs, Hne, Hj, Hin. subst err st.
  unfold ArtistsReplyReceived, detach; sym.
  unfold ExtractJsonObj; sym.
  unfold ExtractItems; sym.
  reflexivity.
Qed.

Lemma AlbumsReceived_empty reply json_obj artist limit s :
  ok_reply_with reply json_obj →
  empty_page (nested "albums" json_obj) →
  ptr reply ∈ replies_ s → finished_ s = false →
  AlbumsReceived reply artist limit 0 s
  = let s := detach (ptr reply) s in
    let s :=
      if bool_decide (type_ s = QueryType_Albums ∨ type_ s = QueryType_SearchAlbums
                      ∨ (type_ s = QueryType_SearchSongs ∧ fetchalbums_ s = true))
      then set_no_results_ true s else s in
    AlbumsFinishCheck artist 0 0 0 0 s.
Proof.
  intros (He & Hs & Hne & Hj & Hjo) Hpage Hin Hf.
  destruct reply as [rid err errS st body mt ms il isv].
  cbn in He, Hs, Hne, Hj, Hin. subst err st.
  unfold nested in Hpage.
  unfold AlbumsReceived, detach; sym.
  unfold ExtractJsonObj; sym.
  destruct (contains json_obj "albums" && isObject (value json_obj "albums"));
    destruct Hpage as (Hl & Ho & Ht & Hci & Hi & Hoff).
  all: unfold ExtractItems; sym.
  all: destruct (bool_decide _); reflexivity.
Qed.

Lemma SongsReceived_empty reply json_obj artist album limit s :
  ok_reply_with reply json_obj →
  empty_page (nested "tracks" json_obj) →
  ptr reply ∈ replies_ s → finished_ s = false →
  SongsReceived reply artist album limit 0 s
  = let s := detach (ptr reply) s in
    let s :=
      if bool_decide (type_ s = QueryType_Songs ∨ type_ s = QueryType_SearchSongs)
      then set_no_results_ true s else s in
    SongsFinishCheck artist album limit 0
      (toInt (value (nested "tracks" json_obj) "total")) 0 s.
Proof.
  intros (He & Hs & Hne & Hj & Hjo) Hpage Hin Hf.
  destruct reply as [rid err errS st body mt ms il isv].
  cbn in He, Hs, Hne, Hj, Hin. subst err st.
  unfold nested in *.
  unfold SongsReceived, detach; sym.
  unfold ExtractJsonObj; sym.
  destruct (contains json_obj "tracks" && isObject (value json_obj "tracks"));
    destruct Hpage as (Hl & Ho & Ht & Hci & Hi & Hoff).
  all: unfold ExtractItems; sym.
  all: destruct (bool_decide _); reflexivity.
Qed.

(** A page of tracks that is read: the first loop goes over its items, the
    second files the songs the first collected, and then the tier is
    checked. *)
Lemma SongsReceived_page reply json_obj artist album limit offset items s :
  ok_reply_with reply json_obj →
  page_of (nested "tracks" json_obj) offset items → items ≠ [] →
  ptr reply ∈ replies_ s → finished_ s = false →
  SongsReceived reply artist album limit offset s
  = let s := detach (ptr reply) s in
    let st :=
      fold_left (SongsReceived_item artist album) items
        {| sl_request := s; sl_songs := []; sl_compilation := false;
           sl_multidisc := false; sl_songs_received := 0 |} in
    let s :=
      fold_left (SongsReceived_insert (sl_compilation st) (sl_multidisc st))
        (sl_songs st) (sl_request st) in
    SongsFinishCheck artist album limit offset
      (toInt (value (nested "tracks" json_obj) "total"))
      (sl_songs_received st) s.
Proof.
  intros (He & Hs & Hne & Hj & Hjo) (Hl & Ho & Ht & Hci & Hi & Hoff) Hitems
    Hin Hf.
  destruct reply as [rid err errS st body mt ms il isv].
  cbn in He, Hs, Hne, Hj, Hin. subst err st.
  assert (Hbody : ExtractJsonObj body = (json_obj, [])).
  { unfold ExtractJsonObj. rewrite Hj. cbn [docIsEmpty docIsObject negb object].
    by rewrite Hjo. }
  assert (Hext : ExtractItems (nested "tracks" json_obj) = (JArray items, [])).
  { unfold ExtractItems. by rewrite Hci, Hi. }
  unfold SongsReceived, detach. cbn [ptr].
  rewrite bool_decide_true by exact Hin. cbn [negb].
  unfold GetReplyData. cbn [error httpStatus readAll].
  change ((NoError =? NoError) && (200 =? 200)) with true.
  cbv beta iota zeta. rewrite calls_nil.
  change (finished_ (disconnect rid (set_replies_ _ s))) with (finished_ s).
  rewrite Hf, Hne, Hbody. cbv beta iota zeta. rewrite calls_nil, Hjo.
  fold (nested "tracks" json_obj).
  rewrite Hl, Ho, Ht, Hci. cbn [negb orb]. rewrite Hoff, Z.eqb_refl.
  cbn [negb]. rewrite Hext. cbv beta iota zeta. rewrite calls_nil.
  cbn [isArray toArray negb].
  destruct items as [|item items]; [done|]. reflexivity.
Qed.

Lemma FinishCheck_fires s :
  finished_ s = false → drained s = true →
  FinishCheck s
  = emit (Results (outcome s).1.1 (outcome s).1.2 (outcome s).2)
      (set_finished_ true s).
Proof.
  intros Hf Hd. unfold FinishCheck, outcome. rewrite Hf, Hd. cbn [negb andb].
  cbv zeta.
  change (no_results_ (set_finished_ true s)) with (no_results_ s).
  change (songs_ (set_finished_ true s)) with (songs_ s).
  change (errors_ (set_finished_ true s)) with (errors_ s).
  change (query_id_ (set_finished_ true s)) with (query_id_ s).
  change (IsSearch (set_finished_ true s)) with (IsSearch s).
  repeat match goal with
         | |- context [if ?b then _ else _] => destruct b
         end; reflexivity.
Qed.

Lemma ArtistsFinishCheck_idle s :
  finished_ s = false → artists_requests_queue_ s = [] →
  artists_requests_active_ s = 0 → artist_albums_requests_pending_ s = ∅ →
  artist_albums_requested_ s = 0 →
  ArtistsFinishCheck 0 0 0 s
  = FinishCheck (set_artist_albums_requests_pending_ ∅ s).
Proof.
  intros Hf Hq Ha Hp Hr. unfold ArtistsFinishCheck. sym.
  destruct (artists_received_ s <? artists_total_ s); sym; reflexivity.
Qed.

Lemma AlbumsFinishCheck_idle artist s :
  finished_ s = false → albums_requests_queue_ s = [] →
  albums_requests_active_ s = 0 → artist_albums_requests_queue_ s = [] →
  artist_albums_requests_active_ s = 0 → album_songs_requests_pending_ s = ∅ →
  album_songs_requested_ s = 0 →
  AlbumsFinishCheck artist 0 0 0 0 s
  = FinishCheck (set_album_songs_requests_pending_ ∅ s).
Proof.
  intros Hf Hq Ha Hq' Ha' Hp Hr. unfold AlbumsFinishCheck. sym. reflexivity.
Qed.

Lemma SongsFinishCheck_idle artist album limit total s :
  finished_ s = false → songs_requests_queue_ s = [] →
  album_songs_requests_queue_ s = [] → album_cover_requests_queue_ s = [] →
  songs_ s = ∅ →
  SongsFinishCheck artist album limit 0 total 0 s = FinishCheck s
  ∨ SongsFinishCheck artist album limit 0 total 0 s
    = FinishCheck
        (emit (UpdateProgress (query_id_ s) 0)
           (emit (ProgressSetMaximum (query_id_ s) (album_covers_requested_ s))
              (emit (UpdateStatus (query_id_ s)
                       ((if album_covers_requested_ s =? 1
                         then "Retrieving album cover for "
                         else "Retrieving album covers for ")
                        +:+ number (album_covers_requested_ s)
                        +:+ (if album_covers_requested_ s =? 1
                             then " album..." else " albums..."))) s))).
Proof.
  intros Hf Hq Hq' Hqc Hs. unfold SongsFinishCheck. sym.
  assert (Hpage : (if (limit =? 0) || (0 <? limit) then s else s) = s)
    by by destruct ((limit =? 0) || (0 <? limit)).
  rewrite Hpage. sym.
  match goal with
  | |- context [if ?b then GetAlbumCovers s else s] => destruct b
  end; [right|by left].
  unfold GetAlbumCovers, FlushAlbumCoverRequests. sym.
  destruct (album_covers_requested_ s =? 1); reflexivity.
Qed.

Lemma results_if (c b : bool) s1 s2 r :
  c = b → results (if b then s1 else s2) = r →
  results (if c then s1 else s2) = r.
Proof. by intros ->. Qed.

Lemma results_fires s :
  finished_ s = false → drained s = true →
  results (FinishCheck s) = results s ++ [outcome s].
Proof. intros Hf Hd. by apply FinishCheck_results. Qed.

Ltac vm := vm_compute; reflexivity.

Ltac tested b :=
  apply (results_if _ b); [first [vm | vm_compute; assumption]|];
  lazymatch goal with
  | |- results (if true then ?s1 else _) = ?r => change (results s1 = r)
  | |- results (if false then _ else ?s2) = ?r => change (results s2 = r)
  | |- _ => idtac
  end.

Ltac in_flight Hp :=
  match goal with
  | |- _ ∈ ?l =>
      match type of Hp with
      | _ = ?r => replace l with [r] by vm
      end
  end; rewrite Hp; by left.

Lemma Process_authenticated s :
  Service.authenticated (service_ s) = true →
  Process s = match type_ s with
              | QueryType_Artists => GetArtists s
              | QueryType_Albums => GetAlbums s
              | QueryType_Songs => GetSongs s
              | QueryType_SearchArtists => ArtistsSearch s
              | QueryType_SearchAlbums => AlbumsSearch s
              | QueryType_SearchSongs => SongsSearch s
              | _ => Error "Invalid query type." s
              end.
Proof. intros H. unfold Process. by rewrite H. Qed.

(** X1: when the reply to the first request of a crawl is an empty first
    page of the top tier (artists, albums or tracks; albums for a song search
    that fetches albums), the crawl ends with that reply and reports one
    result without songs, whose text is "No match." for a search and empty
    for a library query. *)
Theorem empty_first_page_reports_no_match service app network type search
    reply json_obj :
  Service.authenticated service = true →
  ptr reply = next_reply network →
  ok_reply_with reply json_obj →
  empty_first_page type (Service.fetchalbums_ service) json_obj →
  results (run (start service app network type search) [Finished reply])
  = [(id_of_search search, ∅, if is_search type then "No match." else "")].
Proof.
  intros Ha Hp Hok Hpage.
  unfold start, run, fold_left, deliver.
  destruct type; try (by destruct Hpage); cbn [is_search];
    destruct search as [[query_id search_text]|];
    rewrite Process_authenticated by exact Ha;
    cbn [type_ newRequest Search set_search_text_ set_query_id_ id_of_search].
  all: rewrite Hp.
  all: match goal with
       | |- context [lookup_slot ?r (connections ?s)] =>
           let c := eval vm_compute in (connections s) in
           replace (connections s) with c by vm
       end; rewrite lookup_slot_here.
  1-2: destruct Hpage as (page & Hc & Hv & Hpage).
  1-2: erewrite ArtistsReplyReceived_empty;
    [|exact Hok|exact Hc|exact Hv|exact Hpage|in_flight Hp|vm].
  1-2: cbv zeta; rewrite ArtistsFinishCheck_idle by vm.
  1-2: rewrite results_fires by vm; vm.
  1-2: unfold AlbumsReplyReceived.
  1-2: erewrite AlbumsReceived_empty; [|exact Hok|exact Hpage|in_flight Hp|vm].
  1-2: cbv zeta; rewrite bool_decide_true by (left; vm).
  1-2: rewrite AlbumsFinishCheck_idle by vm.
  1-2: rewrite FinishCheck_fires by vm; tested false.
  1-2: rewrite results_emit; vm.
  1-2: unfold SongsReplyReceived; tested false.
  1-2: erewrite SongsReceived_empty; [|exact Hok|exact Hpage|in_flight Hp|vm].
  1-2: cbv zeta; rewrite bool_decide_true by (left; vm).
  1-2: match goal with
       | |- results (SongsFinishCheck ?a ?b ?l 0 ?t 0 ?s) = _ =>
           destruct (SongsFinishCheck_idle a b l t s) as [E|E];
           [vm..| |]; rewrite E
       end.
  1-4: rewrite results_fires by vm; vm.
  1-2: destruct Hpage as (page & Hc & Hv & Hpage).
  1-2: erewrite ArtistsReplyReceived_empty;
    [|exact Hok|exact Hc|exact Hv|exact Hpage|in_flight Hp|vm].
  1-2: cbv zeta; rewrite ArtistsFinishCheck_idle by vm.
  1-2: rewrite results_fires by vm; vm.
  1-2: unfold AlbumsReplyReceived.
  1-2: erewrite AlbumsReceived_empty; [|exact Hok|exact Hpage|in_flight Hp|vm].
  1-2: cbv zeta; rewrite bool_decide_true by (right; left; vm).
  1-2: rewrite AlbumsFinishCheck_idle by vm.
  1-2: rewrite FinishCheck_fires by vm; tested false.
  1-2: rewrite results_emit; vm.
  all: unfold SongsReplyReceived, empty_first_page in Hpage |- *.
  all: destruct (Service.fetchalbums_ service) eqn:Hfa.
  all: [> tested true | tested false | tested true | tested false].
  1,3: erewrite AlbumsReceived_empty; [|exact Hok|exact Hpage|in_flight Hp|vm].
  1-2: cbv zeta;
    rewrite bool_decide_true by (right; right; split; [vm|vm_compute; exact Hfa]).
  1-2: rewrite AlbumsFinishCheck_idle by vm.
  1-2: rewrite results_fires by vm; vm.
  1-2: erewrite SongsReceived_empty; [|exact Hok|exact Hpage|in_flight Hp|vm].
  1-2: cbv zeta; rewrite bool_decide_true by (right; vm).
  1-2: match goal with
       | |- results (SongsFinishCheck ?a ?b ?l 0 ?t 0 ?s) = _ =>
           destruct (SongsFinishCheck_idle a b l t s) as [E|E];
           [vm..| |]; rewrite E
       end.
  all: rewrite results_fires by vm; vm.
Qed.

End FirstPage.

Lemma empty_first_page_reports_no_match_witness :
  results
    (run (start (a_service false) an_app a_network QueryType_SearchAlbums
            (Some (7, "none")))
       [Finished (ok_reply 0 [("albums", JObject (a_page 0 0 []))])])
  = [(7, ∅, "No match.")].
Proof.
  apply (empty_first_page_reports_no_match (a_service false) an_app a_network
           QueryType_SearchAlbums (Some (7, "none"))
           (ok_reply 0 [("albums", JObject (a_page 0 0 []))])
           [("albums", JObject (a_page 0 0 []))]).
  - reflexivity.
  - reflexivity.
  - repeat split; reflexivity.
  - repeat split; reflexivity.
Defined.

(** *** The songs of a page *)

(** The keys [ParseSong] asks of a track. *)
Definition track_keys : list string :=
  ["type"; "id"; "name"; "uri"; "duration_ms"; "track_number"; "disc_number";
   "explicit"].

Definition is_track (json_obj : QJsonObject) : bool :=
  forallb (contains json_obj) track_keys.

(** The song the first loop of [SongsReceived] collects for an item of the
    page, if it collects one: the item is an object, what it wraps is an
    object, and [ParseSong] makes a valid song of it. *)
Definition track_song (artist : Artist) (album : Album) (s : SpotifyRequest)
    (value_item : QJsonValue) : option Song.Song :=
  if negb (isObject value_item) then None else
  match unwrapItem (toObject value_item) with
  | None => None
  | Some obj_item =>
      let song := (ParseSong Song.newSong obj_item artist album s).1 in
      if negb (Song.is_valid song) then None else Some song
  end.

(** The songs the first loop collects for the items of a page, in the order
    of the items. *)
Definition page_songs (artist : Artist) (album : Album) (s : SpotifyRequest)
    (items : QJsonArray) : SongList :=
  omap (track_song artist album s) items.

(** [s] has the song map, the application and the flag [no_results_] of
    [s0]. *)
Definition Filed (s0 s : SpotifyRequest) : Prop :=
  songs_ s = songs_ s0 ∧ app_ s = app_ s0 ∧ no_results_ s = no_results_ s0.

Class Files (f : SpotifyRequest → SpotifyRequest) : Prop :=
  files : ∀ s0 s, Filed s0 s → Filed s0 (f s).

Lemma Filed_refl s : Filed s s.
Proof. by repeat split. Qed.

Lemma Filed_ext s0 s s' :
  songs_ s' = songs_ s → app_ s' = app_ s → no_results_ s' = no_results_ s →
  Filed s0 s → Filed s0 s'.
Proof. intros Hm Ha Hn (H1 & H2 & H3). repeat split; congruence. Qed.

Lemma framed_files f :
  (∀ s, songs_ (f s) = songs_ s ∧ app_ (f s) = app_ s
        ∧ no_results_ (f s) = no_results_ s) →
  Files f.
Proof. intros Hf s0 s. apply Filed_ext; apply Hf. Qed.

#[global] Hint Extern 10 (Files _) =>
  apply framed_files; intros; repeat split; reflexivity : typeclass_instances.

#[global] Instance emit_files sig : Files (emit sig).
Proof. apply framed_files. intros s. by destruct sig. Qed.

#[global] Instance FinishCheck_files : Files FinishCheck.
Proof.
  intros s0 s H. unfold FinishCheck.
  destruct (negb (finished_ s) && drained s); [|exact H].
  cbv zeta.
  assert (H' : Filed s0 (set_finished_ true s)).
  { revert H. by apply Filed_ext. }
  repeat match goal with
         | |- Filed _ (if ?b then _ else _) => destruct b
         end; by apply emit_files.
Qed.

(** One step through the body of an operation, as for [Safe]. *)
Ltac file_step :=
  lazymatch goal with
  | |- Filed ?s0 (let x := ?v in @?body x) =>
      let T := type of v in
      lazymatch T with
      | SpotifyRequest =>
          let s' := fresh "s" in
          let Hs := fresh "Hs" in
          let H := fresh "H" in
          apply (let_intro v body (Filed s0)); intros s' Hs;
          assert (H : Filed s0 s'); [rewrite Hs; clear Hs | clear Hs]
      | _ =>
          let x' := fresh x in
          let Hx := fresh "Hx" in
          apply (let_intro v body (Filed s0)); intros x' Hx
      end
  | |- Filed _ (if ?b then _ else _) => destruct b
  | |- Filed _ (match ?x with _ => _ end) => destruct x eqn:?; cbv beta iota
  | |- Filed _ (?set (?get ?s - 1) ?s) =>
      apply (files (f:=λ s', set (get s' - 1) s'))
  | |- Filed _ ?t =>
      first [ assumption
            | lazymatch t with ?g ?x => apply (files (f:=g)) end ]
  end.

Ltac file := repeat file_step.

#[global] Instance Error_files error : Files (Error error).
Proof. intros s0 s H. unf Error. file. Qed.

Lemma fold_left_filed {A} (f : SpotifyRequest → A → SpotifyRequest) l s0 s :
  (∀ x, Files (λ s, f s x)) → Filed s0 s → Filed s0 (fold_left f l s).
Proof.
  intros Hf. revert s. induction l as [|x l IH]; intros s Hs; [done|].
  cbn. apply IH. by apply (Hf x).
Qed.

#[global] Instance fold_left_files {A}
    (f : SpotifyRequest → A → SpotifyRequest) l :
  (∀ x, Files (λ s, f s x)) → Files (fold_left f l).
Proof. intros Hf s0 s. by apply fold_left_filed. Qed.

(** The flush loops send requests and connect replies. *)
Ltac flush_files IH :=
  intros s0 s Hs; cbn;
  match goal with
  | |- Filed _ (if ?b then _ else _) => destruct b; [|exact Hs]
  end;
  repeat match goal with
         | |- context [bool_decide ?P] => destruct (bool_decide P)
         end;
  apply IH; revert Hs; by apply Filed_ext.

#[global] Instance FlushSongsRequests_loop_files queue :
  Files (FlushSongsRequests_loop queue).
Proof. induction queue as [|request queue IH]; [by intros s0 s|]. flush_files IH. Qed.

#[global] Instance FlushAlbumSongsRequests_loop_files queue :
  Files (FlushAlbumSongsRequests_loop queue).
Proof. induction queue as [|request queue IH]; [by intros s0 s|]. flush_files IH. Qed.

#[global] Instance FlushAlbumCoverRequests_loop_files queue :
  Files (FlushAlbumCoverRequests_loop queue).
Proof. induction queue as [|request queue IH]; [by intros s0 s|]. flush_files IH. Qed.

#[global] Instance FlushSongsRequests_files : Files FlushSongsRequests.
Proof. intros s0 s. apply FlushSongsRequests_loop_files. Qed.

#[global] Instance FlushAlbumSongsRequests_files : Files FlushAlbumSongsRequests.
Proof. intros s0 s. apply FlushAlbumSongsRequests_loop_files. Qed.

#[global] Instance FlushAlbumCoverRequests_files : Files FlushAlbumCoverRequests.
Proof. intros s0 s. apply FlushAlbumCoverRequests_loop_files. Qed.

#[global] Instance AddSongsRequest_files offset limit :
  Files (AddSongsRequest offset limit).
Proof. intros s0 s H. unf AddSongsRequest. file. Qed.

#[global] Instance AddSongsSearchRequest_files offset :
  Files (AddSongsSearchRequest offset).
Proof. intros s0 s H. unf AddSongsSearchRequest. file. Qed.

#[global] Instance AddAlbumSongsRequest_files artist album offset :
  Files (AddAlbumSongsRequest artist album offset).
Proof. intros s0 s H. unf AddAlbumSongsRequest. file. Qed.

#[global] Instance AddAlbumCoverRequest_files song :
  Files (AddAlbumCoverRequest song).
Proof. intros s0 s H. unf AddAlbumCoverRequest. file. Qed.

#[global] Instance GetAlbumCovers_files : Files GetAlbumCovers.
Proof. intros s0 s H. unf GetAlbumCovers. file. Qed.

#[global] Instance SongsFinishCheck_files artist album limit offset total
    received :
  Files (SongsFinishCheck artist album limit offset total received).
Proof. intros s0 s H. unf SongsFinishCheck. file. Qed.

Lemma ParseSong_not_track song json_obj album_artist album s :
  is_track json_obj = false →
  ParseSong song json_obj album_artist album s
  = (song, Error "Invalid Json reply, track is missing one or more values." s).
Proof.
  unfold is_track, track_keys, ParseSong. cbn [forallb]. intros H.
  destruct (contains json_obj "type"), (contains json_obj "id"),
    (contains json_obj "name"), (contains json_obj "uri"),
    (contains json_obj "duration_ms"), (contains json_obj "track_number"),
    (contains json_obj "disc_number"), (contains json_obj "explicit");
    cbn [negb orb andb] in *; first [reflexivity | discriminate H].
Qed.

(** A track becomes a valid song with the id of the track, and nothing is
    recorded. *)
Lemma ParseSong_track song json_obj album_artist album s :
  is_track json_obj = true →
  (ParseSong song json_obj album_artist album s).2 = s
  ∧ Song.valid (ParseSong song json_obj album_artist album s).1 = true
  ∧ Song.song_id (ParseSong song json_obj album_artist album s).1
    = toString (value json_obj "id").
Proof.
  unfold is_track, track_keys. cbn [forallb]. intros Htrack.
  repeat (apply andb_true_iff in Htrack as [?Hk Htrack]).
  unfold ParseSong.
  repeat match goal with
         | H : contains json_obj _ = true |- _ => rewrite H; clear H
         end.
  cbn [negb orb].
  repeat match goal with
         | |- context [let '(_, _) := ?x in _] => destruct x
         end.
  done.
Qed.

(** The song [ParseSong] makes depends on the request only through its
    application. *)
Lemma ParseSong_app song json_obj album_artist album s s' :
  app_ s' = app_ s →
  (ParseSong song json_obj album_artist album s').1
  = (ParseSong song json_obj album_artist album s).1.
Proof.
  intros Ha. unfold ParseSong.
  destruct (_ || _); [done|].
  repeat match goal with
         | |- context [let '(_, _) := ?x in _] => destruct x
         end.
  cbn [fst]. by rewrite Ha.
Qed.

Lemma ParseSong_filed song json_obj album_artist album s0 s :
  Filed s0 s → Filed s0 (ParseSong song json_obj album_artist album s).2.
Proof.
  intros H. unfold ParseSong.
  destruct (_ || _); cbn [snd]; [by apply Error_files|].
  repeat match goal with
         | |- context [let '(_, _) := ?x in _] => destruct x
         end.
  exact H.
Qed.

(** One round of the first loop: the request keeps its song map, and the
    song of the item, if it has one, is appended. *)
Lemma SongsReceived_item_songs artist album s0 st value_item :
  Filed s0 (sl_request st) →
  Filed s0 (sl_request (SongsReceived_item artist album st value_item))
  ∧ sl_songs (SongsReceived_item artist album st value_item)
    = sl_songs st ++ option_list (track_song artist album s0 value_item)
  ∧ sl_compilation (SongsReceived_item artist album st value_item)
    = sl_compilation st
      || existsb Song.is_compilation
           (option_list (track_song artist album s0 value_item))
  ∧ sl_multidisc (SongsReceived_item artist album st value_item)
    = sl_multidisc st
      || existsb (λ song, 2 <=? Song.disc song)
           (option_list (track_song artist album s0 value_item)).
Proof.
  intros H. unfold SongsReceived_item, track_song. cbv zeta.
  destruct (negb (isObject value_item)).
  { cbn. rewrite app_nil_r, !orb_false_r. split; [by apply Error_files|done]. }
  destruct (unwrapItem _) as [obj_item|].
  2:{ cbn. rewrite app_nil_r, !orb_false_r.
      split; [by apply Error_files|done]. }
  pose proof (ParseSong_filed Song.newSong obj_item artist album s0 _ H) as HP.
  rewrite <- (ParseSong_app Song.newSong obj_item artist album s0
                (sl_request st)) by apply (proj1 (proj2 H)).
  destruct (ParseSong _ _ _ _ (sl_request st)) as [song s']. cbn [fst snd] in *.
  destruct (negb (Song.is_valid song)); cbn.
  - by rewrite app_nil_r, !orb_false_r.
  - rewrite !orb_false_r. split; [done|]. split; [done|].
    split; [by destruct (Song.is_compilation song), (sl_compilation st)|].
    by destruct (2 <=? Song.disc song), (sl_multidisc st).
Qed.

Lemma SongsReceived_loop_songs artist album s0 items st :
  Filed s0 (sl_request st) →
  Filed s0 (sl_request (fold_left (SongsReceived_item artist album) items st))
  ∧ sl_songs (fold_left (SongsReceived_item artist album) items st)
    = sl_songs st ++ page_songs artist album s0 items
  ∧ sl_compilation (fold_left (SongsReceived_item artist album) items st)
    = sl_compilation st
      || existsb Song.is_compilation (page_songs artist album s0 items)
  ∧ sl_multidisc (fold_left (SongsReceived_item artist album) items st)
    = sl_multidisc st
      || existsb (λ song, 2 <=? Song.disc song)
           (page_songs artist album s0 items).
Proof.
  revert st. induction items as [|item items IH]; intros st H.
  { cbn. by rewrite app_nil_r, !orb_false_r. }
  cbn [fold_left].
  destruct (SongsReceived_item_songs artist album s0 st item H)
    as (H1 & H2 & H3 & H4).
  destruct (IH _ H1) as (I1 & I2 & I3 & I4).
  assert (Hcons : page_songs artist album s0 (item :: items)
                  = option_list (track_song artist album s0 item)
                    ++ page_songs artist album s0 items).
  { unfold page_songs. cbn. by destruct (track_song _ _ _ item). }
  rewrite I2, I3, I4, H2, H3, H4, Hcons, !existsb_app, !orb_assoc.
  by rewrite <- app_assoc.
Qed.

(** The second loop: under each id the last song of the list with that id
    is filed, adjusted; the other ids keep what they had. *)
Lemma SongsReceived_insert_fold compilation multidisc songs s k :
  songs_ (fold_left (SongsReceived_insert compilation multidisc) songs s) !! k
  = match last (filter (λ song, Song.song_id song = k) songs) with
    | Some song => Some (adjusted compilation multidisc song)
    | None => songs_ s !! k
    end.
Proof.
  revert s. induction songs as [|song songs IH]; intros s; [done|].
  cbn [fold_left]. rewrite IH, filter_cons.
  assert (Hs : songs_ (SongsReceived_insert compilation multidisc s song)
               = <[Song.song_id song := adjusted compilation multidisc song]>
                   (songs_ s)).
  { unfold SongsReceived_insert. cbv zeta.
    fold (adjusted compilation multidisc song). cbn.
    by rewrite adjusted_song_id. }
  rewrite Hs. destruct (decide (Song.song_id song = k)) as [->|Hne].
  - rewrite last_cons, lookup_insert_eq. by destruct (last _).
  - by rewrite lookup_insert_ne.
Qed.

Lemma SongsReceived_insert_fold_app compilation multidisc songs s :
  app_ (fold_left (SongsReceived_insert compilation multidisc) songs s)
  = app_ s.
Proof.
  revert s. induction songs as [|song songs IH]; intros s; [done|].
  cbn [fold_left]. by rewrite IH.
Qed.

(** What a page of tracks leaves in the song map. *)
Lemma SongsReceived_files_page reply json_obj artist album limit offset items
    s k :
  ok_reply_with reply json_obj →
  page_of (nested "tracks" json_obj) offset items → items ≠ [] →
  ptr reply ∈ replies_ s → finished_ s = false →
  songs_ (SongsReceived reply artist album limit offset s) !! k
  = match last (filter (λ song, Song.song_id song = k)
                  (page_songs artist album s items)) with
    | Some song =>
        Some (adjusted
                (existsb Song.is_compilation (page_songs artist album s items))
                (existsb (λ song, 2 <=? Song.disc song)
                   (page_songs artist album s items))
                song)
    | None => songs_ s !! k
    end.
Proof.
  intros Hok Hpage Hitems Hin Hf.
  rewrite (SongsReceived_page _ _ _ _ _ _ _ _ Hok Hpage Hitems Hin Hf).
  cbv zeta.
  set (st := fold_left (SongsReceived_item artist album) items _).
  destruct (SongsReceived_loop_songs artist album s items
              {| sl_request := detach (ptr reply) s; sl_songs := [];
                 sl_compilation := false; sl_multidisc := false;
                 sl_songs_received := 0 |})
    as ([H1 _] & H2 & H3 & H4); [by repeat split|].
  fold st in H1, H2, H3, H4. cbn [sl_songs sl_compilation sl_multidisc] in *.
  rewrite app_nil_l in H2. rewrite orb_false_l in H3, H4.
  set (filed := fold_left (SongsReceived_insert _ _) _ _).
  destruct (SongsFinishCheck_files artist album limit offset
              (toInt (value (nested "tracks" json_obj) "total"))
              (sl_songs_received st) filed filed (Filed_refl filed))
    as [Hm _].
  rewrite Hm. subst filed.
  rewrite SongsReceived_insert_fold, H1, H2, H3, H4. done.
Qed.

(** What [FinishCheck] hands to [Results] when it fires is the song map as
    it is then. *)
Lemma FinishCheck_hands_songs s :
  finished_ s = false → drained s = true →
  ∃ text, results (FinishCheck s) = results s ++ [(query_id_ s, songs_ s, text)].
Proof.
  intros Hf Hd. destruct (FinishCheck_results s Hf Hd) as [Hr _].
  rewrite Hr. unfold outcome.
  destruct (no_results_ s && mapIsEmpty (songs_ s)) eqn:E.
  - apply andb_true_iff in E as [_ E]. unfold mapIsEmpty in E.
    apply bool_decide_eq_true in E. rewrite E. by eexists.
  - destruct (mapIsEmpty (songs_ s) && listIsEmpty (errors_ s)); by eexists.
Qed.

Lemma page_songs_app artist album items s s' :
  app_ s' = app_ s →
  page_songs artist album s' items = page_songs artist album s items.
Proof.
  intros Ha. unfold page_songs.
  induction items as [|item items IH]; [done|]. cbn.
  assert (Hitem : track_song artist album s' item
                  = track_song artist album s item).
  { unfold track_song. destruct (negb (isObject item)); [done|].
    destruct (unwrapItem _) as [obj_item|]; [|done]. cbv zeta.
    by rewrite (ParseSong_app _ _ _ _ s s' Ha). }
  by rewrite Hitem, IH.
Qed.

(** The reply is connected to a slot that hands it to [SongsReceived] with
    this artist, album, limit and offset: the slot of the songs tier, unless
    the crawl is a search for songs that fetches albums, or the slot of the
    songs of an album. *)
Definition reads_songs (s : SpotifyRequest) (reply : QNetworkReply)
    (artist : Artist) (album : Album) (limit offset : Z) : Prop :=
  (lookup_slot (ptr reply) (connections s) = Some (SongsReplySlot limit offset)
   ∧ (bool_decide (type_ s = QueryType_SearchSongs) && fetchalbums_ s) = false
   ∧ artist = noArtist ∧ album = noAlbum)
  ∨ (lookup_slot (ptr reply) (connections s)
     = Some (AlbumSongsReplySlot artist album offset)
     ∧ limit = 0).

Lemma deliver_reads_songs s reply artist album limit offset :
  reads_songs s reply artist album limit offset →
  ∃ s', deliver s (Finished reply)
        = SongsReceived reply artist album limit offset s'
        ∧ replies_ s' = replies_ s ∧ finished_ s' = finished_ s
        ∧ songs_ s' = songs_ s ∧ app_ s' = app_ s ∧ type_ s' = type_ s.
Proof.
  intros [(Hslot & Htype & -> & ->)|(Hslot & ->)];
    unfold deliver; rewrite Hslot.
  - exists (set_songs_requests_active_ (songs_requests_active_ s - 1) s).
    split; [|done]. unfold SongsReplyReceived. cbv zeta.
    change (type_ (set_songs_requests_active_ _ s)) with (type_ s).
    change (fetchalbums_ (set_songs_requests_active_ _ s))
      with (fetchalbums_ s).
    by rewrite Htype.
  - unfold AlbumSongsReplyReceived. cbv zeta.
    eexists. split; [reflexivity|]. by destruct (offset =? 0).
Qed.

(** C2.  In every state a crawl reaches, whatever replies have finished and
    in whatever order, every song map handed to [Results] files each song
    under its own id, so that no two of its entries have the same song id;
    the same holds of [songs_] throughout.  A parsed song is inserted under
    its song id: afterwards that id maps to the new song, the other entries
    are as before, and when the id was present already the map has not
    grown.  When the reply to a songs request finishes with a page of
    tracks, [songs_] afterwards holds under each id the last song of the
    page with that id, and what it held before under the ids the page does
    not have; so every track of the page is found under its id.  When
    [FinishCheck] emits [Results] it hands over [songs_] as it is then. *)
Theorem C2_emitted_songs_have_distinct_ids
    service app network type search events :
  let s := run (start service app network type search) events in
  Forall (λ r, keyed r.1.2 ∧ distinct_ids r.1.2) (results s)
  ∧ keyed (songs_ s) ∧ distinct_ids (songs_ s)
  ∧ (∀ compilation multidisc s' song,
      let s'' := SongsReceived_insert compilation multidisc s' song in
      songs_ s'' !! Song.song_id song
        = Some (adjusted compilation multidisc song)
      ∧ (∀ k, k ≠ Song.song_id song → songs_ s'' !! k = songs_ s' !! k)
      ∧ (is_Some (songs_ s' !! Song.song_id song) →
         size (songs_ s'') = size (songs_ s')))
  ∧ (∀ reply json_obj artist album limit offset items,
      reads_songs s reply artist album limit offset →
      ok_reply_with reply json_obj →
      page_of (nested "tracks" json_obj) offset items → items ≠ [] →
      ptr reply ∈ replies_ s → finished_ s = false →
      let songs := page_songs artist album s items in
      let s' := deliver s (Finished reply) in
      (∀ k, songs_ s' !! k
            = match last (filter (λ song, Song.song_id song = k) songs) with
              | Some song =>
                  Some (adjusted (existsb Song.is_compilation songs)
                          (existsb (λ song, 2 <=? Song.disc song) songs) song)
              | None => songs_ s !! k
              end)
      ∧ (∀ item obj_item,
           item ∈ items → isObject item = true →
           unwrapItem (toObject item) = Some obj_item →
           is_track obj_item = true →
           ∃ song, songs_ s' !! toString (value obj_item "id") = Some song
                   ∧ Song.song_id song = toString (value obj_item "id")))
  ∧ (finished_ s = false → drained s = true →
     ∃ text,
       results (FinishCheck s) = results s ++ [(query_id_ s, songs_ s, text)]).
Proof.
  intros s.
  assert (HS : Safe s) by apply run_safe, start_safe.
  destruct HS as (_ & Hk & _ & Hr).
  split; [|split; [exact Hk|split; [by apply keyed_distinct_ids|]]].
  { apply Forall_forall. intros r Hin. split; [by apply Hr|].
    by apply keyed_distinct_ids, Hr. }
  split; [|split; [|apply FinishCheck_hands_songs]].
  - intros compilation multidisc s' song. apply SongsReceived_insert_files.
  - intros reply json_obj artist album limit offset items Hreads Hok Hpage
      Hitems Hin Hf songs s'.
    destruct (deliver_reads_songs _ _ _ _ _ _ Hreads)
      as (s1 & Hs1 & Hr1 & Hf1 & Hm1 & Ha1 & _).
    assert (Hlook : ∀ k, songs_ s' !! k
              = match last (filter (λ song, Song.song_id song = k) songs) with
                | Some song =>
                    Some (adjusted (existsb Song.is_compilation songs)
                            (existsb (λ song, 2 <=? Song.disc song) songs)
                            song)
                | None => songs_ s !! k
                end).
    { intros k. subst s' songs. rewrite Hs1.
      rewrite (SongsReceived_files_page reply json_obj artist album limit
                 offset items s1 k Hok Hpage Hitems);
        [|by rewrite Hr1|by rewrite Hf1].
      by rewrite (page_songs_app _ _ _ s s1 Ha1), Hm1. }
    split; [exact Hlook|].
    intros item obj_item Hitem Hobj Hunwrap Htrack.
    destruct (ParseSong_track Song.newSong obj_item artist album s Htrack)
      as (_ & Hvalid & Hid).
    assert (Hsong : track_song artist album s item
                    = Some (ParseSong Song.newSong obj_item artist album s).1).
    { unfold track_song. rewrite Hobj, Hunwrap. cbn [negb]. cbv zeta.
      unfold Song.is_valid. by rewrite Hvalid. }
    set (song := (ParseSong Song.newSong obj_item artist album s).1) in *.
    assert (Hin' : song ∈ filter (λ song, Song.song_id song
                                          = toString (value obj_item "id"))
                             songs).
    { apply list_elem_of_filter. split; [exact Hid|].
      subst songs. unfold page_songs. apply list_elem_of_omap. eauto. }
    rewrite Hlook.
    destruct (last _) as [song'|] eqn:Hlast.
    + eexists. split; [reflexivity|]. rewrite adjusted_song_id.
      apply last_Some_elem_of in Hlast.
      by apply list_elem_of_filter in Hlast as [Hlast _].
    + apply last_None in Hlast. rewrite Hlast in Hin'.
      by apply elem_of_nil in Hin'.
Qed.

(** The reply to the first request of a library crawl of the songs: one
    page with two tracks of the same id. *)
Definition songs_page : QNetworkReply :=
  ok_reply 0 (a_page 0 2 [a_track "t1" "first"; a_track "t1" "second"]).

Lemma C2_emitted_songs_have_distinct_ids_witness :
  Song.title
    <$> songs_ (deliver (run (start (a_service false) an_app a_network
                                QueryType_Songs None) [])
                  (Finished songs_page)) !! "t1"
  = Some "second"
  ∧ results songs_crawl = [(-1, songs_ songs_crawl, "")]
  ∧ Song.title <$> songs_ songs_crawl !! "t1" = Some "second"
  ∧ size (songs_ songs_crawl) = 1%nat
  ∧ Forall (λ r, keyed r.1.2 ∧ distinct_ids r.1.2) (results songs_crawl).
Proof.
  split; [|split; [vm_compute; reflexivity|split; [vm_compute; reflexivity|
    split; [vm_compute; reflexivity|]]]].
  - destruct (C2_emitted_songs_have_distinct_ids (a_service false) an_app
                a_network QueryType_Songs None []) as (_ & _ & _ & _ & H & _).
    destruct (H songs_page
                (a_page 0 2 [a_track "t1" "first"; a_track "t1" "second"])
                noArtist noAlbum 0 0
                [a_track "t1" "first"; a_track "t1" "second"])
      as [Hlook _].
    + left. repeat split; vm_compute; reflexivity.
    + repeat split; vm_compute; reflexivity.
    + repeat split; vm_compute; reflexivity.
    + discriminate.
    + replace (replies_ _) with [0%nat] by (vm_compute; reflexivity). apply list_elem_of_here.
    + vm_compute; reflexivity.
    + rewrite Hlook. vm_compute. reflexivity.
  - exact (proj1 (C2_emitted_songs_have_distinct_ids (a_service false) an_app
                    a_network QueryType_Songs None songs_events)).
Defined.

(** *** What a crawl reports when it ends *)



End CrawlSpec.

(* ===================================================================== *)
(** ** SpotifyBaseRequest: what a reply yields *)
(* ===================================================================== *)

Module BaseExtra.

Import BaseMore Stdlib.Strings.Ascii.

Lemma append_nil_inv (a b : string) : a +:+ b = "" → a = "" ∧ b = "".
Proof. destruct a; [done|discriminate]. Qed.

Lemma append_assoc (a b c : string) : (a +:+ b) +:+ c = a +:+ (b +:+ c).
Proof.
  induction a as [|x a IH]; [done|].
  change (String x ((a +:+ b) +:+ c) = String x (a +:+ (b +:+ c))).
  by f_equal.
Qed.

Lemma append_nil_r (a : string) : a +:+ "" = a.
Proof.
  induction a as [|x a IH]; [done|].
  change (String x (a +:+ "") = String x a). by f_equal.
Qed.

(** The reply is a success for [GetReplyData]. *)
Definition succeeded (reply : QNetworkReply) : Prop :=
  error reply = NoError ∧ httpStatus reply = 200.

(** X2: when the reply has no error and HTTP status 200, [GetReplyData]
    hands back its body and reports nothing.  In every other case it returns
    the empty array and reports exactly one error, whose text is not empty;
    for a transport error (a code below 200) the text is what
    [QString("%1 (%2)").arg(errorString).arg(error)] gives, which for an error
    string without [%] is the error string followed by the code in
    brackets. *)
Theorem GetReplyData_body_or_one_error reply :
  (succeeded reply → GetReplyData reply = (readAll reply, []))
  ∧ (¬ succeeded reply →
     ∃ text, GetReplyData reply = (noData, [CallError text]) ∧ text ≠ ""
       ∧ (error reply < 200 → error reply ≠ NoError →
          text = arg2 (errorString reply) (number (error reply))
          ∧ (QtSpec.has_char "%" (errorString reply) = false →
             text = errorString reply +:+ " (" +:+ number (error reply)
                    +:+ ")"))).
Proof.
  unfold succeeded, GetReplyData. split.
  - intros [-> ->]. reflexivity.
  - intros Hfail.
    destruct (error reply =? NoError) eqn:He;
      [apply Z.eqb_eq in He|apply Z.eqb_neq in He].
    + destruct (httpStatus reply =? 200) eqn:Hs;
        [apply Z.eqb_eq in Hs; tauto|].
      cbn [andb negb].
      match goal with
      | |- context [let '(_, _) := ?m in _] =>
          destruct m as [text status] eqn:Hm
      end.
      cbn [Z.eqb andb]. rewrite andb_false_r.
      eexists. split; [reflexivity|]. split; [|intros _ H; by destruct H].
      destruct (strIsEmpty text) eqn:Ht.
      * intros H. apply append_nil_inv in H as [H _]. discriminate.
      * intros ->. discriminate.
    + cbn [andb negb]. destruct (error reply <? 200) eqn:Hlt.
      * eexists. split; [reflexivity|].
        split; [apply QtSpec.arg2_not_empty|].
        intros _ _. split; [done|]. apply QtSpec.arg2_plain.
      * apply Z.ltb_ge in Hlt.
        match goal with
        | |- context [let '(_, _) := ?m in _] =>
            destruct m as [text status] eqn:Hm
        end.
        rewrite andb_false_r.
        eexists. split; [reflexivity|]. split; [|lia].
        destruct (strIsEmpty text) eqn:Ht.
        -- apply QtSpec.arg2_not_empty.
        -- intros ->. discriminate.
Qed.

(** A reply that failed in transport. *)
Definition refused_reply : QNetworkReply :=
  {| ptr := 0; error := 1; errorString := "Connection refused";
     httpStatus := 0; readAll := noData; mimetype := "";
     mimeSupported := false; imageLoads := false; imageSaves := false |}.

Lemma GetReplyData_body_or_one_error_witness :
  ∃ text, GetReplyData refused_reply = (noData, [CallError text]) ∧ text ≠ ""
    ∧ (error refused_reply < 200 → error refused_reply ≠ NoError →
       text = arg2 (errorString refused_reply) (number (error refused_reply))
       ∧ (QtSpec.has_char "%" (errorString refused_reply) = false →
          text = errorString refused_reply +:+ " ("
                 +:+ number (error refused_reply) +:+ ")")).
Proof.
  apply (proj2 (GetReplyData_body_or_one_error refused_reply)).
  unfold succeeded. cbn. intros [H _]. discriminate.
Defined.

(** The four texts [ExtractJsonObj] reports. *)
Definition json_object_errors : list string :=
  ["Reply from server missing Json data."; "Received empty Json document.";
   "Json document is not an object."; "Received empty Json object."].

(** X3: [ExtractJsonObj] returns either the object the data parses to,
    which is then not empty, and reports nothing; or the empty object with
    exactly one of its four errors.  It returns a non-empty object exactly
    when the data parses to one. *)
Theorem ExtractJsonObj_object_or_one_error data :
  (∃ json_obj, fromJson data = Parsed (DocObject json_obj)
               ∧ objIsEmpty json_obj = false
               ∧ ExtractJsonObj data = (json_obj, []))
  ∨ ((∀ json_obj, fromJson data = Parsed (DocObject json_obj) →
                  objIsEmpty json_obj = true)
     ∧ ∃ text, text ∈ json_object_errors
               ∧ ExtractJsonObj data = ([], [CallError text])).
Proof.
  unfold ExtractJsonObj, json_object_errors.
  destruct (fromJson data) as [e|[|a|o]]; cbn.
  - right. split; [done|]. eexists. split; [|reflexivity]. set_solver.
  - right. split; [done|]. eexists. split; [|reflexivity]. set_solver.
  - right. split; [done|]. eexists. split; [|reflexivity]. set_solver.
  - destruct o as [|kv o].
    + right. split; [by intros ? [= <-]|].
      eexists. split; [|reflexivity]. set_solver.
    + left. eexists. split; [reflexivity|]. done.
Qed.

(** X4: the items of a reply body, [ExtractItems(data)]: a null value
    and the error of [ExtractJsonObj] when the data holds no object, an empty
    array and "Json reply is missing items." when the object has no [items],
    and the value of [items] without any error otherwise.  At most one error
    is reported. *)
Theorem ExtractItemsOfData_cases data :
  match ExtractJsonObj data with
  | (json_obj, cs) =>
      if objIsEmpty json_obj then ExtractItemsOfData data = (JNull, cs)
      else
        cs = []
        ∧ ExtractItemsOfData data
          = if contains json_obj "items" then (value json_obj "items", [])
            else (JArray [], [CallError "Json reply is missing items."])
  end
  ∧ (length (ExtractItemsOfData data).2 ≤ 1)%nat.
Proof.
  unfold ExtractItemsOfData, ExtractJsonObj, ExtractItems.
  destruct (fromJson data) as [e|[|a|[|kv o]]]; cbn; try (split; [done|lia]).
  destruct (contains (kv :: o) "items"); cbn; split; first [done | lia].
Qed.

(** X5: [ErrorsToHTML] writes every error followed by a line break, in
    order: the text of a list of errors is the text of its front followed by
    the text of its rest. *)
Theorem ErrorsToHTML_app errors errors' :
  ErrorsToHTML (errors ++ errors')
  = ErrorsToHTML errors +:+ ErrorsToHTML errors'
  ∧ ErrorsToHTML errors
    = fold_right (λ error html, error +:+ "<br />" +:+ html) "" errors.
Proof.
  unfold ErrorsToHTML.
  assert (Hacc : ∀ l acc,
            fold_left (λ html e, html +:+ e +:+ "<br />") l acc
            = acc +:+ fold_right (λ e html, e +:+ "<br />" +:+ html) "" l).
  { induction l as [|e l IH]; intros acc; cbn [fold_left fold_right].
    - by rewrite append_nil_r.
    - rewrite IH. by rewrite !append_assoc. }
  split.
  - rewrite !Hacc. cbn [String.append].
    change ("" +:+ ?x) with x.
    induction errors as [|e errors IH]; [done|].
    cbn [app fold_right]. rewrite IH. by rewrite !append_assoc.
  - by rewrite Hacc.
Qed.

End BaseExtra.

(* ===================================================================== *)
(** ** SpotifyFavoriteRequest: requests, replies and signals *)
(* ===================================================================== *)

Module FavoriteExtra.

Import Favorite FavoriteSpec.

(** The loop of [AddFavorites] over the songs, from the ids collected so
    far. *)
Definition add_ids (type : FavoriteType) (songs : SongList)
    (id_list : list string) : list string :=
  fold_left
    (λ (id_list : list string) (song : Song.Song),
       if strIsEmpty (id_of type song) then id_list
       else
         let id := id_of type song in
         if negb (strIsEmpty id) && negb (bool_decide (id ∈ id_list))
         then id_list ++ [id] else id_list)
    songs id_list.

Definition add_request (access_token : string) (type : FavoriteType)
    (ids : list string) : QNetworkRequest :=
  {| verb := POST;
     target := kApiUrl +:+ "/" +:+ "users/" +:+ "" +:+ "/favorites/"
               +:+ FavoriteText type;
     query := [(FavoriteMethod type, join "," ids)];
     bearer := bearer_of access_token |}.

Lemma add_ids_spec type (songs : SongList) acc :
  NoDup acc → "" ∉ acc →
  ∃ new, add_ids type songs acc = acc ++ new
         ∧ NoDup (acc ++ new)
         ∧ (∀ id, id ∈ new ↔
                  (id ∉ acc) ∧ id ≠ ""
                  ∧ ∃ song, song ∈ songs ∧ id_of type song = id)
         ∧ sublist new (map (id_of type) songs).
Proof.
  revert acc. induction songs as [|song songs IH]; intros acc Hnd Hne.
  - exists []. rewrite app_nil_r. split; [done|]. split; [done|].
    split; [|constructor].
    intros id. split; [by intros ?%elem_of_nil|].
    intros (_ & _ & song & Hin & _). by apply elem_of_nil in Hin.
  - unfold add_ids in *. cbn [fold_left map]. cbv zeta.
    destruct (strIsEmpty (id_of type song)) eqn:E.
    + apply strIsEmpty_true in E.
      destruct (IH acc Hnd Hne) as (new & Heq & Hnd' & Hin & Hsub).
      exists new. split; [done|]. split; [done|]. split.
      * intros id. rewrite Hin. split.
        -- intros (? & ? & song' & ? & ?). split; [done|]. split; [done|].
           exists song'. split; [by apply list_elem_of_further|done].
        -- intros (? & ? & song' & Hin' & ?). split; [done|]. split; [done|].
           apply elem_of_cons in Hin' as [->|Hin']; [congruence|eauto].
      * by apply sublist_cons.
    + cbn [negb andb]. apply strIsEmpty_false in E.
      destruct (bool_decide (id_of type song ∈ acc)) eqn:Hmem.
      * apply bool_decide_eq_true in Hmem. cbn [negb].
        destruct (IH acc Hnd Hne) as (new & Heq & Hnd' & Hin & Hsub).
        exists new. split; [done|]. split; [done|]. split.
        -- intros id. rewrite Hin. split.
           ++ intros (? & ? & song' & ? & ?). split; [done|]. split; [done|].
              exists song'. split; [by apply list_elem_of_further|done].
           ++ intros (Hni & ? & song' & Hin' & Hid). split; [done|].
              split; [done|].
              apply elem_of_cons in Hin' as [->|Hin']; [|eauto].
              subst. contradiction.
        -- by apply sublist_cons.
      * apply bool_decide_eq_false in Hmem. cbn [negb].
        destruct (IH (acc ++ [id_of type song])) as (new & Heq & Hnd' & Hin & Hsub).
        { apply NoDup_app. split; [done|]. split; [|apply NoDup_singleton].
          intros x Hx Hx'. apply list_elem_of_singleton in Hx'. by subst. }
        { rewrite elem_of_app, list_elem_of_singleton. intros [?|?]; [done|].
          congruence. }
        exists (id_of type song :: new).
        rewrite Heq, <- app_assoc. cbn [app].
        rewrite <- app_assoc in Hnd'. cbn [app] in Hnd'.
        split; [done|]. split; [done|]. split.
        -- intros id. rewrite elem_of_cons, Hin, elem_of_app,
             list_elem_of_singleton. split.
           ++ intros [->|(Hni & ? & song' & ? & ?)].
              ** split; [done|]. split; [done|]. exists song.
                 split; [apply list_elem_of_here|done].
              ** split; [tauto|]. split; [done|]. exists song'.
                 split; [by apply list_elem_of_further|done].
           ++ intros (Hni & ? & song' & Hin' & Hid).
              destruct (decide (id = id_of type song)) as [->|Hneq];
                [by left|right].
              split; [tauto|]. split; [done|].
              apply elem_of_cons in Hin' as [->|Hin']; [congruence|eauto].
        -- by apply sublist_skip.
Qed.

(** X6: [AddFavorites] sends at most one request.  The ids it sends are the
    ids of the songs for the category that are not empty, each once, in an
    order in which the songs show them, joined by commas in one POST to the
    favourites of the category; when there is no such id nothing changes, and
    otherwise the reply is connected to a slot that holds all the songs
    passed in. *)
Theorem AddFavorites_sends_distinct_ids type (songs : SongList) s :
  ∃ ids,
    NoDup ids
    ∧ (∀ id, id ∈ ids ↔
             id ≠ "" ∧ ∃ song, song ∈ songs ∧ id_of type song = id)
    ∧ sublist ids (map (id_of type) songs)
    ∧ match ids with
      | [] => AddFavorites type songs s = s
      | _ =>
          issued s (AddFavorites type songs s)
          = [add_request (access_token s) type ids]
          ∧ connections (AddFavorites type songs s)
            = connections s
              ++ [(next_reply (network_ s), AddFavoritesReplySlot type songs)]
          ∧ replies_ (AddFavorites type songs s)
            = replies_ s ++ [next_reply (network_ s)]
      end.
Proof.
  destruct (add_ids_spec type songs [])
    as (ids & Heq & Hnd & Hin & Hsub); [constructor|by intros ?%elem_of_nil|].
  cbn [app] in Heq, Hnd. exists ids. split; [done|]. split.
  { intros id. rewrite Hin. split; [tauto|]. intros H. split; [|done].
    by intros ?%elem_of_nil. }
  split; [done|].
  unfold AddFavorites. fold (add_ids type songs []). rewrite Heq.
  destruct ids as [|id ids]; [done|].
  unfold AddFavoritesRequest, issued. cbn.
  rewrite drop_app_length. done.
Qed.

(** The signal a successful reply to an add request gives. *)
Definition added (type : FavoriteType) (songs : SongList) : Signal :=
  match type with
  | FavoriteType_Artists => ArtistsAdded songs
  | FavoriteType_Albums => AlbumsAdded songs
  | FavoriteType_Songs => SongsAdded songs
  end.

Definition removed (type : FavoriteType) (songs : SongList) : Signal :=
  match type with
  | FavoriteType_Artists => ArtistsRemoved songs
  | FavoriteType_Albums => AlbumsRemoved songs
  | FavoriteType_Songs => SongsRemoved songs
  end.

(** The signal of a slot. *)
Definition signal_of (slot : Slot) : Signal :=
  match slot with
  | AddFavoritesReplySlot type songs => added type songs
  | RemoveFavoritesReplySlot type songs => removed type songs
  end.

Lemma calls_frame cs s :
  network_ (calls cs s) = network_ s ∧ replies_ (calls cs s) = replies_ s
  ∧ connections (calls cs s) = connections s
  ∧ emitted (calls cs s) = emitted s.
Proof.
  revert s. induction cs as [|c cs IH]; intros s; [done|].
  unfold calls in *. cbn [fold_left].
  destruct (IH (call c s)) as (-> & -> & -> & ->). by destruct c.
Qed.

Lemma lookup_slot_filter reply (cs : list (nat * Slot)) :
  lookup_slot reply (filter (λ c, c.1 ≠ reply) cs) = None.
Proof.
  induction cs as [|[r slot] cs IH]; [done|].
  rewrite filter_cons. cbn [fst]. destruct (decide (r ≠ reply)) as [Hne|Heq].
  - cbn [lookup_slot]. by rewrite decide_False.
  - exact IH.
Qed.

(** X7: a reply to a favourites request is handled once.  When the reply
    that finishes is connected and known, it is forgotten and disconnected,
    and the signal of its slot, with the songs the slot holds, is emitted if
    and only if the reply has no error; otherwise nothing changes.  A reply
    that finishes a second time changes nothing. *)
Theorem finished_handles_reply_once reply s :
  (match lookup_slot (ptr reply) (connections s) with
   | Some slot =>
       if bool_decide (ptr reply ∈ replies_ s) then
         (emitted (finished reply s)
          = emitted s
            ++ (if error reply =? NoError then [signal_of slot] else [])
          ∧ (ptr reply ∉ replies_ (finished reply s))
          ∧ lookup_slot (ptr reply) (connections (finished reply s)) = None
          ∧ network_ (finished reply s) = network_ s)
       else finished reply s = s
   | None => finished reply s = s
   end)
  ∧ finished reply (finished reply s) = finished reply s.
Proof.
  assert (Hgen : ∀ sig,
            let s' := calls (GetReplyData reply).2
                        (disconnect (ptr reply)
                           (set_replies_
                              (filter (λ r, r ≠ ptr reply) (replies_ s)) s)) in
            let s'' := if negb (error reply =? NoError) then s'
                       else emit sig s' in
            emitted s''
            = emitted s ++ (if error reply =? NoError then [sig] else [])
            ∧ (ptr reply ∉ replies_ s'')
            ∧ lookup_slot (ptr reply) (connections s'') = None
            ∧ network_ s'' = network_ s).
  { intros sig s' s''. subst s' s''.
    match goal with
    | |- context [calls ?cs ?s0] =>
        destruct (calls_frame cs s0) as (Hn & Hr & Hc & He)
    end.
    destruct (error reply =? NoError); cbn [negb].
    - unfold emit. cbn. rewrite Hn, Hr, Hc, He. cbn.
      split; [done|]. split; [|split; [apply lookup_slot_filter|done]].
      rewrite list_elem_of_filter. tauto.
    - rewrite Hn, Hr, Hc, He. cbn. rewrite app_nil_r.
      split; [done|]. split; [|split; [apply lookup_slot_filter|done]].
      rewrite list_elem_of_filter. tauto. }
  assert (Hfirst :
    match lookup_slot (ptr reply) (connections s) with
    | Some slot =>
        if bool_decide (ptr reply ∈ replies_ s) then
          (emitted (finished reply s)
           = emitted s
             ++ (if error reply =? NoError then [signal_of slot] else [])
           ∧ (ptr reply ∉ replies_ (finished reply s))
           ∧ lookup_slot (ptr reply) (connections (finished reply s)) = None
           ∧ network_ (finished reply s) = network_ s)
        else finished reply s = s
    | None => finished reply s = s
    end).
  { unfold finished.
    destruct (lookup_slot (ptr reply) (connections s)) as [[type songs|type songs]|];
      [| |done].
    - unfold AddFavoritesReply.
      destruct (bool_decide (ptr reply ∈ replies_ s)); [|done].
      cbv zeta.
      destruct (Hgen (added type songs)) as (H1 & H2 & H3 & H4).
      cbv zeta in H1, H2, H3, H4. destruct type; exact (conj H1 (conj H2 (conj H3 H4))).
    - unfold RemoveFavoritesReply.
      destruct (bool_decide (ptr reply ∈ replies_ s)); [|done].
      cbv zeta.
      destruct (Hgen (removed type songs)) as (H1 & H2 & H3 & H4).
      cbv zeta in H1, H2, H3, H4. destruct type; exact (conj H1 (conj H2 (conj H3 H4))). }
  split; [exact Hfirst|].
  destruct (lookup_slot (ptr reply) (connections s)) as [slot|] eqn:Hs.
  - destruct (bool_decide (ptr reply ∈ replies_ s)).
    + destruct Hfirst as (_ & _ & Hnone & _).
      unfold finished at 1. by rewrite Hnone.
    + by rewrite Hfirst.
  - by rewrite Hfirst.
Qed.

Lemma length_values {V} (m : gmap string V) : length (values m) = size m.
Proof.
  unfold values.
  assert (H : ∀ l, (∀ k, k ∈ l → is_Some (m !! k)) →
                   length (omap (λ k, m !! k) l) = length l).
  { induction l as [|k l IH]; intros Hl; [done|].
    cbn. destruct (Hl k) as [v ->]; [apply list_elem_of_here|].
    cbn. rewrite IH; [done|]. intros k' Hk'. apply Hl.
    by apply list_elem_of_further. }
  rewrite H by (intros k; by rewrite elem_of_sortedKeys).
  unfold sortedKeys. rewrite merge_sort_Permutation, length_map.
  by rewrite length_map_to_list.
Qed.

(** X8: [RemoveSongs] for a map of songs sends one DELETE request for every
    entry of the map, in the order of the keys, to the address of the id of
    the song of the entry.  No entry is skipped: an entry whose song has an
    empty id still gives a request. *)
Theorem RemoveSongsMap_one_request_per_entry (songs : SongMap) s :
  issued s (RemoveSongsMap songs s)
  = map (λ song, remove_request (access_token s) FavoriteType_Songs
                   (Song.song_id song)) (values songs)
  ∧ length (issued s (RemoveSongsMap songs s)) = size songs.
Proof.
  assert (H : ∀ (l : SongList) s,
            let s' := fold_left
                        (λ s song, RemoveFavoritesRequest FavoriteType_Songs
                                     (Song.song_id song) [song] s) l s in
            sent (network_ s')
            = sent (network_ s)
              ++ map (λ song, remove_request (access_token s) FavoriteType_Songs
                                (Song.song_id song)) l
            ∧ access_token s' = access_token s).
  { induction l as [|song l IH]; intros s0; cbn.
    - by rewrite app_nil_r.
    - destruct (IH (RemoveFavoritesRequest FavoriteType_Songs
                      (Song.song_id song) [song] s0)) as [IH1 IH2].
      cbn in IH1, IH2. rewrite IH1, IH2. split; [|done].
      unfold RemoveFavoritesRequest. cbn. by rewrite <- app_assoc. }
  destruct (H (values songs) s) as [Hsent _]. cbv zeta in Hsent.
  assert (Heq : issued s (RemoveSongsMap songs s)
                = map (λ song, remove_request (access_token s)
                                 FavoriteType_Songs (Song.song_id song))
                    (values songs)).
  { unfold issued, RemoveSongsMap. rewrite Hsent. by rewrite drop_app_length. }
  split; [exact Heq|]. rewrite Heq, length_map. apply length_values.
Qed.

(** The songs of a list that have the id [id] for the category. *)
Definition with_id (type : FavoriteType) (id : string) (songs : SongList)
    : SongList :=
  filter (λ song, id_of type song = id) songs.

Lemma collect_values type (songs : SongList) m id :
  id ≠ "" →
  multiValues (collect type songs m) id
  = reverse (with_id type id songs) ++ multiValues m id.
Proof.
  intros Hid. revert m. induction songs as [|song songs IH]; intros m; [done|].
  unfold collect in *. cbn [fold_left]. rewrite IH. clear IH. cbv zeta.
  unfold with_id. rewrite filter_cons.
  destruct (strIsEmpty (id_of type song)) eqn:E.
  - apply strIsEmpty_true in E.
    rewrite decide_False by congruence. done.
  - cbn [negb]. unfold multiValues, multiInsert.
    destruct (decide (id_of type song = id)) as [Heq|Hne].
    + rewrite Heq, lookup_insert_eq. cbn [default].
      rewrite reverse_cons, <- app_assoc. done.
    + by rewrite lookup_insert_ne.
Qed.

(** The replies of [n] requests sent one after the other from [s]. *)
Definition new_replies (s : FavoriteRequest) (n : nat) : list nat :=
  seq (next_reply (network_ s)) n.

Lemma remove_requests_connected type (m : gmap string (list Song.Song)) ids s :
  let s' := fold_left
              (λ s id, RemoveFavoritesRequest type id (multiValues m id) s)
              ids s in
  connections s'
  = connections s
    ++ zip (new_replies s (length ids))
         (map (λ id, RemoveFavoritesReplySlot type (multiValues m id)) ids)
  ∧ replies_ s' = replies_ s ++ new_replies s (length ids).
Proof.
  unfold new_replies.
  revert s. induction ids as [|id ids IH]; intros s; cbn.
  - by rewrite !app_nil_r.
  - destruct (IH (RemoveFavoritesRequest type id (multiValues m id) s))
      as [IH1 IH2].
    cbn in IH1, IH2. rewrite IH1, IH2.
    unfold RemoveFavoritesRequest, connect. cbn.
    by rewrite <- !app_assoc.
Qed.

(** X9: [RemoveFavorites] files every song under its id.  It sends one
    DELETE request for every id that is not empty and belongs to one of the
    songs, and the reply of the request for an id is noted and connected to
    a slot that holds exactly the songs passed in that have that id, the last
    of them first.  So a song whose id is not empty is held by one slot, that
    of the reply to the request for its id, and a song whose id is empty by
    none. *)
Theorem RemoveFavorites_groups_songs_by_id type (songs : SongList) s :
  ∃ ids,
    NoDup ids
    ∧ (∀ id, id ∈ ids ↔
             id ≠ "" ∧ ∃ song, song ∈ songs ∧ id_of type song = id)
    ∧ issued s (RemoveFavorites type songs s)
      = map (remove_request (access_token s) type) ids
    ∧ connections (RemoveFavorites type songs s)
      = connections s
        ++ zip (new_replies s (length ids))
             (map (λ id, RemoveFavoritesReplySlot type
                           (reverse (with_id type id songs))) ids)
    ∧ replies_ (RemoveFavorites type songs s)
      = replies_ s ++ new_replies s (length ids).
Proof.
  exists (uniqueKeys (collect type songs ∅)).
  assert (Hids : ∀ id, id ∈ uniqueKeys (collect type songs ∅) ↔
                       id ≠ "" ∧ ∃ song, song ∈ songs ∧ id_of type song = id).
  { intros id. unfold uniqueKeys. rewrite elem_of_sortedKeys, collect_keys.
    rewrite lookup_empty. split.
    - intros [[? ?]|H]; [done|exact H].
    - intros H. by right. }
  split; [apply sortedKeys_NoDup|]. split; [exact Hids|].
  unfold RemoveFavorites. fold (collect type songs ∅).
  destruct (remove_requests_sent type (collect type songs ∅)
              (uniqueKeys (collect type songs ∅)) s) as [Hsent _].
  destruct (remove_requests_connected type (collect type songs ∅)
              (uniqueKeys (collect type songs ∅)) s) as [Hconn Hrep].
  split; [|split; [|exact Hrep]].
  - unfold issued. rewrite Hsent. by rewrite drop_app_length.
  - rewrite Hconn. f_equal. f_equal. apply map_ext_in. intros id Hin.
    apply list_elem_of_In, Hids in Hin as [Hne _].
    rewrite collect_values by done.
    unfold multiValues. rewrite lookup_empty. cbn. by rewrite app_nil_r.
Qed.

End FavoriteExtra.

(* ===================================================================== *)
(** ** SpotifyService: logging in and out *)
(* ===================================================================== *)

Module ServiceExtra.

Import Service ServiceMore.

(** What the service knows of its login: the tokens in memory, the settings
    and the refresh timer. *)
Definition login_state (s : SpotifyService) :=
  (access_token_ s, refresh_token_ s, expires_in_ s, login_time_ s,
   settings s, refresh_login_timer_ s).

(** The signals emitted between two states. *)
Definition new_signals (s s' : SpotifyService) : list Signal :=
  drop (length (emitted s)) (emitted s').

Definition token_keys : list string :=
  ["access_token"; "refresh_token"; "expires_in"; "login_time"].

Lemma lookup_without_tokens (m : gmap string QVariant) key :
  delete "login_time"
    (delete "expires_in" (delete "refresh_token" (delete "access_token" m)))
  !! key
  = if bool_decide (key ∈ token_keys) then None else m !! key.
Proof.
  unfold token_keys. case_bool_decide as Hkey.
  - repeat (apply elem_of_cons in Hkey as [->|Hkey]);
      [| | | |by apply elem_of_nil in Hkey];
      repeat first [ apply lookup_delete_eq
                   | rewrite lookup_delete_ne by done ].
  - rewrite !lookup_delete_ne; [done|..];
      intros <-; apply Hkey; set_solver.
Qed.

(** [Deauthenticate] field by field. *)
Lemma Deauthenticate_fields s :
  Deauthenticate s
  = {| enabled_ := enabled_ s;
       artistssearchlimit_ := artistssearchlimit_ s;
       albumssearchlimit_ := albumssearchlimit_ s;
       songssearchlimit_ := songssearchlimit_ s;
       fetchalbums_ := fetchalbums_ s;
       download_album_covers_ := download_album_covers_ s;
       access_token_ := "";
       refresh_token_ := "";
       expires_in_ := 0;
       login_time_ := 0;
       settings :=
         delete "login_time"
           (delete "expires_in"
              (delete "refresh_token" (delete "access_token" (settings s))));
       refresh_login_timer_ := stop (refresh_login_timer_ s);
       login_errors_ := login_errors_ s;
       replies_ := replies_ s;
       emitted := emitted s |}.
Proof. reflexivity. Qed.

(** X10: [Deauthenticate] leaves the service not authenticated, with empty
    tokens, times of 0, a stopped refresh timer and none of the four token
    keys in the settings, while every other key of the settings keeps its
    value.  It emits no signal, and doing it twice is doing it once. *)
Theorem Deauthenticate_forgets_login s :
  authenticated (Deauthenticate s) = false
  ∧ access_token_ (Deauthenticate s) = ""
  ∧ refresh_token_ (Deauthenticate s) = ""
  ∧ expires_in_ (Deauthenticate s) = 0
  ∧ login_time_ (Deauthenticate s) = 0
  ∧ active (refresh_login_timer_ (Deauthenticate s)) = false
  ∧ (∀ key, settings (Deauthenticate s) !! key
            = if bool_decide (key ∈ token_keys) then None
              else settings s !! key)
  ∧ emitted (Deauthenticate s) = emitted s
  ∧ Deauthenticate (Deauthenticate s) = Deauthenticate s.
Proof.
  rewrite (Deauthenticate_fields (Deauthenticate s)).
  rewrite !(Deauthenticate_fields s).
  cbn [authenticated access_token_ refresh_token_ expires_in_ login_time_
       settings refresh_login_timer_ emitted enabled_ artistssearchlimit_
       albumssearchlimit_ songssearchlimit_ fetchalbums_
       download_album_covers_ login_errors_ replies_ stop active interval
       strIsEmpty negb].
  repeat split.
  - intros key. apply lookup_without_tokens.
  - f_equal. apply map_eq. intros key.
    rewrite !lookup_without_tokens. by case_bool_decide.
Qed.

Section Login.

Variable kMsecPerSec : Z.
Variable toLongLong : string → Z.
Variable fromBase64 : string → string.

Notation AccessTokenRequestFinished := (AccessTokenRequestFinished kMsecPerSec).
Notation LoadSession := (LoadSession kMsecPerSec toLongLong).
Notation RequestAccessToken := (RequestAccessToken fromBase64).
Notation RedirectArrived := (RedirectArrived fromBase64).

(** The token endpoint accepts: the reply has no error and status 200, and
    its body is a non-empty JSON object with [access_token] and
    [expires_in]. *)
Definition accepted (reply : QNetworkReply) (json_obj : QJsonObject) : Prop :=
  error reply = NoError ∧ httpStatus reply = 200
  ∧ fromJson (readAll reply) = Parsed (DocObject json_obj)
  ∧ objIsEmpty json_obj = false
  ∧ contains json_obj "access_token" = true
  ∧ contains json_obj "expires_in" = true.

Lemma LoginError_frame error s :
  login_state (LoginError error s) = login_state s
  ∧ replies_ (LoginError error s) = replies_ s
  ∧ login_errors_ (LoginError error s) = []
  ∧ emitted (LoginError error s)
    = emitted s
      ++ [LoginFailure
            (errors_html (login_errors_ s
                          ++ (if strIsEmpty error then [] else [error])));
          LoginComplete false].
Proof.
  unfold LoginError, login_state, emit.
  destruct (strIsEmpty error); cbn; rewrite <- ?app_assoc, ?app_nil_r; done.
Qed.

Lemma filter_absent (reply : nat) (l : list nat) :
  reply ∉ l → filter (λ r, r ≠ reply) l = l.
Proof.
  induction l as [|r l IH]; [done|]. intros Hni.
  rewrite filter_cons. rewrite decide_True.
  - f_equal. apply IH. intros Hin. apply Hni. by apply list_elem_of_further.
  - intros ->. apply Hni. apply list_elem_of_here.
Qed.

(** Every way through [AccessTokenRequestFinished] after the reply is taken
    off [replies_]. *)
Ltac token_cases :=
  repeat match goal with
         | |- context [match fromJson ?d with _ => _ end] =>
             destruct (fromJson d) as [?|[| |[|? ?]]]
         | |- context [if ?b then _ else _] => destruct b eqn:?
         | |- context [match login_errors_ ?s with _ => _ end] =>
             destruct (login_errors_ s) eqn:?
         end.

Lemma AccessTokenRequestFinished_replies now reply s :
  replies_ (AccessTokenRequestFinished now reply s)
  = filter (λ r, r ≠ ptr reply) (replies_ s).
Proof.
  unfold AccessTokenRequestFinished.
  case_bool_decide as Hin; cbn [negb].
  2:{ by rewrite filter_absent. }
  cbv zeta.
  token_cases;
    repeat first [ rewrite (proj1 (proj2 (LoginError_frame _ _))) | progress cbn ];
    reflexivity.
Qed.

(** X11: a reply to a token request is handled once.  A reply the service
    does not know changes nothing, a reply that is handled is forgotten, and
    so a reply that finishes again, at whatever time, changes nothing. *)
Theorem AccessTokenRequestFinished_handles_reply_once now now' reply s :
  (ptr reply ∉ replies_ s → AccessTokenRequestFinished now reply s = s)
  ∧ (ptr reply ∉ replies_ (AccessTokenRequestFinished now reply s))
  ∧ AccessTokenRequestFinished now' reply
      (AccessTokenRequestFinished now reply s)
    = AccessTokenRequestFinished now reply s.
Proof.
  assert (Hout : ptr reply ∉ replies_ (AccessTokenRequestFinished now reply s)).
  { rewrite AccessTokenRequestFinished_replies, list_elem_of_filter. tauto. }
  assert (Hskip : ∀ t s0, ptr reply ∉ replies_ s0 →
                          AccessTokenRequestFinished t reply s0 = s0).
  { intros t s0 Hni. unfold AccessTokenRequestFinished.
    by rewrite bool_decide_false. }
  split; [apply Hskip|]. split; [exact Hout|]. by apply Hskip.
Qed.

(** X12: a token reply that is not accepted leaves the login as it was: the
    tokens in memory, the settings and the refresh timer keep their values,
    so a service that was authenticated stays so, and neither [LoginSuccess]
    nor a successful [LoginComplete] is emitted.  Unless the body of a reply
    without error and with status 200 fails to parse, the failure is
    reported: [LoginFailure] and [LoginComplete(false)] are the last signals
    and the list of login errors is empty again. *)
Theorem rejected_token_reply_keeps_login now reply s :
  (∀ json_obj, ¬ accepted reply json_obj) →
  let s' := AccessTokenRequestFinished now reply s in
  login_state s' = login_state s
  ∧ authenticated s' = authenticated s
  ∧ Forall (λ sig, sig ≠ LoginSuccess ∧ sig ≠ LoginComplete true)
      (new_signals s s')
  ∧ (ptr reply ∈ replies_ s →
     (∀ e, fromJson (readAll reply) = ParseError e →
           error reply ≠ NoError ∨ httpStatus reply ≠ 200) →
     ∃ html, new_signals s s' = [LoginFailure html; LoginComplete false]
             ∧ login_errors_ s' = []).
Proof.
  intros Hrej s'. subst s'.
  assert (Hstate : ∀ (P : SpotifyService → Prop),
            (ptr reply ∉ replies_ s → P s) →
            (∀ error s0, login_state s0 = login_state s →
                         emitted s0 = emitted s →
                         P (LoginError error s0)) →
            (∀ text s0, login_state s0 = login_state s →
                        emitted s0 = emitted s →
                        (∃ e, fromJson (readAll reply) = ParseError e
                              ∧ error reply = NoError ∧ httpStatus reply = 200
                              ∧ ptr reply ∈ replies_ s) →
                        P (emit (BaseError text) s0)) →
            P (AccessTokenRequestFinished now reply s)).
  { intros P Hs Herr Hbase. unfold AccessTokenRequestFinished.
    case_bool_decide as Hin; cbn [negb]; [|by apply Hs]. cbv zeta.
    destruct (negb (error reply =? NoError) || negb (httpStatus reply =? 200))
      eqn:Hfail.
    - destruct (negb (error reply =? NoError) && (error reply <? 200));
        [by apply Herr|].
      apply Herr; token_cases; reflexivity.
    - apply orb_false_iff in Hfail as [He Hs'].
      apply negb_false_iff, Z.eqb_eq in He.
      apply negb_false_iff, Z.eqb_eq in Hs'.
      destruct (fromJson (readAll reply)) as [e|[|a|o]] eqn:Hj; cbn.
      + apply Hbase; [done..|]. by exists e.
      + by apply Herr.
      + by apply Herr.
      + destruct (objIsEmpty o) eqn:Ho; [by apply Herr|].
        destruct (negb (contains o "access_token")
                  || negb (contains o "expires_in")) eqn:Hc; [by apply Herr|].
        apply orb_false_iff in Hc as [Hc1 Hc2].
        apply negb_false_iff in Hc1, Hc2.
        exfalso. apply (Hrej o). by repeat split. }
  split; [|split; [|split]].
  - apply Hstate; [done| |done].
    intros error s0 H _. by rewrite (proj1 (LoginError_frame _ _)).
  - unfold authenticated. f_equal. f_equal.
    assert (H : login_state (AccessTokenRequestFinished now reply s)
                = login_state s).
    { apply Hstate; [done| |done].
      intros error s0 H _. by rewrite (proj1 (LoginError_frame _ _)). }
    unfold login_state in H. congruence.
  - unfold new_signals. apply Hstate.
    + intros _. rewrite drop_all. constructor.
    + intros error s0 _ He.
      rewrite (proj2 (proj2 (proj2 (LoginError_frame _ _)))), He.
      rewrite drop_app_length. repeat constructor; discriminate.
    + intros text s0 _ He _. unfold emit. cbn. rewrite He.
      rewrite drop_app_length. repeat constructor; discriminate.
  - intros Hin Hparse. unfold new_signals. apply Hstate.
    + intros Hni. contradiction.
    + intros error s0 _ He.
      rewrite (proj2 (proj2 (proj2 (LoginError_frame _ _)))), He.
      rewrite drop_app_length.
      eexists. split; [reflexivity|]. apply (LoginError_frame error s0).
    + intros text s0 _ _ (e & Hj & He & Hs' & _).
      destruct (Hparse e Hj); congruence.
Qed.

(** X13: the errors of a login are reported together and once.  After SSL
    errors were noted, [LoginError] emits [LoginFailure] with the errors noted
    before, the SSL errors and its own error if it has one, each followed by a
    line break, then [LoginComplete(false)]; it leaves no error behind and
    does not touch the login. *)
Theorem LoginError_reports_noted_errors error ssl_errors s :
  let s' := LoginError error (HandleLoginSSLErrors ssl_errors s) in
  new_signals s s'
  = [LoginFailure
       (errors_html (login_errors_ s ++ ssl_errors
                     ++ (if strIsEmpty error then [] else [error])));
     LoginComplete false]
  ∧ login_errors_ s' = []
  ∧ login_state s' = login_state s.
Proof.
  assert (Hssl : ∀ l s0,
            login_errors_ (HandleLoginSSLErrors l s0) = login_errors_ s0 ++ l
            ∧ emitted (HandleLoginSSLErrors l s0) = emitted s0
            ∧ login_state (HandleLoginSSLErrors l s0) = login_state s0).
  { induction l as [|e l IH]; intros s0.
    - cbn. by rewrite app_nil_r.
    - unfold HandleLoginSSLErrors in *. cbn [fold_left].
      destruct (IH (set_login_errors_ (login_errors_ s0 ++ [e]) s0))
        as (-> & -> & ->).
      cbn. by rewrite <- app_assoc. }
  intros s'. subst s'.
  destruct (Hssl ssl_errors s) as (He & Hem & Hst).
  destruct (LoginError_frame error (HandleLoginSSLErrors ssl_errors s))
    as (H1 & _ & H3 & H4).
  unfold new_signals. rewrite H4, Hem, He, drop_app_length, <- app_assoc.
  split; [done|]. split; [done|]. by rewrite H1.
Qed.

Lemma to_quint64_to_qint64 z : to_quint64 (to_qint64 z) = to_quint64 z.
Proof.
  unfold to_quint64, to_qint64.
  rewrite Zminus_mod_idemp_l.
  f_equal. lia.
Qed.

Lemma to_quint64_idemp z : to_quint64 (to_quint64 z) = to_quint64 z.
Proof. unfold to_quint64. by rewrite Z.mod_mod. Qed.

Lemma accepted_login now reply s json_obj :
  ptr reply ∈ replies_ s → accepted reply json_obj →
  let s' := AccessTokenRequestFinished now reply s in
  access_token_ s' = toString (value json_obj "access_token")
  ∧ refresh_token_ s'
    = (if contains json_obj "refresh_token"
       then toString (value json_obj "refresh_token") else refresh_token_ s)
  ∧ expires_in_ s' = to_quint64 (toInt (value json_obj "expires_in"))
  ∧ login_time_ s' = to_quint64 now
  ∧ settings s' !! "access_token" = Some (VString (access_token_ s'))
  ∧ settings s' !! "refresh_token" = Some (VString (refresh_token_ s'))
  ∧ settings s' !! "expires_in" = Some (VULongLong (expires_in_ s'))
  ∧ settings s' !! "login_time" = Some (VULongLong (login_time_ s'))
  ∧ emitted s' = emitted s ++ [LoginComplete true; LoginSuccess]
  ∧ login_errors_ s' = login_errors_ s.
Proof.
  intros Hin (He & Hs & Hj & Ho & Ha & Hx) s'. subst s'.
  unfold AccessTokenRequestFinished.
  rewrite bool_decide_true by done. simpl.
  rewrite He, Hs. simpl. rewrite Hj. simpl. rewrite Ho, Ha, Hx. simpl.
  destruct (contains json_obj "refresh_token"); destruct (0 <? _); simpl;
    rewrite <- ?app_assoc; repeat split; by simplify_map_eq.
Qed.

(** X14: what a login stores is what a start loads.  After an accepted
    token reply, [LoadSession] on a service with the settings that reply left
    restores the access token, the refresh token, the expiry and the login
    time the reply put in memory; and when the refresh token is not empty the
    refresh timer runs. *)
Theorem stored_login_is_loaded now now' reply s s0 json_obj :
  ptr reply ∈ replies_ s → accepted reply json_obj →
  let s' := AccessTokenRequestFinished now reply s in
  settings s0 = settings s' →
  access_token_ (LoadSession now' s0) = access_token_ s'
  ∧ refresh_token_ (LoadSession now' s0) = refresh_token_ s'
  ∧ expires_in_ (LoadSession now' s0) = expires_in_ s'
  ∧ login_time_ (LoadSession now' s0) = login_time_ s'
  ∧ (refresh_token_ s' ≠ "" →
     active (refresh_login_timer_ (LoadSession now' s0)) = true).
Proof.
  intros Hin Hacc s' Hset.
  destruct (accepted_login now reply s json_obj Hin Hacc)
    as (H1 & H2 & H3 & H4 & H5 & H6 & H7 & H8 & _).
  fold s' in H1, H2, H3, H4, H5, H6, H7, H8.
  unfold LoadSession. cbn. rewrite Hset, H5, H6, H7, H8. cbn.
  rewrite !to_quint64_to_qint64.
  assert (He : to_quint64 (expires_in_ s') = expires_in_ s').
  { rewrite H3. apply to_quint64_idemp. }
  assert (Hl : to_quint64 (login_time_ s') = login_time_ s').
  { rewrite H4. apply to_quint64_idemp. }
  change (refresh_token_ s' =? "")%string with (strIsEmpty (refresh_token_ s')).
  destruct (strIsEmpty (refresh_token_ s')) eqn:Hr; cbn;
    rewrite ?He, ?Hl; repeat split; try done.
  intros Hne. by apply FavoriteSpec.strIsEmpty_true in Hr.
Qed.

(** The parameters of the token requests. *)
Definition is_token_request (req : QNetworkRequest) : Prop :=
  verb req = POST ∧ target req = kOAuthAccessTokenUrl
  ∧ ("client_id", fromBase64 kClientIDB64) ∈ query req
  ∧ ("client_secret", fromBase64 kClientSecretB64) ∈ query req.

(** X15: [RequestAccessToken] always stops the refresh timer and sends at
    most one request, a POST to the token address.  With a code and a
    redirect address it asks for the [authorization_code] grant with both;
    without them it asks for the [refresh_token] grant with the stored
    refresh token, but only if that token is not empty and the service is
    enabled; otherwise it sends nothing.  The tokens in memory and the
    settings are not touched, and the reply of a request is noted in
    [replies_]. *)
Theorem RequestAccessToken_grants code redirect_url s network :
  let sn := RequestAccessToken code redirect_url (s, network) in
  active (refresh_login_timer_ sn.1) = false
  ∧ (access_token_ sn.1, refresh_token_ sn.1, settings sn.1, emitted sn.1)
    = (access_token_ s, refresh_token_ s, settings s, emitted s)
  ∧ if negb (strIsEmpty code) && negb (strIsEmpty redirect_url) then
      (∃ req, sent sn.2 = sent network ++ [req] ∧ is_token_request req
              ∧ drop 2 (query req)
                = [("grant_type", "authorization_code"); ("code", code);
                   ("redirect_uri", redirect_url)])
      ∧ replies_ sn.1 = replies_ s ++ [next_reply network]
    else if negb (strIsEmpty (refresh_token_ s)) && enabled_ s then
      (∃ req, sent sn.2 = sent network ++ [req] ∧ is_token_request req
              ∧ drop 2 (query req)
                = [("grant_type", "refresh_token");
                   ("refresh_token", refresh_token_ s)])
      ∧ replies_ sn.1 = replies_ s ++ [next_reply network]
    else sn.2 = network ∧ replies_ sn.1 = replies_ s.
Proof.
  unfold RequestAccessToken, is_token_request. cbv beta iota zeta.
  destruct (negb (strIsEmpty code) && negb (strIsEmpty redirect_url)); cbn.
  - split; [done|]. split; [done|]. split; [|done].
    eexists. split; [reflexivity|]. cbn. set_solver.
  - change (refresh_token_ s =? "")%string with (strIsEmpty (refresh_token_ s)).
    destruct (negb (strIsEmpty (refresh_token_ s)) && enabled_ s); cbn.
    + split; [done|]. split; [done|]. split; [|done].
      eexists. split; [reflexivity|]. cbn. set_solver.
    + done.
Qed.

(** X16: a login from the code of the browser to the tokens.  When
    [RequestAccessToken] is given a code and a redirect address, the reply to
    the request it sends is one the service knows; if the token endpoint
    accepts, the service is left with the access token of the reply, which is
    authenticated exactly when that token is not empty, and
    [LoginComplete(true)] and [LoginSuccess] are emitted. *)
Theorem code_exchange_logs_in code redirect_url now reply json_obj s network :
  code ≠ "" → redirect_url ≠ "" →
  ptr reply = next_reply network →
  accepted reply json_obj →
  let sn := RequestAccessToken code redirect_url (s, network) in
  let s' := AccessTokenRequestFinished now reply sn.1 in
  access_token_ s' = toString (value json_obj "access_token")
  ∧ authenticated s'
    = negb (strIsEmpty (toString (value json_obj "access_token")))
  ∧ new_signals s s' = [LoginComplete true; LoginSuccess]
  ∧ (next_reply network ∉ replies_ s → replies_ s' = replies_ s).
Proof.
  intros Hc Hu Hp Hacc sn s'.
  apply FavoriteSpec.strIsEmpty_false in Hc, Hu.
  assert (Hsn : replies_ sn.1 = replies_ s ++ [next_reply network]
                ∧ emitted sn.1 = emitted s).
  { subst sn. unfold RequestAccessToken. rewrite Hc, Hu. by cbn. }
  destruct Hsn as [Hr Hem].
  assert (Hin : ptr reply ∈ replies_ sn.1).
  { rewrite Hr, Hp, elem_of_app, list_elem_of_singleton. by right. }
  destruct (accepted_login now reply sn.1 json_obj Hin Hacc)
    as (H1 & _ & _ & _ & _ & _ & _ & _ & H9 & _).
  fold s' in H1, H9.
  split; [done|]. split; [unfold authenticated; by rewrite H1|].
  split.
  - unfold new_signals. by rewrite H9, Hem, drop_app_length.
  - intros Hfresh. subst s'.
    rewrite AccessTokenRequestFinished_replies, Hr, Hp, filter_app.
    rewrite filter_absent by done.
    rewrite filter_cons, decide_False by (intros H; by apply H).
    by rewrite filter_nil, app_nil_r.
Qed.

(** The query items with the value of every [state] item replaced. *)
Definition with_state (state : string) (items : list (string * string))
    : list (string * string) :=
  map (λ item, if String.eqb item.1 "state" then (item.1, state) else item)
    items.

Lemma queryItem_with_state state items key :
  queryItem (with_state state items) key
  = if String.eqb key "state"
    then (if hasQueryItem items "state" then Some state else None)
    else queryItem items key.
Proof.
  unfold hasQueryItem.
  induction items as [|[k v] items IH]; cbn [with_state map queryItem fst].
  - by destruct (String.eqb key "state").
  - fold (with_state state items). rewrite IH. clear IH.
    destruct (String.eqb k "state") eqn:Hk; cbn [fst].
    + apply String.eqb_eq in Hk as ->.
      destruct (String.eqb "state" key) eqn:Hkey.
      * apply String.eqb_eq in Hkey as <-. by rewrite String.eqb_refl.
      * rewrite String.eqb_sym in Hkey. by rewrite Hkey.
    + destruct (String.eqb k key) eqn:Hkey; [|done].
      apply String.eqb_eq in Hkey as <-. by rewrite Hk.
Qed.

(** X17: what [RedirectArrived] does with the redirect of the browser.  The
    server is released in every case.  An [error] item, an invalid address,
    a server error, or an address without [code] or without [state] sends
    nothing.  And the value of [state] is never looked at: two redirects
    whose items differ only in the values of [state] have the same effect. *)
Theorem RedirectArrived_ignores_state_value server sn state items :
  (RedirectArrived server sn).1 = None
  ∧ (∀ server_, server = Some server_ →
       server_error server_ ≠ ""
       ∨ request_url server_ = None
       ∨ (∃ items', request_url server_ = Some items'
                    ∧ (hasQueryItem items' "error" = true
                       ∨ hasQueryItem items' "code" = false
                       ∨ hasQueryItem items' "state" = false)) →
       (RedirectArrived server sn).2.2 = sn.2
       ∧ replies_ (RedirectArrived server sn).2.1 = replies_ sn.1)
  ∧ ∀ error port,
      RedirectArrived
        (Some {| server_error := error;
                 request_url := Some (with_state state items);
                 server_port := port |}) sn
      = RedirectArrived
          (Some {| server_error := error; request_url := Some items;
                   server_port := port |}) sn.
Proof.
  split; [by destruct server|]. split.
  - intros server_ -> Hcase. unfold RedirectArrived. cbn [fst snd].
    assert (Hquiet : ∀ error,
              (LoginError error sn.1, sn.2).2 = sn.2
              ∧ replies_ (LoginError error sn.1, sn.2).1 = replies_ sn.1).
    { intros error. cbn [fst snd]. split; [done|apply LoginError_frame]. }
    destruct (strIsEmpty (server_error server_)) eqn:He; [|apply Hquiet].
    apply FavoriteSpec.strIsEmpty_true in He.
    destruct Hcase as [Hne|[Hnone|(items' & Hsome & Hitems)]]; [done| |].
    + rewrite Hnone. apply Hquiet.
    + rewrite Hsome.
      destruct (hasQueryItem items' "error") eqn:Herr; [apply Hquiet|].
      destruct Hitems as [?|[Hc|Hs]]; [done| |].
      * rewrite Hc. apply Hquiet.
      * rewrite Hs, andb_false_r. apply Hquiet.
  - intros error port. unfold RedirectArrived. cbn [server_error request_url
      server_port].
    unfold hasQueryItem, queryItemValue.
    rewrite !queryItem_with_state. cbn [String.eqb Ascii.eqb Bool.eqb].
    unfold hasQueryItem.
    destruct (queryItem items "state"); reflexivity.
Qed.

End Login.

(** A token reply that failed with an HTTP error. *)
Definition unauthorized_reply : QNetworkReply :=
  {| ptr := 7%nat; error := 204; errorString := "Host requires authentication";
     httpStatus := 401; readAll := noData; mimetype := "";
     mimeSupported := false; imageLoads := false; imageSaves := false |}.

Lemma rejected_token_reply_keeps_login_witness :
  login_state
    (Service.AccessTokenRequestFinished 1000 2000 unauthorized_reply
       TokenSpec.stored_service)
  = login_state TokenSpec.stored_service.
Proof.
  apply (rejected_token_reply_keeps_login 1000 2000 unauthorized_reply
           TokenSpec.stored_service).
  intros json_obj [H _]. discriminate H.
Defined.

Lemma stored_login_is_loaded_witness :
  access_token_
    (ServiceMore.LoadSession 1000 (λ _, 0) 5000
       (Service.AccessTokenRequestFinished 1000 2000 TokenSpec.token_reply
          TokenSpec.stored_service))
  = "X".
Proof.
  destruct (stored_login_is_loaded 1000 (λ _, 0) 2000 5000
              TokenSpec.token_reply TokenSpec.stored_service
              (Service.AccessTokenRequestFinished 1000 2000
                 TokenSpec.token_reply TokenSpec.stored_service)
              [("access_token", JString "X"); ("expires_in", JInt 3600)])
    as (H & _).
  - apply list_elem_of_here.
  - repeat split; reflexivity.
  - reflexivity.
  - exact H.
Defined.

Lemma code_exchange_logs_in_witness :
  authenticated
    (Service.AccessTokenRequestFinished 1000 2000 TokenSpec.token_reply
       (ServiceMore.RequestAccessToken (λ text, text) "code"
          "http://localhost:63111/"
          (TokenSpec.stored_service, {| next_reply := 7; sent := [] |})).1)
  = true.
Proof.
  destruct (code_exchange_logs_in 1000 (λ text, text) "code"
              "http://localhost:63111/" 2000 TokenSpec.token_reply
              [("access_token", JString "X"); ("expires_in", JInt 3600)]
              TokenSpec.stored_service {| next_reply := 7; sent := [] |})
    as (_ & H & _).
  - discriminate.
  - discriminate.
  - reflexivity.
  - repeat split; reflexivity.
  - exact H.
Defined.

End ServiceExtra.

(* ===================================================================== *)
(** ** The crawl: how it starts and how it ends *)
(* ===================================================================== *)

Module CrawlExtra.

Import Request CrawlSafety CrawlSpec.

Lemma deliver_unconnected s e : connections s = [] → deliver s e = s.
Proof. intros H. unfold deliver. rewrite H. by destruct e. Qed.

Lemma run_unconnected s events : connections s = [] → run s events = s.
Proof.
  intros H. unfold run. induction events as [|e events IH]; [done|].
  cbn [fold_left]. by rewrite deliver_unconnected.
Qed.

(** X18: a crawl that is started while the service is not authenticated
    does nothing but say "Authenticating...": it sends no request, and
    whatever is delivered to it afterwards it emits nothing more, so no
    [Results] ever comes. *)
Theorem unauthenticated_crawl_is_silent service app network type search
    events :
  Service.authenticated service = false →
  let s := run (start service app network type search) events in
  emitted s = [UpdateStatus (id_of_search search) "Authenticating..."]
  ∧ results s = []
  ∧ network_ s = network
  ∧ finished_ s = false.
Proof.
  intros Ha s. subst s.
  assert (Hstart : ∀ s0, service_ s0 = service →
            Process s0
            = emit (UpdateStatus (query_id_ s0) "Authenticating...") s0).
  { intros s0 Hs. unfold Process. by rewrite Hs, Ha. }
  unfold start. destruct search as [[query_id search_text]|];
    rewrite Hstart by reflexivity; rewrite run_unconnected by reflexivity;
    done.
Qed.

Lemma unauthenticated_crawl_is_silent_witness :
  results
    (run (start (Service.Deauthenticate (a_service false)) an_app a_network
            QueryType_Songs None) songs_events) = [].
Proof.
  apply (unauthenticated_crawl_is_silent
           (Service.Deauthenticate (a_service false)) an_app a_network
           QueryType_Songs None songs_events).
  reflexivity.
Defined.

(** The types [Process] has no case for. *)
Definition no_query (type : QueryType) : Prop :=
  type = QueryType_None ∨ type = QueryType_StreamURL.

(** X19: a crawl of a type [Process] does not know ends at once: it sends
    no request and emits one [Results], without songs and with the text
    "Invalid query type."; what is delivered afterwards changes nothing. *)
Theorem unknown_type_fails_at_once service app network type search events :
  Service.authenticated service = true →
  no_query type →
  let s := run (start service app network type search) events in
  emitted s
  = [Results (id_of_search search) ∅ "Invalid query type.<br />"]
  ∧ network_ s = network
  ∧ finished_ s = true.
Proof.
  intros Ha Htype s. subst s.
  unfold start.
  destruct Htype as [-> | ->]; destruct search as [[query_id search_text]|];
    rewrite Process_authenticated by exact Ha;
    rewrite run_unconnected by reflexivity; done.
Qed.

Lemma unknown_type_fails_at_once_witness :
  finished_
    (run (start (a_service false) an_app a_network QueryType_StreamURL None)
       songs_events) = true.
Proof.
  apply (unknown_type_fails_at_once (a_service false) an_app a_network
           QueryType_StreamURL None songs_events).
  - reflexivity.
  - by right.
Defined.

(** X20: whatever is delivered to a crawl, in whatever order, [Results] is
    emitted at most once, and it has been emitted exactly when the crawl is
    marked finished. *)
Theorem results_at_most_once service app network type search events :
  let s := run (start service app network type search) events in
  (length (results s) ≤ 1)%nat
  ∧ (finished_ s = true ↔ length (results s) = 1%nat)
  ∧ (finished_ s = false ↔ results s = []).
Proof.
  intros s.
  assert (H : once s).
  { apply (run_safe _ events (start_safe service app network type search)). }
  destruct H as [[Hf Hr]|[Hf [r Hr]]]; rewrite Hf, Hr; cbn;
    repeat split; intros; first [done | lia].
Qed.

(** The first request of a crawl: a library query asks for the first page
    of its listing without parameters, a search asks [search] for its type
    and text, with the limit of the service for the type when that is
    positive ([page_params] leaves out a limit or an offset that is not). *)
Definition first_request (service : Service.SpotifyService)
    (type : QueryType) (search_text : string) : option QNetworkRequest :=
  let get ressource parameters :=
    Some {| verb := GET; target := kApiUrl +:+ "/" +:+ ressource;
            query := parameters;
            bearer := bearer_of (Service.access_token_ service) |} in
  let search kind limit :=
    get "search"
      ([("type", kind); ("q", search_text)]
       ++ page_params {| offset := 0; limit := limit |}) in
  match type with
  | QueryType_Artists => get "me/artists" []
  | QueryType_Albums => get "me/albums" []
  | QueryType_Songs => get "me/tracks" []
  | QueryType_SearchArtists =>
      search "artist" (Service.artistssearchlimit_ service)
  | QueryType_SearchAlbums =>
      search "album" (Service.albumssearchlimit_ service)
  | QueryType_SearchSongs =>
      search "track" (Service.songssearchlimit_ service)
  | _ => None
  end.

Definition text_of_search (search : option (Z * string)) : string :=
  match search with Some (_, search_text) => search_text | None => "" end.

(** X21: starting a crawl on an authenticated service sends exactly one
    request, the first request of its type, and connects its reply; nothing
    is reported yet.  A song search asks for tracks even when albums are to
    be fetched. *)
Theorem start_sends_first_request service app network type search req :
  Service.authenticated service = true →
  first_request service type (text_of_search search) = Some req →
  let s := start service app network type search in
  sent (network_ s) = sent network ++ [req]
  ∧ next_reply (network_ s) = S (next_reply network)
  ∧ map fst (connections s) = [next_reply network]
  ∧ replies_ s = [next_reply network]
  ∧ results s = []
  ∧ finished_ s = false.
Proof.
  intros Ha Hreq s. subst s. unfold start.
  destruct type; try discriminate Hreq;
    destruct search as [[query_id search_text]|];
    rewrite Process_authenticated by exact Ha;
    cbn [type_ newRequest Search set_search_text_ set_query_id_];
    injection Hreq as <-;
    repeat split; vm_compute; reflexivity.
Qed.

Lemma start_sends_first_request_witness :
  sent (network_ (start (a_service true) an_app a_network
                    QueryType_SearchSongs (Some (3, "abba"))))
  = [{| verb := GET; target := "https://api.spotify.com/v1/search";
        query := [("type", "track"); ("q", "abba"); ("limit", "10")];
        bearer := Some "token" |}].
Proof.
  apply (start_sends_first_request (a_service true) an_app a_network
           QueryType_SearchSongs (Some (3, "abba"))); reflexivity.
Defined.

End CrawlExtra.

(* ===================================================================== *)
(** ** The crawl: the bounded queues *)
(* ===================================================================== *)

Module QueueExtra.

Import Request CrawlSafety CrawlSpec.

(** How many requests a flush sends: as many as the queue holds and the
    maximum leaves room for. *)
Definition room (maximum active : Z) (queued : nat) : nat :=
  Nat.min queued (Z.to_nat (maximum - active)).

Lemma room_nil maximum active : room maximum active 0 = 0%nat.
Proof. done. Qed.

Lemma room_full maximum active queued :
  (active <? maximum) = false → room maximum active queued = 0%nat.
Proof. intros H%Z.ltb_ge. unfold room. lia. Qed.

Lemma room_next maximum active queued :
  (active <? maximum) = true →
  room maximum active (S queued) = S (room maximum (active + 1) queued).
Proof. intros H%Z.ltb_lt. unfold room. lia. Qed.

Definition artist_albums_request (access_token : string)
    (request : ArtistAlbumsRequest) : QNetworkRequest :=
  {| verb := GET;
     target := kApiUrl +:+ "/"
               +:+ ("artists/" +:+ artist_id (aa_artist request) +:+ "/albums");
     query := offset_params (aa_offset request);
     bearer := bearer_of access_token |}.

Definition artist_albums_slot (request : ArtistAlbumsRequest) : Slot :=
  ArtistAlbumsReplySlot (aa_artist request) (aa_offset request).

Definition album_songs_request (access_token : string)
    (request : AlbumSongsRequest) : QNetworkRequest :=
  {| verb := GET;
     target := kApiUrl +:+ "/"
               +:+ ("albums/" +:+ album_id (as_album request) +:+ "/tracks");
     query := offset_params (as_offset request);
     bearer := bearer_of access_token |}.

Definition album_songs_slot (request : AlbumSongsRequest) : Slot :=
  AlbumSongsReplySlot (as_artist request) (as_album request)
    (as_offset request).

Definition album_cover_request (request : AlbumCoverRequest)
    : QNetworkRequest :=
  {| verb := GET; target := ac_url request; query := []; bearer := None |}.

Definition album_cover_slot (request : AlbumCoverRequest) : Slot :=
  AlbumCoverSlot (ac_album_id request) (ac_url request) (ac_filename request).

(** What a flush of [queue] leaves, from [s] to [s']: the first [k]
    descriptors have been sent in order and connected to their slots, the
    counter has grown by [k], and the rest is still queued. *)
Record flushed {R} (requests : list R) (k : nat)
    (request_of : R → QNetworkRequest) (slot_of : R → Slot)
    (queue_of : SpotifyRequest → list R) (active_of : SpotifyRequest → Z)
    (s s' : SpotifyRequest) : Prop := {
  flushed_sent :
    sent (network_ s')
    = sent (network_ s) ++ map request_of (take k requests);
  flushed_next :
    next_reply (network_ s') = (next_reply (network_ s) + k)%nat;
  flushed_queue : queue_of s' = drop k requests;
  flushed_active : active_of s' = active_of s + Z.of_nat k;
  flushed_slots :
    map snd (connections s')
    = map snd (connections s) ++ map slot_of (take k requests);
  flushed_replies :
    map fst (connections s')
    = map fst (connections s) ++ seq (next_reply (network_ s)) k;
  flushed_service : service_ s' = service_ s
}.

Lemma flushed_none {R} (requests : list R) request_of slot_of queue_of
    active_of s :
  queue_of s = requests →
  flushed requests 0 request_of slot_of queue_of active_of s s.
Proof.
  intros Hq. split; cbn; rewrite ?app_nil_r, ?Nat.add_0_r, ?Z.add_0_r; done.
Qed.

Lemma flushed_step {R} (request : R) (requests : list R) k request_of slot_of
    queue_of active_of s s1 s' :
  sent (network_ s1) = sent (network_ s) ++ [request_of request] →
  next_reply (network_ s1) = S (next_reply (network_ s)) →
  active_of s1 = active_of s + 1 →
  connections s1
  = connections s ++ [(next_reply (network_ s), slot_of request)] →
  service_ s1 = service_ s →
  flushed requests k request_of slot_of queue_of active_of s1 s' →
  flushed (request :: requests) (S k) request_of slot_of queue_of active_of
    s s'.
Proof.
  intros Hs Hn Ha Hc Hsv [H1 H2 H3 H4 H5 H6 H7]. split; cbn.
  - rewrite H1, Hs, <- app_assoc. done.
  - rewrite H2, Hn. lia.
  - done.
  - rewrite H4, Ha. lia.
  - rewrite H5, Hc, map_app, <- app_assoc. done.
  - rewrite H6, Hc, Hn, map_app, <- app_assoc. done.
  - by rewrite H7.
Qed.

Lemma FlushArtistAlbumsRequests_loop_flushed queue s :
  artist_albums_requests_queue_ s = queue →
  flushed queue
    (room kMaxConcurrentArtistAlbumsRequests
       (artist_albums_requests_active_ s) (length queue))
    (artist_albums_request (Service.access_token_ (service_ s)))
    artist_albums_slot artist_albums_requests_queue_
    artist_albums_requests_active_ s
    (FlushArtistAlbumsRequests_loop queue s).
Proof.
  revert s. induction queue as [|request queue IH]; intros s Hq.
  - by apply flushed_none.
  - cbn [FlushArtistAlbumsRequests_loop length].
    destruct (artist_albums_requests_active_ s
              <? kMaxConcurrentArtistAlbumsRequests) eqn:Hroom.
    + rewrite room_next by done.
      cbv beta zeta iota delta [CreateRequest Base.CreateRequest send].
      match goal with
      | |- flushed _ _ _ _ _ _ _ (FlushArtistAlbumsRequests_loop _ ?s1) =>
          eapply (flushed_step _ _ _ _ _ _ _ s s1);
          [..|
           replace (Service.access_token_ (service_ s))
             with (Service.access_token_ (service_ s1)) by reflexivity;
           replace (artist_albums_requests_active_ s + 1)
             with (artist_albums_requests_active_ s1) by reflexivity;
           apply IH]
      end; reflexivity.
    + rewrite room_full by done. by apply flushed_none.
Qed.

Lemma FlushAlbumSongsRequests_loop_flushed queue s :
  album_songs_requests_queue_ s = queue →
  flushed queue
    (room kMaxConcurrentAlbumSongsRequests
       (album_songs_requests_active_ s) (length queue))
    (album_songs_request (Service.access_token_ (service_ s)))
    album_songs_slot album_songs_requests_queue_
    album_songs_requests_active_ s
    (FlushAlbumSongsRequests_loop queue s).
Proof.
  revert s. induction queue as [|request queue IH]; intros s Hq.
  - by apply flushed_none.
  - cbn [FlushAlbumSongsRequests_loop length].
    destruct (album_songs_requests_active_ s
              <? kMaxConcurrentAlbumSongsRequests) eqn:Hroom.
    + rewrite room_next by done.
      cbv beta zeta iota delta [CreateRequest Base.CreateRequest send].
      match goal with
      | |- flushed _ _ _ _ _ _ _ (FlushAlbumSongsRequests_loop _ ?s1) =>
          eapply (flushed_step _ _ _ _ _ _ _ s s1);
          [..|
           replace (Service.access_token_ (service_ s))
             with (Service.access_token_ (service_ s1)) by reflexivity;
           replace (album_songs_requests_active_ s + 1)
             with (album_songs_requests_active_ s1) by reflexivity;
           apply IH]
      end; reflexivity.
    + rewrite room_full by done. by apply flushed_none.
Qed.

Lemma FlushAlbumCoverRequests_loop_flushed queue s :
  album_cover_requests_queue_ s = queue →
  flushed queue
    (room kMaxConcurrentAlbumCoverRequests
       (album_covers_requests_active_ s) (length queue))
    album_cover_request album_cover_slot album_cover_requests_queue_
    album_covers_requests_active_ s
    (FlushAlbumCoverRequests_loop queue s).
Proof.
  revert s. induction queue as [|request queue IH]; intros s Hq.
  - by apply flushed_none.
  - cbn [FlushAlbumCoverRequests_loop length].
    destruct (album_covers_requests_active_ s
              <? kMaxConcurrentAlbumCoverRequests) eqn:Hroom.
    + rewrite room_next by done.
      cbv beta zeta iota delta [CreateRequest Base.CreateRequest send].
      match goal with
      | |- flushed _ _ _ _ _ _ _ (FlushAlbumCoverRequests_loop _ ?s1) =>
          eapply (flushed_step _ _ _ _ _ _ _ s s1);
          [..|
           replace (album_covers_requests_active_ s + 1)
             with (album_covers_requests_active_ s1) by reflexivity;
           apply IH]
      end; reflexivity.
    + rewrite room_full by done. by apply flushed_none.
Qed.

(** X22: a flush sends the front of its queue, in the order of the queue,
    for as long as the counter of requests in flight is below the maximum:
    of the albums of artists and of the songs of albums up to three at a
    time, of the covers one at a time.  Every request sent is connected to
    the slot of its descriptor and counted, its reply is a new one, and the
    descriptors that found no room stay queued in their order.  The requests
    for listings carry the token of the service, the requests for covers
    carry none. *)
Theorem flush_sends_front_of_queue s :
  flushed (artist_albums_requests_queue_ s)
    (room 3 (artist_albums_requests_active_ s)
       (length (artist_albums_requests_queue_ s)))
    (artist_albums_request (Service.access_token_ (service_ s)))
    artist_albums_slot artist_albums_requests_queue_
    artist_albums_requests_active_ s (FlushArtistAlbumsRequests s)
  ∧ flushed (album_songs_requests_queue_ s)
      (room 3 (album_songs_requests_active_ s)
         (length (album_songs_requests_queue_ s)))
      (album_songs_request (Service.access_token_ (service_ s)))
      album_songs_slot album_songs_requests_queue_
      album_songs_requests_active_ s (FlushAlbumSongsRequests s)
  ∧ flushed (album_cover_requests_queue_ s)
      (room 1 (album_covers_requests_active_ s)
         (length (album_cover_requests_queue_ s)))
      album_cover_request album_cover_slot album_cover_requests_queue_
      album_covers_requests_active_ s (FlushAlbumCoverRequests s).
Proof.
  split; [|split].
  - by apply FlushArtistAlbumsRequests_loop_flushed.
  - by apply FlushAlbumSongsRequests_loop_flushed.
  - by apply FlushAlbumCoverRequests_loop_flushed.
Qed.

End QueueExtra.

(* ===================================================================== *)
(** ** The crawl: album covers *)
(* ===================================================================== *)

Module CoverExtra.

Import Request CrawlSafety CrawlSpec QueueExtra.

(** The descriptor [AddAlbumCoverRequest] makes for a song. *)
Definition cover_of (app : Application) (song : Song.Song)
    : AlbumCoverRequest :=
  {| ac_artist_id := ""; ac_album_id := Song.album_id song;
     ac_url := Song.art_automatic song;
     ac_filename := CoverFilePath app song |}.

(** What a run of [AddAlbumCoverRequest] over [songs] adds, from [s] to
    [s']: the descriptors [new] at the end of the queue. *)
Record covers_added (songs : SongList) (new : list AlbumCoverRequest)
    (s s' : SpotifyRequest) : Prop := {
  added_queue :
    album_cover_requests_queue_ s' = album_cover_requests_queue_ s ++ new;
  added_requested :
    album_covers_requested_ s'
    = album_covers_requested_ s + Z.of_nat (length new);
  added_distinct : NoDup (map ac_album_id new);
  added_new :
    ∀ request, request ∈ new →
      album_covers_requests_sent_ s !! ac_album_id request = None
      ∧ ac_filename request ≠ ""
      ∧ ∃ song, song ∈ songs ∧ request = cover_of (app_ s) song;
  added_sent :
    ∀ album, is_Some (album_covers_requests_sent_ s' !! album) ↔
             is_Some (album_covers_requests_sent_ s !! album)
             ∨ album ∈ map ac_album_id new;
  added_all :
    ∀ song, song ∈ songs → CoverFilePath (app_ s) song ≠ "" →
            is_Some (album_covers_requests_sent_ s' !! Song.album_id song);
  added_frame :
    (network_ s', album_covers_requests_active_ s', connections s', app_ s',
     songs_ s', errors_ s', emitted s', finished_ s')
    = (network_ s, album_covers_requests_active_ s, connections s, app_ s,
       songs_ s, errors_ s, emitted s, finished_ s)
}.

Lemma covers_added_nil s : covers_added [] [] s s.
Proof.
  split; cbn; rewrite ?app_nil_r, ?Z.add_0_r; try done.
  - constructor.
  - intros ? H. by apply elem_of_nil in H.
  - intros album. split; [by left|]. intros [H|H]; [done|].
    by apply elem_of_nil in H.
  - intros ? H. by apply elem_of_nil in H.
Qed.

Lemma covers_added_app songs1 songs2 new1 new2 s s1 s' :
  covers_added songs1 new1 s s1 → covers_added songs2 new2 s1 s' →
  covers_added (songs1 ++ songs2) (new1 ++ new2) s s'.
Proof.
  intros [G1 G2 G3 G4 G5 G6 G7] [H1 H2 H3 H4 H5 H6 H7].
  assert (Eapp : app_ s1 = app_ s) by congruence.
  split.
  - by rewrite H1, G1, <- app_assoc.
  - rewrite H2, G2, length_app. lia.
  - rewrite map_app. apply NoDup_app. split; [done|]. split; [|done].
    intros album Hin1 Hin2.
    apply list_elem_of_fmap in Hin2 as (request & -> & Hin2).
    destruct (H4 request Hin2) as (Hn & _).
    assert (H : is_Some (album_covers_requests_sent_ s1 !! ac_album_id request)).
    { apply G5. by right. }
    rewrite Hn in H. by destruct H.
  - intros request Hin. apply elem_of_app in Hin as [Hin|Hin].
    + destruct (G4 request Hin) as (Hn & Hf & song & Hs & Heq).
      split; [done|]. split; [done|].
      exists song. split; [|done]. apply elem_of_app. by left.
    + destruct (H4 request Hin) as (Hn & Hf & song & Hs & Heq).
      split; [|split; [done|]].
      * destruct (album_covers_requests_sent_ s !! ac_album_id request) eqn:E;
          [|done].
        assert (H : is_Some (album_covers_requests_sent_ s1
                               !! ac_album_id request)).
        { apply G5. left. rewrite E. eauto. }
        rewrite Hn in H. by destruct H.
      * exists song. split; [apply elem_of_app; by right|].
        by rewrite <- Eapp.
  - intros album. rewrite H5, G5, map_app, elem_of_app. tauto.
  - intros song Hin Hf. apply elem_of_app in Hin as [Hin|Hin].
    + apply H5. left. by apply G6.
    + apply H6; [done|]. by rewrite Eapp.
  - by rewrite H7.
Qed.

Lemma AddAlbumCoverRequest_added song s :
  ∃ new, covers_added [song] new s (AddAlbumCoverRequest song s).
Proof.
  unfold AddAlbumCoverRequest.
  destruct (mapContains (album_covers_requests_sent_ s) (Song.album_id song))
    eqn:Hc.
  - apply bool_decide_eq_true in Hc. exists [].
    split; cbn; rewrite ?app_nil_r, ?Z.add_0_r; try done.
    + constructor.
    + intros ? H. by apply elem_of_nil in H.
    + intros album. unfold sentInsert.
      destruct (decide (album = Song.album_id song)) as [->|E].
      * rewrite lookup_insert_eq. split; [by left|eauto].
      * rewrite lookup_insert_ne by done. split; [by left|].
        intros [H|H]; [done|]. by apply elem_of_nil in H.
    + intros song' Hin _. apply list_elem_of_singleton in Hin as ->.
      unfold sentInsert. rewrite lookup_insert_eq. eauto.
  - apply bool_decide_eq_false in Hc.
    assert (Hnone : album_covers_requests_sent_ s !! Song.album_id song = None).
    { destruct (_ !! _) eqn:E; [|done]. exfalso. apply Hc. eauto. }
    cbv zeta. cbn [ac_filename].
    destruct (strIsEmpty (CoverFilePath (app_ s) song)) eqn:Hf.
    + apply FavoriteSpec.strIsEmpty_true in Hf.
      exists []. destruct (covers_added_nil s) as [G1 G2 G3 G4 G5 G6 G7].
      split; try done.
      * intros ? H. by apply elem_of_nil in H.
      * intros song' Hin Hf'. apply list_elem_of_singleton in Hin as ->. done.
    + apply FavoriteSpec.strIsEmpty_false in Hf.
      exists [cover_of (app_ s) song]. split; cbn; try done.
      * apply NoDup_singleton.
      * intros request Hin. apply list_elem_of_singleton in Hin as ->.
        split; [done|]. split; [done|].
        exists song. split; [apply list_elem_of_here|done].
      * intros album. unfold sentInsert. rewrite list_elem_of_singleton.
        destruct (decide (album = Song.album_id song)) as [->|E].
        -- rewrite lookup_insert_eq. split; [by right|eauto].
        -- rewrite lookup_insert_ne by done. split; [by left|].
           by intros [H|H].
      * intros song' Hin _. apply list_elem_of_singleton in Hin as ->.
        unfold sentInsert. rewrite lookup_insert_eq. eauto.
Qed.

Lemma AddAlbumCoverRequest_fold (songs : SongList) s :
  ∃ new, covers_added songs new s
           (fold_left (λ s song, AddAlbumCoverRequest song s) songs s).
Proof.
  revert s. induction songs as [|song songs IH]; intros s.
  - exists []. apply covers_added_nil.
  - cbn [fold_left].
    destruct (AddAlbumCoverRequest_added song s) as (new1 & H1).
    destruct (IH (AddAlbumCoverRequest song s)) as (new2 & H2).
    exists (new1 ++ new2).
    apply (covers_added_app [song] songs new1 new2 _ _ _ H1 H2).
Qed.

Lemma FlushAlbumCoverRequests_loop_requested queue s :
  album_covers_requested_ (FlushAlbumCoverRequests_loop queue s)
  = album_covers_requested_ s.
Proof.
  revert s. induction queue as [|request queue IH]; intros s; [done|].
  cbn [FlushAlbumCoverRequests_loop].
  destruct (album_covers_requests_active_ s
            <? kMaxConcurrentAlbumCoverRequests); [|done].
  cbv beta zeta iota delta [send]. by rewrite IH.
Qed.

(** The three signals at the end of [GetAlbumCovers] leave the rest of the
    state as the flush left it. *)
Lemma GetAlbumCovers_frame s :
  let s1 := FlushAlbumCoverRequests
              (fold_left (λ s song, AddAlbumCoverRequest song s)
                 (values (songs_ s)) s) in
  album_covers_requested_ (GetAlbumCovers s) = album_covers_requested_ s1
  ∧ network_ (GetAlbumCovers s) = network_ s1
  ∧ album_cover_requests_queue_ (GetAlbumCovers s)
    = album_cover_requests_queue_ s1.
Proof.
  intros s1. unfold GetAlbumCovers. cbv zeta. fold s1.
  by destruct (album_covers_requested_ s1 =? 1).
Qed.

(** X23: [GetAlbumCovers] asks for the cover of every album once.  From a
    state without covers queued or sent for, it queues one descriptor for an
    album the first time a song of [songs_] with a cover file path shows it:
    the descriptors have distinct album ids, each is made from such a song,
    every such song has its album among them, and [album_covers_requested_]
    counts them.  The front of them is sent as far as the one request at a
    time allows, the rest stays queued. *)
Theorem GetAlbumCovers_one_request_per_album s :
  album_cover_requests_queue_ s = [] →
  album_covers_requests_sent_ s = ∅ →
  ∃ requests,
    NoDup (map ac_album_id requests)
    ∧ (∀ request, request ∈ requests →
         ac_filename request ≠ ""
         ∧ ∃ song, song ∈ values (songs_ s)
                   ∧ request = cover_of (app_ s) song)
    ∧ (∀ song, song ∈ values (songs_ s) →
               CoverFilePath (app_ s) song ≠ "" →
               Song.album_id song ∈ map ac_album_id requests)
    ∧ album_covers_requested_ (GetAlbumCovers s)
      = album_covers_requested_ s + Z.of_nat (length requests)
    ∧ let k := room 1 (album_covers_requests_active_ s) (length requests) in
      sent (network_ (GetAlbumCovers s))
      = sent (network_ s) ++ map album_cover_request (take k requests)
      ∧ album_cover_requests_queue_ (GetAlbumCovers s) = drop k requests.
Proof.
  intros Hq Hs.
  destruct (AddAlbumCoverRequest_fold (values (songs_ s)) s)
    as (requests & [H1 H2 H3 H4 H5 H6 H7]).
  rewrite Hq in H1. cbn [app] in H1.
  injection H7 as Hn Ha _ _ _ _ _ _.
  exists requests. split; [done|]. split; [|split; [|split]].
  - intros request Hin. destruct (H4 request Hin) as (_ & Hf & Hsong). done.
  - intros song Hin Hf. specialize (H6 song Hin Hf).
    apply H5 in H6 as [H6|H6]; [|done].
    rewrite Hs, lookup_empty in H6. by destruct H6.
  - rewrite (proj1 (GetAlbumCovers_frame s)).
    unfold FlushAlbumCoverRequests.
    by rewrite FlushAlbumCoverRequests_loop_requested.
  - intros k.
    destruct (GetAlbumCovers_frame s) as (_ & -> & ->).
    destruct (FlushAlbumCoverRequests_loop_flushed requests _ H1)
      as [F1 _ F3 _ _ _ _].
    rewrite Ha, Hn in F1. rewrite Ha in F3.
    unfold FlushAlbumCoverRequests. rewrite H1. by split.
Qed.

(** A state in which one song waits for the cover of its album. *)
Definition a_song : Song.Song :=
  {| Song.song_id := "song"; Song.album_id := "album";
     Song.artist_id := "artist"; Song.albumartist := ""; Song.album := "Album";
     Song.artist := "Artist"; Song.title := "Title"; Song.track := 1;
     Song.disc := 0; Song.url := "spotify:track:song";
     Song.art_automatic := "https://covers/album";
     Song.compilation_detected := false; Song.valid := true |}.

Definition with_a_song : SpotifyRequest :=
  set_songs_ {[ "song" := a_song ]}
    (newRequest (a_service false) an_app a_network QueryType_Songs).

Lemma GetAlbumCovers_one_request_per_album_witness :
  ∃ requests,
    NoDup (map ac_album_id requests)
    ∧ (∀ request, request ∈ requests →
         ac_filename request ≠ ""
         ∧ ∃ song, song ∈ values (songs_ with_a_song)
                   ∧ request = cover_of (app_ with_a_song) song)
    ∧ (∀ song, song ∈ values (songs_ with_a_song) →
               CoverFilePath (app_ with_a_song) song ≠ "" →
               Song.album_id song ∈ map ac_album_id requests)
    ∧ album_covers_requested_ (GetAlbumCovers with_a_song)
      = album_covers_requested_ with_a_song + Z.of_nat (length requests)
    ∧ let k := room 1 (album_covers_requests_active_ with_a_song)
                 (length requests) in
      sent (network_ (GetAlbumCovers with_a_song))
      = sent (network_ with_a_song)
        ++ map album_cover_request (take k requests)
      ∧ album_cover_requests_queue_ (GetAlbumCovers with_a_song)
        = drop k requests.
Proof.
  apply (GetAlbumCovers_one_request_per_album with_a_song); reflexivity.
Defined.

(** *** A cover arrives *)

(** What a cover can change of the result of the crawl: the songs, the
    errors and the albums whose cover is waited for. *)
Definition catalogue (s : SpotifyRequest) :=
  (songs_ s, errors_ s, album_covers_requests_sent_ s).

Lemma catalogue_eq s s' :
  catalogue s' = catalogue s →
  songs_ s' = songs_ s ∧ errors_ s' = errors_ s
  ∧ album_covers_requests_sent_ s' = album_covers_requests_sent_ s.
Proof. by intros [= -> -> ->]. Qed.

Lemma FinishCheck_catalogue s : catalogue (FinishCheck s) = catalogue s.
Proof.
  unfold FinishCheck.
  repeat match goal with
         | |- context [if ?b then _ else _] => destruct b
         end; reflexivity.
Qed.

Lemma Error_catalogue error s :
  catalogue (Error error s)
  = (songs_ s, errors_ s ++ (if strIsEmpty error then [] else [error]),
     album_covers_requests_sent_ s).
Proof.
  unfold Error. cbv zeta. rewrite FinishCheck_catalogue.
  destruct (strIsEmpty error); cbn [negb]; unfold catalogue;
    cbn; by rewrite ?app_nil_r.
Qed.

Lemma FlushAlbumCoverRequests_loop_catalogue queue s :
  catalogue (FlushAlbumCoverRequests_loop queue s) = catalogue s.
Proof.
  revert s. induction queue as [|request queue IH]; intros s; [done|].
  cbn [FlushAlbumCoverRequests_loop].
  destruct (album_covers_requests_active_ s
            <? kMaxConcurrentAlbumCoverRequests); [|done].
  cbv beta zeta iota delta [send]. by rewrite IH.
Qed.

Lemma AlbumCoverFinishCheck_catalogue s :
  catalogue (AlbumCoverFinishCheck s) = catalogue s.
Proof.
  unfold AlbumCoverFinishCheck. cbv zeta. rewrite FinishCheck_catalogue.
  destruct (_ && _); [|done].
  apply FlushAlbumCoverRequests_loop_catalogue.
Qed.

(** The song with the stored cover. *)
Definition with_cover (filename : string) (song : Song.Song) : Song.Song :=
  Song.set_art_automatic (fromLocalFile filename) song.

(** The songs after the covers of [song_ids] were stored. *)
Definition covered (filename : string) (song_ids : list string)
    (songs : SongMap) (song_id : string) : option Song.Song :=
  if bool_decide (song_id ∈ song_ids)
  then with_cover filename <$> songs !! song_id
  else songs !! song_id.

Lemma takeCovers_catalogue album_id filename s :
  let s' := takeCovers album_id filename s in
  (∀ song_id,
     songs_ s' !! song_id
     = covered filename (default [] (album_covers_requests_sent_ s !! album_id))
         (songs_ s) song_id)
  ∧ errors_ s' = errors_ s
  ∧ album_covers_requests_sent_ s'
    = delete album_id (album_covers_requests_sent_ s).
Proof.
  unfold takeCovers. cbv zeta.
  generalize (default [] (album_covers_requests_sent_ s !! album_id)).
  intros song_ids.
  match goal with
  | |- context [fold_left ?f song_ids s] =>
      assert (H : (∀ song_id, songs_ (fold_left f song_ids s) !! song_id
                              = covered filename song_ids (songs_ s) song_id)
                  ∧ errors_ (fold_left f song_ids s) = errors_ s
                  ∧ album_covers_requests_sent_ (fold_left f song_ids s)
                    = album_covers_requests_sent_ s)
  end.
  { revert s. induction song_ids as [|id song_ids IH]; intros s.
    - by unfold covered.
    - cbn [fold_left].
      match goal with
      | |- context [fold_left _ song_ids ?s1] =>
          destruct (IH s1) as (H1 & H2 & H3)
      end.
      rewrite H2, H3. split.
      + intros song_id. rewrite H1. unfold covered.
        destruct (songs_ s !! id) as [song|] eqn:Hid;
          cbn [songs_ set_songs_].
        * destruct (decide (song_id = id)) as [->|Hne].
          -- rewrite lookup_insert_eq, Hid.
             rewrite (bool_decide_true (id ∈ id :: song_ids))
               by apply list_elem_of_here.
             by case_bool_decide.
          -- rewrite lookup_insert_ne by done.
             apply (f_equal (λ b : bool, if b then _ else _)).
             apply bool_decide_ext. rewrite elem_of_cons. naive_solver.
        * destruct (decide (song_id = id)) as [->|Hne].
          -- rewrite Hid. by repeat case_bool_decide.
          -- apply (f_equal (λ b : bool, if b then _ else _)).
             apply bool_decide_ext. rewrite elem_of_cons. naive_solver.
      + by destruct (songs_ s !! id). }
  destruct H as (H1 & H2 & H3).
  unfold sentRemove. cbn. by rewrite H3.
Qed.

(** The cover of the reply is stored: the reply has no error and status
    200, its content type is one an image reader supports, its body is not
    empty, and the image loads and is saved. *)
Definition cover_stored (reply : QNetworkReply) : bool :=
  (error reply =? NoError) && (httpStatus reply =? 200) && mimeSupported reply
  && negb (isEmpty (readAll reply)) && imageLoads reply && imageSaves reply.

(** X24: what the reply to a cover request does to the result of a crawl
    that is not finished.  The album is no longer waited for.  If the cover
    was stored, the songs that were filed under the album get the local file
    as their cover, the other songs and the errors stay as they are.  If it
    was not, the songs stay as they are and exactly one error, which is not
    empty, is added.  A reply for an album that is not waited for changes
    neither songs nor errors. *)
Theorem AlbumCoverReceived_outcome reply album_id url filename s :
  ptr reply ∈ album_cover_replies_ s → finished_ s = false →
  let s' := AlbumCoverReceived reply album_id url filename s in
  let song_ids := default [] (album_covers_requests_sent_ s !! album_id) in
  album_covers_requests_sent_ s' = delete album_id (album_covers_requests_sent_ s)
  ∧ if mapContains (album_covers_requests_sent_ s) album_id then
      if cover_stored reply then
        errors_ s' = errors_ s
        ∧ ∀ song_id,
            songs_ s' !! song_id = covered filename song_ids (songs_ s) song_id
      else
        songs_ s' = songs_ s
        ∧ ∃ error, error ≠ "" ∧ errors_ s' = errors_ s ++ [error]
    else songs_ s' = songs_ s ∧ errors_ s' = errors_ s.
Proof.
  intros Hin Hfin s' song_ids. subst s' song_ids.
  unfold AlbumCoverReceived. rewrite bool_decide_true by done.
  cbn [negb]. cbv zeta.
  match goal with
  | |- context [if finished_ ?x then _ else _] =>
      change (finished_ x) with (finished_ s)
  end.
  rewrite Hfin.
  set (s1 := emit (UpdateProgress _ _) _).
  assert (Hcat : catalogue s1 = catalogue s) by reflexivity.
  clearbody s1. injection Hcat as Hsongs Herrors Hsent.
  assert (Hfail : ∀ error s2,
            error ≠ "" → catalogue s2 = catalogue s1 →
            album_covers_requests_sent_
              (AlbumCoverFinishCheck (sentRemove album_id (Error error s2)))
            = delete album_id (album_covers_requests_sent_ s)
            ∧ songs_ (AlbumCoverFinishCheck
                        (sentRemove album_id (Error error s2)))
              = songs_ s
            ∧ ∃ error', error' ≠ ""
                ∧ errors_ (AlbumCoverFinishCheck
                             (sentRemove album_id (Error error s2)))
                  = errors_ s ++ [error']).
  { intros error s2 Hne Hs2.
    pose proof (AlbumCoverFinishCheck_catalogue
                  (sentRemove album_id (Error error s2))) as H.
    unfold sentRemove in H.
    pose proof (Error_catalogue error s2) as He.
    pose proof Hne as Hne'.
    apply FavoriteSpec.strIsEmpty_false in Hne'. rewrite Hne' in He.
    injection Hs2 as Hs2a Hs2b Hs2c. injection He as He1 He2 He3.
    injection H as H1 H2 H3. cbn in H1, H2, H3. unfold sentRemove.
    split; [|split].
    - by rewrite H3, He3, Hs2c, Hsent.
    - by rewrite H1, He1, Hs2a, Hsongs.
    - exists error. split; [done|]. by rewrite H2, He2, Hs2b, Herrors. }
  rewrite Hsent.
  destruct (mapContains (album_covers_requests_sent_ s) album_id) eqn:Hc;
    cbn [negb].
  2:{ pose proof (AlbumCoverFinishCheck_catalogue s1) as H.
      injection H as H1 H2 H3.
      rewrite H1, H2, H3, Hsongs, Herrors, Hsent.
      split; [|done]. symmetry. apply delete_id.
      apply bool_decide_eq_false in Hc.
      destruct (_ !! _) eqn:E; [|done]. exfalso. apply Hc. eauto. }
  unfold cover_stored.
  destruct (error reply =? NoError); cbn [negb andb].
  2:{ apply Hfail; [apply QtSpec.arg2_not_empty|done]. }
  destruct (httpStatus reply =? 200); cbn [negb andb].
  2:{ apply Hfail; [discriminate|done]. }
  destruct (mimeSupported reply); cbn [negb andb].
  2:{ apply Hfail; [discriminate|done]. }
  destruct (isEmpty (readAll reply)); cbn [negb andb].
  { apply Hfail; [discriminate|done]. }
  destruct (imageLoads reply); cbn [negb andb].
  2:{ match goal with
      | |- context [AlbumCoverFinishCheck ?s2] =>
          pose proof (AlbumCoverFinishCheck_catalogue s2) as H
      end.
      rewrite Error_catalogue in H. injection H as H1 H2 H3.
      cbn in H1, H2, H3.
      rewrite H1, H2, H3, Hsongs, Herrors, Hsent.
      split; [done|]. split; [done|]. eexists. split; [|reflexivity].
      discriminate. }
  destruct (imageSaves reply).
  - destruct (catalogue_eq _ _ (AlbumCoverFinishCheck_catalogue
                                  (takeCovers album_id filename s1)))
      as (H1 & H2 & H3).
    destruct (takeCovers_catalogue album_id filename s1) as (T1 & T2 & T3).
    split; [|split].
    + by rewrite H3, T3, Hsent.
    + by rewrite H2, T2, Herrors.
    + intros song_id. by rewrite H1, T1, Hsongs, Hsent.
  - apply Hfail; [discriminate|done].
Qed.

(** The reply to the request for the cover of the song: a stored image. *)
Definition cover_reply : QNetworkReply :=
  {| ptr := 0%nat; error := NoError; errorString := ""; httpStatus := 200;
     readAll := ByteArray false (ParseError "illegal value");
     mimetype := "image/jpeg"; mimeSupported := true; imageLoads := true;
     imageSaves := true |}.

Lemma AlbumCoverReceived_outcome_witness :
  let s := GetAlbumCovers with_a_song in
  let s' := AlbumCoverReceived cover_reply "album" "https://covers/album"
              "/covers/album.jpg" s in
  let song_ids := default [] (album_covers_requests_sent_ s !! "album") in
  album_covers_requests_sent_ s' = delete "album" (album_covers_requests_sent_ s)
  ∧ if mapContains (album_covers_requests_sent_ s) "album" then
      if cover_stored cover_reply then
        errors_ s' = errors_ s
        ∧ ∀ song_id,
            songs_ s' !! song_id
            = covered "/covers/album.jpg" song_ids (songs_ s) song_id
      else
        songs_ s' = songs_ s
        ∧ ∃ error, error ≠ "" ∧ errors_ s' = errors_ s ++ [error]
    else songs_ s' = songs_ s ∧ errors_ s' = errors_ s.
Proof.
  apply (AlbumCoverReceived_outcome cover_reply "album" "https://covers/album"
           "/covers/album.jpg" (GetAlbumCovers with_a_song)).
  - replace (album_cover_replies_ (GetAlbumCovers with_a_song))
      with [0%nat] by (vm_compute; reflexivity).
    apply list_elem_of_here.
  - vm_compute. reflexivity.
Defined.

End CoverExtra.

(* ===================================================================== *)
(** ** The crawl: what a track becomes *)
(* ===================================================================== *)

Module SongExtra.

Import Request CrawlSafety CrawlSpec.

(** The album of the track as its JSON names it. *)
Definition json_album (json_obj : QJsonObject) : QJsonObject :=
  toObject (value json_obj "album").

(** The images of the album of the track, and the cover the loop over them
    ends with. *)
Definition json_images (json_obj : QJsonObject) : QJsonArray :=
  if contains (json_album json_obj) "images"
     && isArray (value (json_album json_obj) "images")
  then toArray (value (json_album json_obj) "images") else [].

Definition json_cover (json_obj : QJsonObject) : string :=
  coverFromImages (json_images json_obj) "".

(** The track names an album that [ParseSong] takes over: an object with
    [type], [id] and [name] whose id, name and cover are not empty. *)
Definition names_album (json_obj : QJsonObject) : bool :=
  contains json_obj "album" && isObject (value json_obj "album")
  && contains (json_album json_obj) "type"
  && contains (json_album json_obj) "id"
  && contains (json_album json_obj) "name"
  && negb (strIsEmpty (toString (value (json_album json_obj) "id")))
  && negb (strIsEmpty (toString (value (json_album json_obj) "name")))
  && negb (strIsEmpty (json_cover json_obj)).

(** The first artist the track names, if any. *)
Definition json_artist (json_obj : QJsonObject) : string * string :=
  if contains json_obj "artists" && isArray (value json_obj "artists")
  then firstArtist (toArray (value json_obj "artists")) else ("", "").

Definition names_artist (json_obj : QJsonObject) : bool :=
  negb (strIsEmpty (json_artist json_obj).1)
  && negb (strIsEmpty (json_artist json_obj).2).

Lemma json_cover_none json_obj :
  last_acceptable (json_images json_obj) = None → json_cover json_obj = "".
Proof.
  intros H. unfold json_cover. by rewrite coverFromImages_last, H.
Qed.

(** X25: what [ParseSong] makes of a track.  An object without one of the
    eight keys of a track leaves the song as it was and records one error.
    Otherwise the song is valid, with the id of the object, and nothing is
    recorded.  Its album id, album title and cover come together: they are
    the id and the name of the album of the object and the cover that the
    loop over the images of that album ends with when the object names an
    album with all three and none of them is empty, and otherwise all three
    are those of the album handed to [ParseSong].  So a track whose album has
    no image wider and higher than 300 does not keep the id of that album.
    In the same way its artist id and name are both those of the first
    artist of the object, when neither is empty, or both those of the artist
    handed in. *)
Theorem ParseSong_album_whole song json_obj album_artist album s :
  let song' := (ParseSong song json_obj album_artist album s).1 in
  let s' := (ParseSong song json_obj album_artist album s).2 in
  if is_track json_obj then
    s' = s
    ∧ Song.valid song' = true
    ∧ Song.song_id song' = toString (value json_obj "id")
    ∧ (Song.album_id song', Song.album song', Song.art_automatic song')
      = (if names_album json_obj
         then (toString (value (json_album json_obj) "id"),
               toString (value (json_album json_obj) "name"),
               json_cover json_obj)
         else (album_id album, Request.album album, cover_url album))
    ∧ (last_acceptable (json_images json_obj) = None →
       (Song.album_id song', Song.album song', Song.art_automatic song')
       = (album_id album, Request.album album, cover_url album))
    ∧ (Song.artist_id song', Song.artist song')
      = (if names_artist json_obj then json_artist json_obj
         else (artist_id album_artist, artist album_artist))
  else
    song' = song
    ∧ s' = Error "Invalid Json reply, track is missing one or more values." s.
Proof.
  intros song' s'. subst song' s'.
  destruct (is_track json_obj) eqn:Htrack.
  2:{ by rewrite ParseSong_not_track. }
  unfold is_track, track_keys in Htrack. cbn [forallb] in Htrack.
  repeat (apply andb_true_iff in Htrack as [?Hk Htrack]).
  assert (Hnone : last_acceptable (json_images json_obj) = None →
                  names_album json_obj = false).
  { intros H. unfold names_album. rewrite (json_cover_none _ H).
    cbn [strIsEmpty String.eqb negb]. apply andb_false_r. }
  unfold ParseSong.
  repeat match goal with
         | H : contains json_obj _ = true |- _ => rewrite H; clear H
         end.
  cbn [negb orb].
  fold (json_artist json_obj).
  set (album_triple := if contains json_obj "album" && _ then _ else _).
  assert (Htriple :
    (let '(album_id0, album_title0, cover_url0) := album_triple in
     if strIsEmpty album_id0 || strIsEmpty album_title0
        || strIsEmpty cover_url0
     then (album_id album, Request.album album, cover_url album)
     else (album_id0, album_title0, cover_url0))
    = if names_album json_obj
      then (toString (value (json_album json_obj) "id"),
            toString (value (json_album json_obj) "name"),
            json_cover json_obj)
      else (album_id album, Request.album album, cover_url album)).
  { subst album_triple.
    unfold names_album, json_cover, json_images, json_album. cbv zeta.
    destruct (contains json_obj "album" && isObject (value json_obj "album"));
      [|done].
    cbn [andb].
    destruct (contains (toObject (value json_obj "album")) "type"); [|done].
    destruct (contains (toObject (value json_obj "album")) "id"); [|done].
    destruct (contains (toObject (value json_obj "album")) "name"); [|done].
    cbn [andb].
    destruct (contains (toObject (value json_obj "album")) "images"
              && isArray (value (toObject (value json_obj "album")) "images"));
      destruct (strIsEmpty
                  (toString (value (toObject (value json_obj "album")) "id")));
      try done;
      destruct (strIsEmpty
                  (toString (value (toObject (value json_obj "album")) "name")));
      try done;
      by destruct (strIsEmpty _). }
  assert (Hpair :
    (let '(artist_id0, artist_title0) := json_artist json_obj in
     if strIsEmpty artist_id0 || strIsEmpty artist_title0
     then (artist_id album_artist, artist album_artist)
     else (artist_id0, artist_title0))
    = if names_artist json_obj then json_artist json_obj
      else (artist_id album_artist, artist album_artist)).
  { unfold names_artist. destruct (json_artist json_obj) as [a b]. cbn [fst snd].
    by destruct (strIsEmpty a), (strIsEmpty b). }
  clearbody album_triple.
  destruct album_triple as [[album_id0 album_title0] cover_url0].
  destruct (json_artist json_obj) as [artist_id0 artist_title0].
  destruct (strIsEmpty artist_id0 || strIsEmpty artist_title0);
    destruct (strIsEmpty album_id0 || strIsEmpty album_title0
              || strIsEmpty cover_url0);
    cbn [fst snd Song.valid Song.song_id Song.album_id Song.album
         Song.art_automatic Song.artist_id Song.artist];
    (split; [reflexivity|]); (split; [reflexivity|]); (split; [reflexivity|]);
    (split; [exact Htriple|]);
    (split; [intros H; by rewrite Htriple, (Hnone H)|exact Hpair]).
Qed.

End SongExtra.

(* ===================================================================== *)
(** ** The crawl: what no reply changes *)
(* ===================================================================== *)

Module CrawlKeeps.

Import Request CrawlSafety CrawlSpec.

(** What a crawl is given when it starts: the service, the application, its
    type, and the id and text of its search. *)
Definition identity (s : SpotifyRequest) :=
  (service_ s, app_ s, type_ s, query_id_ s, search_text_ s).

(** [s] is a state of the crawl that started as [s0]: it has the identity of
    [s0], and the results emitted so far carry the id of [s0]. *)
Definition Same (s0 s : SpotifyRequest) : Prop :=
  identity s = identity s0 ∧ ∀ r, r ∈ results s → r.1.1 = query_id_ s0.

Class Keeps (f : SpotifyRequest → SpotifyRequest) : Prop :=
  keeps : ∀ s0 s, Same s0 s → Same s0 (f s).

Lemma Same_ext s0 s s' :
  identity s' = identity s → results s' = results s → Same s0 s → Same s0 s'.
Proof. intros Hi Hr [H1 H2]. split; [by rewrite Hi|by rewrite Hr]. Qed.

Lemma framed_keeps f :
  (∀ s, identity (f s) = identity s ∧ results (f s) = results s) → Keeps f.
Proof. intros Hf s0 s. apply Same_ext; apply Hf. Qed.

#[global] Hint Extern 10 (Keeps _) =>
  apply framed_keeps; intros; split; reflexivity : typeclass_instances.

Lemma emit_same sig s0 s :
  match sig with Results id _ _ => id = query_id_ s | _ => True end →
  Same s0 s → Same s0 (emit sig s).
Proof.
  intros Hsig [Hi Hr]. split; [exact Hi|].
  intros r. rewrite results_emit, elem_of_app. intros [Hin|Hin]; [auto|].
  destruct sig; try by apply elem_of_nil in Hin.
  apply list_elem_of_singleton in Hin as ->. cbn.
  assert (Hq : query_id_ s = query_id_ s0) by (unfold identity in Hi; congruence).
  by rewrite Hsig, Hq.
Qed.

#[global] Instance emit_keeps id text : Keeps (emit (UpdateStatus id text)).
Proof. intros s0 s. by apply emit_same. Qed.

#[global] Instance emit_keeps_max id max :
  Keeps (emit (ProgressSetMaximum id max)).
Proof. intros s0 s. by apply emit_same. Qed.

#[global] Instance emit_keeps_progress id progress :
  Keeps (emit (UpdateProgress id progress)).
Proof. intros s0 s. by apply emit_same. Qed.

#[global] Instance FinishCheck_keeps : Keeps FinishCheck.
Proof.
  intros s0 s H. unfold FinishCheck.
  destruct (negb (finished_ s) && drained s); [|exact H].
  cbv zeta.
  assert (H' : Same s0 (set_finished_ true s)).
  { revert H. by apply Same_ext. }
  repeat match goal with
         | |- Same _ (if ?b then _ else _) => destruct b
         end; by apply emit_same.
Qed.

(** The calls of the base class that report an error. *)
Definition reports (cs : list Call) : Prop := CallDeauthenticate ∉ cs.

Lemma ExtractJsonObj_reports data : reports (ExtractJsonObj data).2.
Proof.
  unfold reports, ExtractJsonObj.
  destruct (fromJson data) as [e|[|a|[|kv o]]]; cbn; set_solver.
Qed.

Lemma ExtractItems_reports json_obj : reports (ExtractItems json_obj).2.
Proof.
  unfold reports, ExtractItems. destruct (negb _); cbn; set_solver.
Qed.

(** One step through the body of an operation, as for [Safe]; a pair that a
    function of the base class returns is named with its equation. *)
Ltac keep_step :=
  lazymatch goal with
  | |- Same ?s0 (let x := ?v in @?body x) =>
      let T := type of v in
      lazymatch T with
      | SpotifyRequest =>
          let s' := fresh "s" in
          let Hs := fresh "Hs" in
          let H := fresh "H" in
          apply (let_intro v body (Same s0)); intros s' Hs;
          assert (H : Same s0 s'); [rewrite Hs; clear Hs | clear Hs]
      | _ =>
          let x' := fresh x in
          let Hx := fresh "Hx" in
          apply (let_intro v body (Same s0)); intros x' Hx
      end
  | |- Same _ (if ?b then _ else _) => destruct b
  | |- Same _ (match ?x with _ => _ end) => destruct x eqn:?; cbv beta iota
  | |- Same _ (?set (?get ?s - 1) ?s) =>
      apply (keeps (f:=λ s', set (get s' - 1) s'))
  | |- Same _ ?t =>
      first [ assumption
            | lazymatch t with ?g ?x => apply (keeps (f:=g)) end ]
  end.

Ltac keep := repeat keep_step.

#[global] Instance Error_keeps error : Keeps (Error error).
Proof. intros s0 s H. unf Error. keep. Qed.

Lemma fold_left_same {A} (f : SpotifyRequest → A → SpotifyRequest) l s0 s :
  (∀ x, Keeps (λ s, f s x)) → Same s0 s → Same s0 (fold_left f l s).
Proof.
  intros Hf. revert s. induction l as [|x l IH]; intros s Hs; [done|].
  cbn. apply IH. by apply (Hf x).
Qed.

#[global] Instance fold_left_keeps {A}
    (f : SpotifyRequest → A → SpotifyRequest) l :
  (∀ x, Keeps (λ s, f s x)) → Keeps (fold_left f l).
Proof. intros Hf s0 s. by apply fold_left_same. Qed.

Lemma calls_same cs s0 s : reports cs → Same s0 s → Same s0 (calls cs s).
Proof.
  unfold calls. revert s. induction cs as [|c cs IH]; intros s Hcs Hs; [done|].
  cbn [fold_left]. apply IH.
  - intros Hin. apply Hcs. by apply list_elem_of_further.
  - destruct c; cbn [call]; [by apply Error_keeps|].
    exfalso. apply Hcs. apply list_elem_of_here.
Qed.

(** The calls of a pair that was named come from the base class. *)
Ltac base_calls :=
  match goal with
  | E : GetReplyData ?reply = (_, ?cs) |- reports ?cs =>
      let H := fresh in
      pose proof (BaseSpec.GetReplyData_never_deauthenticates reply) as H;
      rewrite E in H; exact H
  | E : ExtractJsonObj ?data = (_, ?cs) |- reports ?cs =>
      let H := fresh in
      pose proof (ExtractJsonObj_reports data) as H;
      rewrite E in H; exact H
  | E : ExtractItems ?json_obj = (_, ?cs) |- reports ?cs =>
      let H := fresh in
      pose proof (ExtractItems_reports json_obj) as H;
      rewrite E in H; exact H
  end.

Ltac keep_calls :=
  repeat first [ keep_step
               | lazymatch goal with
                 | |- Same _ (calls _ _) => apply calls_same; [base_calls|]
                 end ].

#[global] Instance HandleSSLErrors_keeps errs : Keeps (HandleSSLErrors errs).
Proof. intros s0 s. apply fold_left_same. intros e. exact (Error_keeps e). Qed.

(** The flush loops send requests and connect replies. *)
Ltac flush_keeps IH :=
  intros s0 s Hs; cbn;
  match goal with
  | |- Same _ (if ?b then _ else _) => destruct b; [|exact Hs]
  end;
  repeat match goal with
         | |- context [bool_decide ?P] => destruct (bool_decide P)
         end;
  apply IH; revert Hs; by apply Same_ext.

#[global] Instance FlushArtistsRequests_loop_keeps queue :
  Keeps (FlushArtistsRequests_loop queue).
Proof. induction queue as [|request queue IH]; [by intros s0 s|]. flush_keeps IH. Qed.

#[global] Instance FlushAlbumsRequests_loop_keeps queue :
  Keeps (FlushAlbumsRequests_loop queue).
Proof. induction queue as [|request queue IH]; [by intros s0 s|]. flush_keeps IH. Qed.

#[global] Instance FlushSongsRequests_loop_keeps queue :
  Keeps (FlushSongsRequests_loop queue).
Proof. induction queue as [|request queue IH]; [by intros s0 s|]. flush_keeps IH. Qed.

#[global] Instance FlushArtistAlbumsRequests_loop_keeps queue :
  Keeps (FlushArtistAlbumsRequests_loop queue).
Proof. induction queue as [|request queue IH]; [by intros s0 s|]. flush_keeps IH. Qed.

#[global] Instance FlushAlbumSongsRequests_loop_keeps queue :
  Keeps (FlushAlbumSongsRequests_loop queue).
Proof. induction queue as [|request queue IH]; [by intros s0 s|]. flush_keeps IH. Qed.

#[global] Instance FlushAlbumCoverRequests_loop_keeps queue :
  Keeps (FlushAlbumCoverRequests_loop queue).
Proof. induction queue as [|request queue IH]; [by intros s0 s|]. flush_keeps IH. Qed.

#[global] Instance FlushArtistsRequests_keeps : Keeps FlushArtistsRequests.
Proof. intros s0 s. apply FlushArtistsRequests_loop_keeps. Qed.

#[global] Instance FlushAlbumsRequests_keeps : Keeps FlushAlbumsRequests.
Proof. intros s0 s. apply FlushAlbumsRequests_loop_keeps. Qed.

#[global] Instance FlushSongsRequests_keeps : Keeps FlushSongsRequests.
Proof. intros s0 s. apply FlushSongsRequests_loop_keeps. Qed.

#[global] Instance FlushArtistAlbumsRequests_keeps : Keeps FlushArtistAlbumsRequests.
Proof. intros s0 s. apply FlushArtistAlbumsRequests_loop_keeps. Qed.

#[global] Instance FlushAlbumSongsRequests_keeps : Keeps FlushAlbumSongsRequests.
Proof. intros s0 s. apply FlushAlbumSongsRequests_loop_keeps. Qed.

#[global] Instance FlushAlbumCoverRequests_keeps : Keeps FlushAlbumCoverRequests.
Proof. intros s0 s. apply FlushAlbumCoverRequests_loop_keeps. Qed.

#[global] Instance AddArtistsRequest_keeps offset limit : Keeps (AddArtistsRequest offset limit).
Proof. intros s0 s H. unf AddArtistsRequest. keep. Qed.

#[global] Instance AddArtistsSearchRequest_keeps offset : Keeps (AddArtistsSearchRequest offset).
Proof. intros s0 s H. unf AddArtistsSearchRequest. keep. Qed.

#[global] Instance AddAlbumsRequest_keeps offset limit : Keeps (AddAlbumsRequest offset limit).
Proof. intros s0 s H. unf AddAlbumsRequest. keep. Qed.

#[global] Instance AddAlbumsSearchRequest_keeps offset : Keeps (AddAlbumsSearchRequest offset).
Proof. intros s0 s H. unf AddAlbumsSearchRequest. keep. Qed.

#[global] Instance AddSongsRequest_keeps offset limit : Keeps (AddSongsRequest offset limit).
Proof. intros s0 s H. unf AddSongsRequest. keep. Qed.

#[global] Instance AddSongsSearchRequest_keeps offset : Keeps (AddSongsSearchRequest offset).
Proof. intros s0 s H. unf AddSongsSearchRequest. keep. Qed.

#[global] Instance AddArtistAlbumsRequest_keeps artist offset : Keeps (AddArtistAlbumsRequest artist offset).
Proof. intros s0 s H. unf AddArtistAlbumsRequest. keep. Qed.

#[global] Instance AddAlbumSongsRequest_keeps artist album offset : Keeps (AddAlbumSongsRequest artist album offset).
Proof. intros s0 s H. unf AddAlbumSongsRequest. keep. Qed.

#[global] Instance AddAlbumCoverRequest_keeps song : Keeps (AddAlbumCoverRequest song).
Proof. intros s0 s H. unf AddAlbumCoverRequest. keep. Qed.

#[global] Instance GetAlbumCovers_keeps : Keeps GetAlbumCovers.
Proof. intros s0 s H. unf GetAlbumCovers. keep. Qed.

#[global] Instance AlbumCoverFinishCheck_keeps : Keeps AlbumCoverFinishCheck.
Proof. intros s0 s H. unf AlbumCoverFinishCheck. keep. Qed.

#[global] Instance ArtistsFinishCheck_keeps limit offset artists_received :
  Keeps (ArtistsFinishCheck limit offset artists_received).
Proof.
  intros s0 s H. unf ArtistsFinishCheck. keep.
  apply fold_left_same; [|done]. intros request t0 t H'. keep.
Qed.

#[global] Instance AlbumsFinishCheck_keeps artist limit offset total received :
  Keeps (AlbumsFinishCheck artist limit offset total received).
Proof. intros s0 s H. unf AlbumsFinishCheck. keep. Qed.

#[global] Instance SongsFinishCheck_keeps artist album limit offset total received :
  Keeps (SongsFinishCheck artist album limit offset total received).
Proof. intros s0 s H. unf SongsFinishCheck. keep. Qed.

Lemma ParseSong_same song json_obj album_artist album s0 s :
  Same s0 s → Same s0 (ParseSong song json_obj album_artist album s).2.
Proof.
  intros H. unfold ParseSong.
  destruct (_ || _); cbn [snd]; [by apply Error_keeps|].
  repeat match goal with
         | |- context [let '(_, _) := ?x in _] => destruct x
         end.
  exact H.
Qed.

Lemma SongsReceived_item_same artist album st value_item s0 :
  Same s0 (sl_request st) →
  Same s0 (sl_request (SongsReceived_item artist album st value_item)).
Proof.
  intros H. unfold SongsReceived_item.
  destruct (negb (isObject value_item)); [by apply Error_keeps|].
  destruct (unwrapItem _); [|by apply Error_keeps].
  pose proof (ParseSong_same Song.newSong l artist album s0 (sl_request st) H)
    as HP.
  destruct (ParseSong _ _ _ _ _) as [song s']. cbn [snd] in HP.
  by destruct (negb _).
Qed.

Lemma SongsReceived_loop_same artist album items st s0 :
  Same s0 (sl_request st) →
  Same s0 (sl_request (fold_left (SongsReceived_item artist album) items st)).
Proof.
  revert st. induction items as [|item items IH]; intros st H; [done|].
  cbn [fold_left]. by apply IH, SongsReceived_item_same.
Qed.

#[global] Instance SongsReceived_insert_keeps compilation multidisc song :
  Keeps (λ s, SongsReceived_insert compilation multidisc s song).
Proof.
  intros s0 s. unfold SongsReceived_insert. cbv zeta. by apply Same_ext.
Qed.

#[global] Instance SongsReceived_keeps reply artist album limit offset :
  Keeps (SongsReceived reply artist album limit offset).
Proof.
  intros s0 s H. unf SongsReceived. keep_calls.
  subst st. by apply SongsReceived_loop_same.
Qed.

#[global] Instance AlbumsReceived_item_keeps artist value_item :
  Keeps (λ s, AlbumsReceived_item artist s value_item).
Proof.
  intros s0 s H. unf AlbumsReceived_item. keep.
  sum_cases ltac:(by apply Error_keeps).
Qed.

#[global] Instance AlbumsReceived_keeps reply artist limit offset :
  Keeps (AlbumsReceived reply artist limit offset).
Proof. intros s0 s H. unf AlbumsReceived. keep_calls. Qed.

#[global] Instance ArtistsReplyReceived_item_keeps value_item :
  Keeps (λ s, ArtistsReplyReceived_item s value_item).
Proof. intros s0 s H. unf ArtistsReplyReceived_item. keep. Qed.

#[global] Instance ArtistsReplyReceived_keeps reply limit offset :
  Keeps (ArtistsReplyReceived reply limit offset).
Proof.
  intros s0 s H. unf ArtistsReplyReceived. keep_calls.
  all: sum_cases ltac:(first [assumption | by apply Error_keeps
                             | by eapply Same_ext; [| |eassumption] ]).
Qed.

#[global] Instance AlbumsReplyReceived_keeps reply limit offset :
  Keeps (AlbumsReplyReceived reply limit offset).
Proof. intros s0 s H. unf AlbumsReplyReceived. keep. Qed.

#[global] Instance ArtistAlbumsReplyReceived_keeps reply artist offset :
  Keeps (ArtistAlbumsReplyReceived reply artist offset).
Proof. intros s0 s H. unf ArtistAlbumsReplyReceived. keep. Qed.

#[global] Instance SongsReplyReceived_keeps reply limit offset :
  Keeps (SongsReplyReceived reply limit offset).
Proof. intros s0 s H. unf SongsReplyReceived. keep. Qed.

#[global] Instance AlbumSongsReplyReceived_keeps reply artist album offset :
  Keeps (AlbumSongsReplyReceived reply artist album offset).
Proof. intros s0 s H. unf AlbumSongsReplyReceived. keep. Qed.

#[global] Instance takeCovers_keeps album_id filename :
  Keeps (takeCovers album_id filename).
Proof.
  intros s0 s H. unf takeCovers. keep.
  apply fold_left_same; [|assumption]. intros song_id t0 t H'.
  destruct (songs_ t !! song_id) as [song|]; [|exact H'].
  revert H'. by apply Same_ext.
Qed.

#[global] Instance AlbumCoverReceived_keeps reply album_id url filename :
  Keeps (AlbumCoverReceived reply album_id url filename).
Proof. intros s0 s H. unf AlbumCoverReceived. keep. Qed.

#[global] Instance GetArtists_keeps : Keeps GetArtists.
Proof. intros s0 s H. unf GetArtists. keep. Qed.

#[global] Instance GetAlbums_keeps : Keeps GetAlbums.
Proof. intros s0 s H. unf GetAlbums. keep. Qed.

#[global] Instance GetSongs_keeps : Keeps GetSongs.
Proof. intros s0 s H. unf GetSongs. keep. Qed.

#[global] Instance ArtistsSearch_keeps : Keeps ArtistsSearch.
Proof. intros s0 s H. unf ArtistsSearch. keep. Qed.

#[global] Instance AlbumsSearch_keeps : Keeps AlbumsSearch.
Proof. intros s0 s H. unf AlbumsSearch. keep. Qed.

#[global] Instance SongsSearch_keeps : Keeps SongsSearch.
Proof. intros s0 s H. unf SongsSearch. keep. Qed.

#[global] Instance Process_keeps : Keeps Process.
Proof. intros s0 s H. unf Process. keep. Qed.

#[global] Instance deliver_keeps e : Keeps (λ s, deliver s e).
Proof. intros s0 s H. unf deliver. keep. Qed.

Lemma run_same s0 s events : Same s0 s → Same s0 (run s events).
Proof. apply fold_left_same. intros e. apply _. Qed.

(** X26: whatever is delivered to a crawl, in whatever order, the crawl
    leaves the service as it was given it: no reply, not even one that
    reports an invalid session, makes it log the service out or touch its
    tokens.  It keeps its type, and every result it emits carries the id of
    its search, or -1 for a library query. *)
Theorem crawl_keeps_service_and_id service app network type search events :
  let s := run (start service app network type search) events in
  service_ s = service
  ∧ type_ s = type
  ∧ ∀ r, r ∈ results s → r.1.1 = id_of_search search.
Proof.
  intros s.
  assert (H : ∃ s0, Same s0 s ∧ service_ s0 = service ∧ type_ s0 = type
                    ∧ query_id_ s0 = id_of_search search).
  { subst s. unfold start. destruct search as [[query_id search_text]|].
    - exists (Search query_id search_text (newRequest service app network type)).
      split; [|done]. apply run_same, Process_keeps. split; [done|].
      intros r Hr. by apply elem_of_nil in Hr.
    - exists (newRequest service app network type).
      split; [|done]. apply run_same, Process_keeps. split; [done|].
      intros r Hr. by apply elem_of_nil in Hr. }
  destruct H as (s0 & [Hi Hr] & H1 & H2 & H3).
  unfold identity in Hi.
  split; [congruence|]. split; [congruence|].
  intros r Hin. rewrite <- H3. by apply Hr.
Qed.

End CrawlKeeps.
